(** * Mental-health pipeline: standardisation and reconciliation core

    A shallow embedding of [src/mh/utils.py] and [src/mh/data.py]:
    the country-code resolver ([_normalize_key], [_fallback_lookup],
    [to_iso3]), the resilient Parquet reader ([read_parquet_safe]) and
    the table operations ([ingest_csv], [clean], [gender_gap],
    [join_external]).

    Conventions of the embedding.
    - A Python [str] is a Rocq [string]; each character is read as the
      Unicode code point of the same number (U+0000 .. U+00FF, the
      Latin-1 range), on which [str.lower] works character by character.
    - A pandas cell is [Null] (NaN / None / NA), a number or a string.
      float64 values are modelled by rationals in canonical form, so that
      equality of cells is equality of values.
    - A DataFrame is its list of column labels and its list of rows,
      every row holding one cell per column, in column order.
    - Code that can raise returns a [result]; the exception carries its
      Python class and its message. *)

From Stdlib Require Import Ascii String QArith Qcanon.
From Stdlib Require DecimalString.
From stdpp Require Import base numbers list strings gmap.

Open Scope string_scope.
Open Scope list_scope.

Set Warnings "-register-all".

(* ================================================================== *)
(** ** Python values, exceptions *)

Inductive exn_class :=
  | KeyError | ValueError | TypeError | IndexError | OSError | ImportError
  | FileNotFoundError | RuntimeError | KeyboardInterrupt.

(** [isinstance(e, OSError)]: [FileNotFoundError] derives from [OSError]. *)
Definition is_OSError (k : exn_class) : bool :=
  match k with OSError | FileNotFoundError => true | _ => false end.

Definition is_TypeError (k : exn_class) : bool :=
  match k with TypeError => true | _ => false end.

(** [isinstance(e, Exception)]: everything but [KeyboardInterrupt]. *)
Definition is_Exception (k : exn_class) : bool :=
  match k with KeyboardInterrupt => false | _ => true end.

Record exn := Exn { exn_cls : exn_class; exn_msg : string }.

Inductive result (A : Type) :=
  | Ok (a : A)
  | Raise (e : exn).
Arguments Ok {A} a.
Arguments Raise {A} e.

#[global] Instance result_ret : MRet result := fun A a => Ok a.
#[global] Instance result_bind : MBind result := fun A B f m =>
  match m with Ok a => f a | Raise e => Raise e end.

#[global] Instance exn_class_eq_dec : EqDecision exn_class.
Proof. solve_decision. Defined.
#[global] Instance exn_eq_dec : EqDecision exn.
Proof. solve_decision. Defined.

(** [for x in xs: f(x)] collecting the values, stopping at the first
    exception. *)
Fixpoint result_mapM {A B} (f : A -> result B) (xs : list A) : result (list B) :=
  match xs with
  | [] => Ok []
  | x :: xs' =>
      match f x with
      | Raise e => Raise e
      | Ok y => match result_mapM f xs' with
                | Raise e => Raise e
                | Ok ys => Ok (y :: ys)
                end
      end
  end.

(* ================================================================== *)
(** ** Strings *)

Definition chr_code (c : ascii) : N := N_of_ascii c.

Definition chr_between (lo hi : N) (c : ascii) : bool :=
  (lo <=? chr_code c)%N && (chr_code c <=? hi)%N.

Definition chr_among (l : list N) (c : ascii) : bool :=
  existsb (N.eqb (chr_code c)) l.

(** [ch.isalnum()] below U+0100: digits, the ASCII letters, the letters
    of Latin-1 (all of U+00C0 .. U+00FF but the signs U+00D7 and U+00F7,
    and the ordinal indicators and micro sign), the superscript digits
    and the vulgar fractions. *)
Definition chr_isalnum (c : ascii) : bool :=
  chr_between 48 57 c || chr_between 65 90 c || chr_between 97 122 c
  || chr_among [170; 178; 179; 181; 185; 186; 188; 189; 190]%N c
  || chr_between 192 214 c || chr_between 216 246 c || chr_between 248 255 c.

(** [ch.lower()] below U+0100: the capitals A .. Z, U+00C0 .. U+00D6 and
    U+00D8 .. U+00DE move up by 32, everything else is unchanged. *)
Definition chr_lower (c : ascii) : ascii :=
  if chr_between 65 90 c || chr_between 192 214 c || chr_between 216 222 c
  then ascii_of_N (chr_code c + 32)
  else c.

(** [ch.isspace()] below U+0100, the characters [str.strip()] removes. *)
Definition chr_isspace (c : ascii) : bool :=
  chr_between 9 13 c || chr_between 28 32 c || chr_among [133; 160]%N c.

Definition str_lower (s : string) : string :=
  string_of_list_ascii (map chr_lower (list_ascii_of_string s)).

Fixpoint lstrip_chars (p : ascii -> bool) (l : list ascii) : list ascii :=
  match l with
  | c :: l' => if p c then lstrip_chars p l' else l
  | [] => []
  end.

Definition rstrip_chars (p : ascii -> bool) (l : list ascii) : list ascii :=
  rev (lstrip_chars p (rev l)).

(** [s.strip()] *)
Definition str_strip (s : string) : string :=
  string_of_list_ascii
    (rstrip_chars chr_isspace (lstrip_chars chr_isspace (list_ascii_of_string s))).

(** [s.rstrip("_")] *)
Definition str_rstrip_underscore (s : string) : string :=
  string_of_list_ascii
    (rstrip_chars (fun c => bool_decide (c = "_"%char)) (list_ascii_of_string s)).

(** [needle in hay] *)
Fixpoint str_contains (needle hay : string) : bool :=
  String.prefix needle hay ||
  match hay with
  | EmptyString => false
  | String _ hay' => str_contains needle hay'
  end.

(** [s.endswith(suffix)] *)
Definition str_endswith (suffix s : string) : bool :=
  let n := String.length s in
  let k := String.length suffix in
  (k <=? n)%nat && bool_decide (String.substring (n - k) k s = suffix).

(** [s[:-k]] for [k > 0] *)
Definition str_drop_last (k : nat) (s : string) : string :=
  String.substring 0 (String.length s - k) s.

(** Python truthiness of a string: [if s:] *)
Definition str_truthy (s : string) : bool :=
  match s with EmptyString => false | _ => true end.

(** *** [repr] of a text and [str] of a list of texts *)

Definition chr_squote : ascii := "039"%char.
Definition chr_dquote : ascii := "034"%char.
Definition chr_backslash : ascii := "092"%char.

(** [ch.isprintable()] below U+0100: everything but the control
    characters, the no-break space and the soft hyphen. *)
Definition chr_isprintable (c : ascii) : bool :=
  chr_between 32 126 c || (chr_between 161 255 c && negb (chr_among [173]%N c)).

Definition hex_digit (n : N) : ascii :=
  nth (N.to_nat n) (list_ascii_of_string "0123456789abcdef") "0"%char.

(** One character inside [repr]: a backslash goes before the quote in
    use and before a backslash; tab, line feed and carriage return have
    their letter; a character that is not printable is written with its
    two hexadecimal digits. *)
Definition repr_chr (quote c : ascii) : list ascii :=
  if bool_decide (c = quote) || bool_decide (c = chr_backslash)
  then [chr_backslash; c]
  else if chr_among [9]%N c then [chr_backslash; "t"%char]
  else if chr_among [10]%N c then [chr_backslash; "n"%char]
  else if chr_among [13]%N c then [chr_backslash; "r"%char]
  else if chr_isprintable c then [c]
  else [chr_backslash; "x"%char;
        hex_digit (chr_code c / 16); hex_digit (chr_code c mod 16)].

(** [repr(s)]: the text between single quotes, or between double quotes
    when it has a single quote and no double quote. *)
Definition py_repr (s : string) : string :=
  let cs := list_ascii_of_string s in
  let quote :=
    if existsb (fun c => bool_decide (c = chr_squote)) cs
       && negb (existsb (fun c => bool_decide (c = chr_dquote)) cs)
    then chr_dquote else chr_squote in
  string_of_list_ascii ([quote] ++ flat_map (repr_chr quote) cs ++ [quote]).

(** [str(l)] for a list of texts, as an f-string writes it. *)
Definition py_str_list (l : list string) : string :=
  "[" +:+ String.concat ", " (map py_repr l) +:+ "]".

(* ================================================================== *)
(** ** Tables *)

Inductive cell :=
  | Null
  | Num (q : Qc)
  | Str (s : string).

#[global] Instance cell_eq_dec : EqDecision cell.
Proof. solve_decision. Defined.

Definition is_null (c : cell) : bool :=
  match c with Null => true | _ => false end.

Definition is_str (c : cell) : bool :=
  match c with Str _ => true | _ => false end.

Record DataFrame := Frame { columns : list string; rows : list (list cell) }.

#[global] Instance DataFrame_eq_dec : EqDecision DataFrame.
Proof. solve_decision. Defined.
#[global] Instance result_eq_dec {A} `{EqDecision A} : EqDecision (result A).
Proof. solve_decision. Defined.

(** Every row has one cell per column. *)
Definition frame_wf (df : DataFrame) : Prop :=
  Forall (fun r => length r = length (columns df)) (rows df).

(** [c in df.columns] *)
Definition has_column (df : DataFrame) (c : string) : bool :=
  bool_decide (c ∈ columns df).

(** Position of the column labelled [c]. *)
Fixpoint col_index (cols : list string) (c : string) : option nat :=
  match cols with
  | [] => None
  | c' :: cols' => if bool_decide (c' = c) then Some 0 else S <$> col_index cols' c
  end.

(** The cell of row [r] in column number [i]. *)
Definition cell_at (r : list cell) (i : nat) : cell := nth i r Null.

(** The cells of row [r] in the columns numbered [idx], in that order. *)
Definition project (idx : list nat) (r : list cell) : list cell :=
  map (cell_at r) idx.

(** Positions of the labels [names]; pandas raises [KeyError] for a label
    that is not a column. *)
Fixpoint positions (cols : list string) (names : list string) : result (list nat) :=
  match names with
  | [] => Ok []
  | c :: names' =>
      match col_index cols c with
      | None => Raise (Exn KeyError c)
      | Some i =>
          match positions cols names' with
          | Ok idx => Ok (i :: idx)
          | Raise e => Raise e
          end
      end
  end.

(** [df[names]] for a list of labels. *)
Definition df_select (df : DataFrame) (names : list string) : result DataFrame :=
  idx ← positions (columns df) names;
  Ok (Frame names (map (project idx) (rows df))).

(** [df[c] = values], row by row: the column is replaced in place when it
    exists and appended on the right otherwise. *)
Definition set_cell (cols : list string) (c : string) (v : cell) (r : list cell)
  : list cell :=
  match col_index cols c with
  | Some i => <[i := v]> r
  | None => r ++ [v]
  end.

Definition set_column (df : DataFrame) (c : string) (values : list cell) : DataFrame :=
  Frame (match col_index (columns df) c with
         | Some _ => columns df
         | None => columns df ++ [c]
         end)
        (zip_with (fun r v => set_cell (columns df) c v r) (rows df) values).

(** [df.dropna(subset=names)]: the rows with no missing cell in [names]. *)
Definition dropna (idx : list nat) (rs : list (list cell)) : list (list cell) :=
  List.filter (fun r => forallb (fun c => negb (is_null c)) (project idx r)) rs.

(** [df.duplicated(subset=names)]: the flag of a row tells whether an
    earlier row agrees with it on [names]; missing cells compare equal. *)
Fixpoint duplicated_from (seen : list (list cell)) (idx : list nat)
    (rs : list (list cell)) : list bool :=
  match rs with
  | [] => []
  | r :: rs' =>
      bool_decide (project idx r ∈ seen)
      :: duplicated_from (project idx r :: seen) idx rs'
  end.

Definition duplicated (idx : list nat) (rs : list (list cell)) : list bool :=
  duplicated_from [] idx rs.

(** [rs[~flags]]: the rows whose flag is false. *)
Definition unflagged (rs : list (list cell)) (flags : list bool) : list (list cell) :=
  (List.filter (fun rf => negb rf.2) (zip rs flags)).*1.

(** [df.drop_duplicates(subset=names)] is [df[~df.duplicated(subset=names)]]:
    the first row of each group of rows that agree on [names] is kept. *)
Definition drop_duplicates (idx : list nat) (rs : list (list cell)) : list (list cell) :=
  unflagged rs (duplicated idx rs).

(** The numbers among a list of cells. *)
Definition numbers_of (cs : list cell) : list Qc :=
  omap (fun c => match c with Num q => Some q | _ => None end) cs.

Definition Qc_sum (qs : list Qc) : Qc := foldr Qcplus (Q2Qc 0) qs.

(** Mean of a list of numeric cells, skipping missing cells
    ([skipna=True], the pandas default): the sum of the values that are
    not missing over their count, missing when there is none. *)
Definition nanmean (cs : list cell) : cell :=
  match numbers_of cs with
  | [] => Null
  | qs => Num (Qc_sum qs / Q2Qc (inject_Z (Z.of_nat (length qs))))
  end.

(** [a - b] on cells: missing when either side is missing. *)
Definition cell_sub (a b : cell) : result cell :=
  match a, b with
  | Str _, _ | _, Str _ =>
      Raise (Exn TypeError "unsupported operand type(s) for -")
  | Num x, Num y => Ok (Num (x - y))
  | _, _ => Ok Null
  end.

(** *** [pd.merge(left, right, on=on, how=how)]

    Rows are matched on the cells of the key columns [on]; missing keys
    match each other, as in pandas.  The result has the columns of
    [left] followed by the columns of [right] that are not keys; a label
    (not a key) carried by both sides gets the suffixes [_x] and [_y].
    - [HowLeft]: the rows of [left] in order, each one once per matching
      row of [right], or once with missing cells when none matches.
    - [HowOuter]: the same, and then the rows of [right] that match no
      row of [left], with missing cells in the columns of [left] that
      are not keys.  pandas sorts the rows of an outer merge by key: the
      order of the rows of an outer merge is not part of this model.
    The keys are looked up one by one, each in [right] and then in
    [left]: the first key that is no column label there is a [KeyError],
    a key that labels two columns a [ValueError]; pandas (2.x) fails on
    an empty key list.  The dtype compatibility check pandas runs on the
    key columns is not modelled. *)

Inductive merge_how := HowLeft | HowOuter.

Definition non_key_columns (cols on : list string) : list (nat * string) :=
  List.filter (fun ic => negb (bool_decide (ic.2 ∈ on)))
              (zip (seq 0 (length cols)) cols).

Definition overlapping (left_cols right_cols on : list string) (c : string) : bool :=
  negb (bool_decide (c ∈ on)) && bool_decide (c ∈ left_cols)
  && bool_decide (c ∈ right_cols).

Definition merge_labels (left_cols right_cols on : list string) : list string :=
  map (fun c => if overlapping left_cols right_cols on c then c +:+ "_x" else c)
      left_cols
  ++ map (fun ic => if overlapping left_cols right_cols on ic.2
                    then ic.2 +:+ "_y" else ic.2)
         (non_key_columns right_cols on).

(** The rows of [right] whose key equals the key [k]. *)
Definition matching (ri : list nat) (k : list cell) (right_rows : list (list cell))
  : list (list cell) :=
  List.filter (fun r => bool_decide (project ri r = k)) right_rows.

(** What one row [l] of [left] contributes to the merge. *)
Definition merge_left_row (li ri rest : list nat) (right_rows : list (list cell))
    (l : list cell) : list (list cell) :=
  match matching ri (project li l) right_rows with
  | [] => [l ++ map (fun _ => Null) rest]
  | ms => map (fun r => l ++ project rest r) ms
  end.

(** A row of [right] laid out on the columns of [left]: its key cells
    under the key labels, missing cells elsewhere. *)
Definition keys_on_left (left_cols right_cols on : list string) (r : list cell)
  : list cell :=
  map (fun c => if bool_decide (c ∈ on)
                then match col_index right_cols c with
                     | Some i => cell_at r i
                     | None => Null
                     end
                else Null)
      left_cols.

(** What one row [r] of [right] contributes to an outer merge beyond the
    rows of [left]. *)
Definition merge_right_only (left right : DataFrame) (on : list string)
    (li ri rest : list nat) (r : list cell) : list (list cell) :=
  match matching li (project ri r) (rows left) with
  | [] => [keys_on_left (columns left) (columns right) on r ++ project rest r]
  | _ => []
  end.

(** [_get_label_or_level_values(key)]: the position of the column
    labelled [key]; a key that is no label is a [KeyError], a key that
    labels more than one column a [ValueError]. *)
Definition label_position (cols : list string) (key : string) : result nat :=
  match col_index cols key with
  | None => Raise (Exn KeyError key)
  | Some i =>
      match col_index (drop (S i) cols) key with
      | None => Ok i
      | Some _ =>
          Raise (Exn ValueError ("The column label '" +:+ key +:+ "' is not unique."))
      end
  end.

(** [_get_merge_keys]: the keys are taken one by one, in the order of
    [on], each of them first in [right] and then in [left]. *)
Fixpoint merge_keys (left_cols right_cols on : list string)
  : result (list nat * list nat) :=
  match on with
  | [] => Ok ([], [])
  | key :: on' =>
      j ← label_position right_cols key;
      i ← label_position left_cols key;
      lr ← merge_keys left_cols right_cols on';
      Ok (i :: lr.1, j :: lr.2)
  end.

Definition merge (left right : DataFrame) (on : list string) (how : merge_how)
  : result DataFrame :=
  match on with
  | [] => Raise (Exn IndexError "list index out of range")
  | _ =>
      lr ← merge_keys (columns left) (columns right) on;
      let li := lr.1 in
      let ri := lr.2 in
      let rest := (non_key_columns (columns right) on).*1 in
      let from_left :=
        flat_map (merge_left_row li ri rest (rows right)) (rows left) in
      let from_right :=
        match how with
        | HowLeft => []
        | HowOuter =>
            flat_map (merge_right_only left right on li ri rest) (rows right)
        end in
      Ok (Frame (merge_labels (columns left) (columns right) on)
                (from_left ++ from_right))
  end.

(** *** [df.pivot_table(index=index, columns=by_col, values=values, aggfunc="mean")]

    Rows with a missing cell in [index] or [by_col] belong to no group; a
    group is one key of [index] and one value of [by_col]; its entry is the
    mean of its values that are not missing; a group without any such
    value is dropped ([dropna=True]), and so are the keys and the values
    of [by_col] left without a group.  A string among the values makes the
    mean fail.  pandas sorts keys and labels: their order is not part of
    this model. *)

Record pivot := Pivot {
  pv_index : list (list cell);     (* the keys, one per row *)
  pv_labels : list cell;           (* the distinct values of [by_col] *)
  pv_entry : list cell -> cell -> cell   (* the mean of a group *)
}.

Definition pivot_table (df : DataFrame) (index : list string) (by_col values : string)
  : result pivot :=
  vi ← positions (columns df) [values];
  ki ← positions (columns df) index;
  bi ← positions (columns df) [by_col];
  let grouped :=
    List.filter (fun r => forallb (fun c => negb (is_null c)) (project (ki ++ bi) r))
                (rows df) in
  if existsb (fun r => forallb is_str (project vi r)) grouped
  then Raise (Exn TypeError "agg function failed [how->mean,dtype->object]")
  else
    let observed :=
      List.filter (fun r => forallb (fun c => negb (is_null c)) (project vi r))
                  grouped in
    Ok (Pivot (remove_dups (map (project ki) observed))
              (remove_dups (mjoin (map (project bi) observed)))
              (fun k s =>
                 nanmean (mjoin (map (project vi)
                   (List.filter (fun r => bool_decide (project ki r = k)
                                          && bool_decide (project bi r = [s]))
                                observed))))).

(* ================================================================== *)
(** ** utils.py: the country-code resolver *)

(** [_normalize_key]: lower-case the text, keep the alphanumeric
    characters. *)
Definition _normalize_key (value : string) : string :=
  string_of_list_ascii
    (List.filter chr_isalnum (list_ascii_of_string (str_lower value))).

(** Two texts that differ only in the case of their letters and in
    characters that are not alphanumeric (punctuation, spacing). *)
Inductive key_variant : list ascii -> list ascii -> Prop :=
  | kv_nil : key_variant [] []
  | kv_case c c' l l' :
      chr_lower c = chr_lower c' -> key_variant l l' ->
      key_variant (c :: l) (c' :: l')
  | kv_skip_l c l l' :
      chr_isalnum c = false -> key_variant l l' -> key_variant (c :: l) l'
  | kv_skip_r c l l' :
      chr_isalnum c = false -> key_variant l l' -> key_variant l (c :: l').

(** A text made of whitespace only (the empty text included). *)
Definition blank (s : string) : bool :=
  forallb chr_isspace (list_ascii_of_string s).

(** An input that names no country: anything that is not a string, and a
    blank string. *)
Definition names_nothing (x : cell) : Prop :=
  match x with Str s => blank s = true | _ => True end.

(** Values of the dynamically typed variable [code] of [_map]. *)
Inductive pyobj :=
  | PyNone
  | PyStr (s : string)
  | PySeq (items : list pyobj)      (* a list or a tuple *)
  | PyOther.                        (* any other object *)

Section Resolver.

(** [_cc]: the [country_converter] instance, [None] when the package is
    not installed; [convert name] is
    [_cc.convert(names=name, to="ISO3", not_found=None)]. *)
Variable _cc : option (string -> result pyobj).

(** The bundled [_country_iso_fallback.json] as loaded by [json.load]:
    its (name, code) items in file order, or the exception raised when
    the file is missing or is not JSON. *)
Variable bundle : result (list (string * string)).

(** [Series.astype(str)] on one element.  What it does to a missing
    value depends on the pandas version (the text [nan], or the missing
    value itself); a string stays as it is and a number becomes the text
    that writes it. *)
Variable astype_str : cell -> cell.

(** [_fallback_iso_map]: the dict comprehension inserts the items in
    order, a later item replacing an earlier one with the same key.
    [lru_cache] only avoids loading twice. *)
Definition _fallback_iso_map : result (gmap string string) :=
  raw ← bundle;
  Ok (foldl (fun (m : gmap string string) (item : string * string) =>
               <[_normalize_key item.1 := item.2]> m) ∅ raw).

Definition _fallback_lookup (name : pyobj) : result pyobj :=
  match name with
  | PyStr s =>
      let key := _normalize_key s in
      if negb (str_truthy key) then Ok PyNone
      else
        m ← _fallback_iso_map;
        Ok (match m !! key with Some code => PyStr code | None => PyNone end)
  | _ => Ok PyNone
  end.

(** The [try] around [_cc.convert]: any [Exception] gives [None]. *)
Definition convert_guarded (convert : string -> result pyobj) (name : string)
  : result pyobj :=
  match convert name with
  | Ok code => Ok code
  | Raise e => if is_Exception (exn_cls e) then Ok PyNone else Raise e
  end.

Definition first_of_sequence (code : pyobj) : pyobj :=
  match code with
  | PySeq [] => PyNone
  | PySeq (c :: _) => c
  | _ => code
  end.

Definition drop_not_found (code : pyobj) : pyobj :=
  match code with
  | PyStr s =>
      if bool_decide (str_strip (str_lower s) ∈ ["not found"; "notfound"; ""])
      then PyNone else code
  | _ => code
  end.

(** [isinstance(code, str) and code.strip()] *)
Definition usable_code (code : pyobj) : bool :=
  match code with
  | PyStr s => str_truthy (str_strip s)
  | _ => false
  end.

(** The inner function [_map] of [to_iso3]; [np.nan] is [Null]. *)
Definition _map (x : cell) : result cell :=
  let name := match x with Str s => str_strip s | _ => "" end in
  if negb (str_truthy name) then Ok Null
  else
    code ← match _cc with
           | None => Ok PyNone
           | Some convert =>
               code ← convert_guarded convert name;
               Ok (drop_not_found (first_of_sequence code))
           end;
    code ← (if usable_code code then Ok code else _fallback_lookup (PyStr name));
    Ok (match code with
        | PyStr s => if str_truthy s then Str s else Null
        | _ => Null
        end).

(** [to_iso3]: [country_series.astype(str).map(_map)] *)
Definition to_iso3 (country_series : list cell) : result (list cell) :=
  result_mapM (fun x => _map (astype_str x)) country_series.

End Resolver.

(* ================================================================== *)
(** ** utils.py: the resilient Parquet reader *)

Inductive strategy :=
  | PandasDefault        (* pd.read_parquet(path, columns=columns) *)
  | ArrowLegacyDataset   (* pq.read_table(path, use_legacy_dataset=True, ..) *)
  | ArrowTable           (* pq.read_table(path, use_threads=False) *)
  | ArrowSingleFile      (* pq.ParquetFile(path).read(use_threads=False) *)
  | FastParquet.         (* pd.read_parquet(.., engine="fastparquet") *)

Inductive event :=
  | Attempt (s : strategy)
  | Warn (message : string).

#[global] Instance strategy_eq_dec : EqDecision strategy.
Proof. solve_decision. Defined.
#[global] Instance event_eq_dec : EqDecision event.
Proof. solve_decision. Defined.

(** What each reader does with the file at [path]: the outside world of
    [read_parquet_safe]. *)
Record readers := Readers {
  pd_read_parquet : option (list string) -> result DataFrame;
  import_pyarrow : result unit;
  pq_read_table_legacy : result DataFrame;
  pq_read_table : result DataFrame;
  pq_ParquetFile_read : result DataFrame;
  import_fastparquet : result unit;
  pd_read_parquet_fastparquet : option (list string) -> result DataFrame
}.

Definition defect_signature : string := "Repetition level histogram size mismatch".

(** ["Repetition level histogram size mismatch" in str(err)] *)
Definition has_defect (err : exn) : bool :=
  str_contains defect_signature (exn_msg err).

(** The test of lines 110-113 (and 128-130, 133-135): an [OSError] whose
    text carries the signature. *)
Definition triggers_fallback (err : exn) : bool :=
  is_OSError (exn_cls err) && has_defect err.

(** A computation that logs the strategies it attempts. *)
Definition logged (A : Type) : Type := list event * result A.

Definition log {A} (evs : list event) (k : logged A) : logged A :=
  (evs ++ k.1, k.2).

Definition done_with {A} (r : result A) : logged A := ([], r).

(** Lines 141-147: the table of a pyarrow strategy becomes the frame;
    [if columns:] is false for [None] and for the empty list. *)
Definition to_frame (columns_arg : option (list string)) (table : DataFrame)
  : result DataFrame :=
  match columns_arg with
  | None | Some [] => Ok table
  | Some cols =>
      match List.filter (fun c => negb (has_column table c)) cols with
      | [] => df_select table cols
      | missing =>
          Raise (Exn KeyError
                   ("Columns not found in parquet file: " +:+ py_str_list missing))
      end
  end.

(** Lines 136-140: the last resort. *)
Definition read_fastparquet (env : readers) (columns_arg : option (list string))
    (err3 : exn) : logged DataFrame :=
  match import_fastparquet env with
  | Raise e => done_with (if is_Exception (exn_cls e) then Raise err3 else Raise e)
  | Ok _ =>
      log [Attempt FastParquet]
        (match pd_read_parquet_fastparquet env columns_arg with
         | Ok frame => done_with (Ok frame)
         | Raise e =>
             done_with (if is_Exception (exn_cls e) then Raise err3 else Raise e)
         end)
  end.

(** Lines 131-140: the single-file read. *)
Definition read_single_file (env : readers) (columns_arg : option (list string))
  : logged DataFrame :=
  log [Attempt ArrowSingleFile]
    (match pq_ParquetFile_read env with
     | Ok table => done_with (to_frame columns_arg table)
     | Raise err3 =>
         if is_OSError (exn_cls err3) then
           if negb (has_defect err3) then done_with (Raise err3)
           else read_fastparquet env columns_arg err3
         else done_with (Raise err3)
     end).

(** Lines 124-147: the pyarrow strategies. *)
Definition read_pyarrow (env : readers) (columns_arg : option (list string))
  : logged DataFrame :=
  log [Attempt ArrowLegacyDataset]
    (match pq_read_table_legacy env with
     | Ok table => done_with (to_frame columns_arg table)
     | Raise err2 =>
         if is_TypeError (exn_cls err2) then
           log [Attempt ArrowTable]
             (match pq_read_table env with
              | Ok table => done_with (to_frame columns_arg table)
              | Raise e => done_with (Raise e)
              end)
         else if is_OSError (exn_cls err2) then
           if negb (has_defect err2) then done_with (Raise err2)
           else read_single_file env columns_arg
         else done_with (Raise err2)
     end).

Definition read_parquet_safe (env : readers) (columns_arg : option (list string))
  : logged DataFrame :=
  log [Attempt PandasDefault]
    (match pd_read_parquet env columns_arg with
     | Ok frame => done_with (Ok frame)
     | Raise err =>
         if is_OSError (exn_cls err) then
           if negb (has_defect err) then done_with (Raise err)
           else
             log [Warn "pyarrow dataset reader failed, attempting fallback read via pyarrow.parquet"]
               (match import_pyarrow env with
                | Raise exc =>
                    match exn_cls exc with
                    | ImportError => done_with (Raise err)
                    | _ => done_with (Raise exc)
                    end
                | Ok _ => read_pyarrow env columns_arg
                end)
         else done_with (Raise err)
     end).

(* ================================================================== *)
(** ** data.py *)

Fixpoint result_foldM {A B} (f : A -> B -> result A) (a : A) (xs : list B)
  : result A :=
  match xs with
  | [] => Ok a
  | x :: xs' =>
      match f a x with
      | Ok a' => result_foldM f a' xs'
      | Raise e => Raise e
      end
  end.

(** [pd.to_numeric(column, errors="coerce")] on one cell; the parser of
    numeric text is pandas' own. *)
Definition to_numeric (parse_number : string -> option Qc) (c : cell) : cell :=
  match c with
  | Str s => match parse_number s with Some q => Num q | None => Null end
  | _ => c
  end.

(** [.astype("Int64")] on one cell: a number that is not an integer
    cannot be cast. *)
Definition astype_Int64 (c : cell) : result cell :=
  match c with
  | Num q =>
      if bool_decide (Qden (this q) = 1%positive) then Ok c
      else Raise (Exn TypeError "cannot safely cast non-equivalent float64 to int64")
  | _ => Ok c
  end.

(** [df[c]] as a list of cells. *)
Definition column_values (df : DataFrame) (c : string) : result (list cell) :=
  match col_index (columns df) c with
  | Some i => Ok (map (fun r => cell_at r i) (rows df))
  | None => Raise (Exn KeyError c)
  end.

(** [df.rename(columns=mapping)] *)
Definition rename_columns (mapping : gmap string string) (df : DataFrame) : DataFrame :=
  Frame (map (fun c => default c (mapping !! c)) (columns df)) (rows df).

(** [df[[a, b]].mean(axis=1)]: a string cell anywhere in the two columns
    makes the reduction fail. *)
Definition mean_axis1 (df : DataFrame) (names : list string) : result (list cell) :=
  idx ← positions (columns df) names;
  if existsb (fun r => existsb is_str (project idx r)) (rows df)
  then Raise (Exn TypeError "unsupported operand type(s) for +")
  else Ok (map (fun r => nanmean (project idx r)) (rows df)).

(** The mean of the two halves that are present: of both when both are,
    of the one that is when the other is missing. *)
Definition mean_of_present (male female : cell) : cell :=
  match male, female with
  | Num m, Num f => Num ((m + f) / Q2Qc 2)
  | Num m, Null => Num m
  | Null, Num f => Num f
  | _, _ => Null
  end.

(** The column [prevalence_total] of a well-formed frame holds [vs]. *)
Definition total_is (df : DataFrame) (vs : list cell) : Prop :=
  frame_wf df /\ column_values df "prevalence_total" = Ok vs.

Definition prevalence_columns : list string :=
  ["prevalence_total"; "prevalence_male"; "prevalence_female";
   "prevalence_depression"; "prevalence_anxiety"].

Section Ingest.

(** [CANONICAL_COLUMNS] of [mh/config.py]. *)
Variable CANONICAL_COLUMNS : list string.
(** [ColumnConfig.from_yaml(config_path).canonicalize]. *)
Variable canonicalize : list string -> gmap string string.
(** The number pandas reads in a text, if any. *)
Variable parse_number : string -> option Qc.
(** The resolver's collaborators, see [Resolver]. *)
Variable _cc : option (string -> result pyobj).
Variable bundle : result (list (string * string)).
Variable astype_str : cell -> cell.

(** Lines 15-16: derive the total prevalence. *)
Definition derive_total (df : DataFrame) : result DataFrame :=
  if negb (has_column df "prevalence_total")
     && has_column df "prevalence_male" && has_column df "prevalence_female"
  then
    total ← mean_axis1 df ["prevalence_male"; "prevalence_female"];
    Ok (set_column df "prevalence_total" total)
  else Ok df.

(** Lines 21-22 *)
Definition coerce_year (df : DataFrame) : result DataFrame :=
  if has_column df "year" then
    ys ← column_values df "year";
    ys' ← result_mapM (fun y => astype_Int64 (to_numeric parse_number y)) ys;
    Ok (set_column df "year" ys')
  else Ok df.

(** Lines 23-26, one column *)
Definition coerce_prevalence (df : DataFrame) (col : string) : result DataFrame :=
  if has_column df col then
    vs ← column_values df col;
    Ok (set_column df col (map (to_numeric parse_number) vs))
  else Ok df.

(** Lines 27-28 *)
Definition add_iso3 (df : DataFrame) : result DataFrame :=
  if has_column df "country" then
    names ← column_values df "country";
    codes ← to_iso3 _cc bundle astype_str names;
    Ok (set_column df "country_iso3" codes)
  else Ok df.

(** [ingest_csv], from the frame [pd.read_csv(path)]. *)
Definition ingest_csv (csv : DataFrame) : result DataFrame :=
  let mapping := canonicalize (columns csv) in
  let df := rename_columns mapping csv in
  df ← derive_total df;
  let keep := List.filter (has_column df) CANONICAL_COLUMNS in
  df ← df_select df keep;
  df ← coerce_year df;
  df ← result_foldM coerce_prevalence df prevalence_columns;
  add_iso3 df.

End Ingest.

(** [clean] *)
Definition clean (df : DataFrame) : result DataFrame :=
  match List.filter (fun c => negb (has_column df c)) ["country_iso3"; "year"] with
  | c :: _ =>
      Raise (Exn ValueError
        ("Missing required column '" +:+ c +:+
         "'. Check your columns.yaml mapping and ingest step."))
  | [] =>
      required ← positions (columns df) ["country_iso3"; "year"];
      let kept := dropna required (rows df) in
      subset ← positions (columns df)
                 (List.filter (fun c => negb (bool_decide (c = "sex"))) (columns df));
      Ok (Frame (columns df) (drop_duplicates subset kept))
  end.

(** Two rows that carry the same cell in every column but [sex]. *)
Definition agree_except_sex (cols : list string) (r r' : list cell) : Prop :=
  forall i c, cols !! i = Some c -> c <> "sex" -> cell_at r i = cell_at r' i.

(** [join_external] *)
Definition join_external (base external : DataFrame) (on : list string)
  : result DataFrame :=
  merge base external on HowLeft.

(** What a left merge of [base] with [external] on [on] looks like: the
    columns are those of [base] followed by the non-key columns of
    [external]; the
    left parts of the rows of [res] are the base records in order, each
    one once per external row with its key and once when there is none;
    the right part of a row is the non-key cells of an external row with
    the key of its left part, or missing cells when there is none. *)
Definition left_merge_of (base external : DataFrame) (on : list string)
    (res : DataFrame) : Prop :=
  exists li ri,
    positions (columns base) on = Ok li
    /\ positions (columns external) on = Ok ri
    /\ columns res = merge_labels (columns base) (columns external) on
    /\ map (take (length (columns base))) (rows res)
       = flat_map (fun b =>
                     replicate
                       (Nat.max 1 (length (matching ri (project li b) (rows external))))
                       b)
                  (rows base)
    /\ forall r, r ∈ rows res ->
         let b := take (length (columns base)) r in
         let added := drop (length (columns base)) r in
         b ∈ rows base
         /\ ((matching ri (project li b) (rows external) = []
              /\ added = replicate (length (non_key_columns (columns external) on)) Null)
             \/ (exists e, e ∈ rows external
                           /\ project ri e = project li b
                           /\ added = project (non_key_columns (columns external) on).*1 e)).

(** *** [gender_gap] *)

Definition keys : list string := ["country"; "country_iso3"; "year"].

Definition indicators : list string :=
  ["prevalence_total"; "prevalence_depression"; "prevalence_anxiety"].

(** The local variables [out] and [produced]. *)
Record gap_state := GapState {
  out : list DataFrame;
  produced : gset string
}.

(** [str(c).lower()] for a label [c] of the pivoted table.  The text of a
    label that is not a string (a number) is never [female] nor [male]:
    such a label is left as it is. *)
Definition lower_label (c : cell) : cell :=
  match c with Str s => Str (str_lower s) | _ => c end.

(** The labels of the pivoted table that are renamed to [name]. *)
Definition labels_renamed_to (name : string) (wide : pivot) : list cell :=
  List.filter (fun c => bool_decide (lower_label c = Str name)) (pv_labels wide).

(** Lines 58-59: [wide["female"] - wide["male"]] and the part.  When the
    renaming gave one of the two labels to several columns the
    subtraction is not between two columns and pandas fails. *)
Definition long_part (wide : pivot) (gap_col : string) : result DataFrame :=
  match labels_renamed_to "female" wide, labels_renamed_to "male" wide with
  | [f], [m] =>
      gaps ← result_mapM (fun k => cell_sub (pv_entry wide k f) (pv_entry wide k m))
                         (pv_index wide);
      Ok (Frame (keys ++ [gap_col])
                (zip_with (fun k g => k ++ [g]) (pv_index wide) gaps))
  | _, _ => Raise (Exn ValueError "cannot reindex on an axis with duplicate labels")
  end.

(** Lines 50-61: the body of the loop over [indicators]. *)
Definition long_step (df : DataFrame) (st : gap_state) (name : string)
  : result gap_state :=
  if has_column df "sex" && has_column df name then
    wide ← pivot_table df keys "sex" name;
    match labels_renamed_to "female" wide, labels_renamed_to "male" wide with
    | _ :: _, _ :: _ =>
        let gap_col := name +:+ "_gap_fm" in
        if bool_decide (gap_col ∈ produced st) then Ok st
        else
          part ← long_part wide gap_col;
          Ok (GapState (out st ++ [part]) ({[gap_col]} ∪ produced st))
    | _, _ => Ok st
    end
  else Ok st.

(** Lines 70-74: the name of the gap column of [male_col]. *)
Definition wide_gap_name (male_col : string) : string :=
  let base := str_drop_last 5 male_col in
  let indicator_name :=
    if str_endswith "_" base then str_rstrip_underscore base else base in
  let indicator_name :=
    if str_truthy indicator_name then indicator_name else str_drop_last 5 male_col in
  indicator_name +:+ "_gap_fm".

(** Lines 66-80: the body of the loop over [male_cols]. *)
Definition wide_step (df : DataFrame) (st : gap_state) (male_col : string)
  : result gap_state :=
  let base := str_drop_last 5 male_col in
  let female_col := base +:+ "_female" in
  if negb (has_column df female_col) then Ok st
  else
    let gap_name := wide_gap_name male_col in
    if bool_decide (gap_name ∈ produced st) then Ok st
    else
      part ← df_select df keys;
      females ← column_values df female_col;
      males ← column_values df male_col;
      gaps ← result_mapM (fun fm => cell_sub fm.1 fm.2) (zip females males);
      Ok (GapState (out st ++ [set_column part gap_name gaps])
                   ({[gap_name]} ∪ produced st)).

(** Lines 48-61 *)
Definition long_pass (df : DataFrame) : result gap_state :=
  if has_column df "sex"
  then result_foldM (long_step df) (GapState [] ∅) indicators
  else Ok (GapState [] ∅).

(** Lines 64-80 *)
Definition male_cols (df : DataFrame) : list string :=
  List.filter (str_endswith "_male") (columns df).

Definition wide_pass (df : DataFrame) (st : gap_state) : result gap_state :=
  result_foldM (wide_step df) st (male_cols df).

(** Lines 82-88 *)
Definition merge_gaps (parts : list DataFrame) : result DataFrame :=
  match parts with
  | [] =>
      Raise (Exn ValueError
        "Sex-stratified columns not found. Provide 'sex' column or *_male/*_female pairs.")
  | res :: parts' =>
      result_foldM (fun res part => merge res part keys HowOuter) res parts'
  end.

(** The gap tables collected by the two passes. *)
Definition gap_parts (df : DataFrame) : result (list DataFrame) :=
  st ← long_pass df;
  st ← wide_pass df st;
  Ok (out st).

Definition gender_gap (df : DataFrame) : result DataFrame :=
  parts ← gap_parts df;
  merge_gaps parts.

(** *** What the statements about [gender_gap] speak of *)

(** [f"{base}_female"] for [base = male_col[:-5]] *)
Definition female_sibling (male_col : string) : string :=
  str_drop_last 5 male_col +:+ "_female".

(** [k] underscores. *)
Definition underscores (k : nat) : string :=
  string_of_list_ascii (replicate k "_"%char).

(** A [sex] column together with one of the indicators. *)
Definition long_signal (df : DataFrame) : bool :=
  has_column df "sex" && existsb (has_column df) indicators.

(** A column [*_male] with its sibling [*_female]. *)
Definition wide_signal (df : DataFrame) : bool :=
  existsb (fun c => has_column df (female_sibling c)) (male_cols df).


(** The key of a row of a gap table: its first three cells. *)
Definition key_of (r : list cell) : list cell := take (length keys) r.

(** A gap table for the gap column [g]: the three key columns and [g]. *)
Definition is_gap_table (part : DataFrame) (g : string) : Prop :=
  columns part = keys ++ [g] /\ frame_wf part.

(** The loop invariant of the two passes: [out] holds one gap table per
    name in [gs], the names are distinct and they are the members of
    [produced]. *)
Definition gap_state_ok (st : gap_state) (gs : list string) : Prop :=
  Forall2 is_gap_table (out st) gs
  /\ NoDup gs
  /\ (forall g, g ∈ produced st <-> g ∈ gs)
  /\ Forall (fun g => str_endswith "_gap_fm" g = true) gs.

(** The value a row [r] of the merged table shows for the gap table
    [part], found in column [3 + i]: the gap of a row of [part] with the
    key of [r], or a missing cell when [part] has no row with that key. *)
Definition gap_from (part : DataFrame) (i : nat) (r : list cell) : Prop :=
  ((key_of r ∉ map key_of (rows part)) /\ cell_at r (length keys + i) = Null)
  \/ (exists r', r' ∈ rows part /\ key_of r' = key_of r
                 /\ cell_at r (length keys + i) = cell_at r' (length keys)).

(** A table with one row per key. *)
Definition unique_keys (df : DataFrame) : Prop :=
  NoDup (map key_of (rows df)).

(** [res] is the outer merge of the gap tables [parts] on the key: its
    keys are the keys of all the parts, and each of its rows shows, for
    each part, a gap of that part under the same key or a missing cell;
    it has one row per key when every part has. *)
Definition outer_merge_of (parts : list DataFrame) (gs : list string)
    (res : DataFrame) : Prop :=
  columns res = keys ++ gs
  /\ frame_wf res
  /\ (forall k, k ∈ map key_of (rows res) <->
                exists part, part ∈ parts /\ k ∈ map key_of (rows part))
  /\ (forall r i part, r ∈ rows res -> parts !! i = Some part -> gap_from part i r)
  /\ (Forall unique_keys parts -> unique_keys res).

(* ================================================================== *)
(** ** Proof automation *)

(** Builds a [key_variant] derivation for two concrete texts. *)
Ltac key_variant_steps :=
  repeat first
    [ apply kv_nil
    | apply kv_case; [reflexivity|]
    | apply kv_skip_l; [reflexivity|]
    | apply kv_skip_r; [reflexivity|] ].

(* ================================================================== *)
(** ** utils.py: the helpers [coalesce_first], [ensure_numeric], [latest_year] *)

(** [a.fillna(b)] on one cell. *)
Definition fillna (a b : cell) : cell :=
  if is_null a then b else a.

(** The body of the loop of [coalesce_first]:
    [if c in df: df[out] = df[out].fillna(df[c])]. *)
Definition coalesce_step (out : string) (df : DataFrame) (c : string)
  : result DataFrame :=
  if has_column df c then
    current ← column_values df out;
    others ← column_values df c;
    Ok (set_column df out (zip_with fillna current others))
  else Ok df.

(** [coalesce_first]: [df[out] = None], then the loop over [cols]. *)
Definition coalesce_first (df : DataFrame) (cols : list string) (out : string)
  : result DataFrame :=
  result_foldM (coalesce_step out)
    (set_column df out (map (fun _ => Null) (rows df))) cols.

(** The first cell that is not missing, a missing cell when there is
    none. *)
Fixpoint first_present (cs : list cell) : cell :=
  match cs with
  | [] => Null
  | c :: cs' => if is_null c then first_present cs' else c
  end.

(** The cells of a row of [df] under those labels of [cols] that are
    columns of [df] other than [out], in the order of [cols]. *)
Definition candidates (df : DataFrame) (cols : list string) (out : string)
    (r : list cell) : list cell :=
  omap (fun c => if bool_decide (c = out) then None
                 else (fun i => cell_at r i) <$> col_index (columns df) c)
       cols.

(** [ensure_numeric]: the loop
    [if c in df: df[c] = pd.to_numeric(df[c], errors="coerce")]. *)
Definition ensure_numeric (parse_number : string -> option Qc)
    (df : DataFrame) (cols : list string) : result DataFrame :=
  result_foldM (coerce_prevalence parse_number) df cols.

(** The integer part of a number. *)
Definition truncate (q : Qc) : Z :=
  Z.quot (Qnum (this q)) (Z.pos (Qden (this q))).

Definition int64_range (z : Z) : bool :=
  (- 2 ^ 63 <=? z)%Z && (z <? 2 ^ 63)%Z.

(** [.astype(int)] on one number: the fractional part is dropped and the
    result is a 64-bit integer.  What the cast gives for a number whose
    integer part does not fit is left to the platform by numpy:
    [out_of_range] stands for it. *)
Definition astype_int (out_of_range : Qc -> Z) (q : Qc) : Z :=
  if int64_range (truncate q) then truncate q else out_of_range q.

(** The years of [latest_year]:
    [pd.to_numeric(df["year"], errors="coerce").dropna().astype(int)]. *)
Definition numeric_years (parse_number : string -> option Qc)
    (out_of_range : Qc -> Z) (cells : list cell) : list Z :=
  omap (fun c => match to_numeric parse_number c with
                 | Num q => Some (astype_int out_of_range q)
                 | _ => None
                 end) cells.

(** [vals.max()] of a non-empty series. *)
Fixpoint maximum (y : Z) (ys : list Z) : Z :=
  match ys with
  | [] => y
  | y' :: ys' => Z.max y (maximum y' ys')
  end.

(** [latest_year]; [None] is Python's [None]. *)
Definition latest_year (parse_number : string -> option Qc)
    (out_of_range : Qc -> Z) (df : DataFrame) : option Z :=
  match col_index (columns df) "year" with
  | None => None
  | Some i =>
      match numeric_years parse_number out_of_range
              (map (fun r => cell_at r i) (rows df)) with
      | [] => None
      | y :: ys => Some (maximum y ys)
      end
  end.

(* ================================================================== *)
(** ** cli.py: what [join_external_cmd] does to the external table *)

(** [for c in candidates: if c in e.columns: ...; break]: the first of
    the labels that is a column. *)
Definition first_column (e : DataFrame) (labels : list string) : option string :=
  List.find (has_column e) labels.

(** Lines 113-118: the year of the external table. *)
Definition external_year (parse_number : string -> option Qc) (e : DataFrame)
  : result DataFrame :=
  match first_column e ["year"; "Year"; "YEAR"] with
  | None => Ok e
  | Some c =>
      vs ← column_values e c;
      let e' := set_column e "year" (map (to_numeric parse_number) vs) in
      Ok (if bool_decide (c = "year") then e'
          else rename_columns {[c := "year"]} e')
  end.

(** Lines 120-124: the country code of the external table. *)
Definition external_country_code (e : DataFrame) : DataFrame :=
  if has_column e "country_iso3" then e
  else
    match first_column e ["iso_code"; "ISO3"; "iso3"; "Code"] with
    | None => e
    | Some c => rename_columns {[c := "country_iso3"]} e
    end.

(** The labels under which [join_external_cmd] looks for the country
    code, in the order of line 121. *)
Definition code_aliases : list string := ["iso_code"; "ISO3"; "iso3"; "Code"].

(* ================================================================== *)
(** ** What the further statements speak of *)

Definition fallback_warning : event :=
  Warn "pyarrow dataset reader failed, attempting fallback read via pyarrow.parquet".

(** The runs [read_parquet_safe] can make: one strategy after the other,
    the plain table read only in place of the legacy one. *)
Definition possible_runs : list (list event) :=
  [ [Attempt PandasDefault];
    [Attempt PandasDefault; fallback_warning];
    [Attempt PandasDefault; fallback_warning; Attempt ArrowLegacyDataset];
    [Attempt PandasDefault; fallback_warning; Attempt ArrowLegacyDataset;
     Attempt ArrowTable];
    [Attempt PandasDefault; fallback_warning; Attempt ArrowLegacyDataset;
     Attempt ArrowSingleFile];
    [Attempt PandasDefault; fallback_warning; Attempt ArrowLegacyDataset;
     Attempt ArrowSingleFile; Attempt FastParquet] ].

(** A cell that holds a whole number or nothing. *)
Definition integer_or_null (c : cell) : Prop :=
  match c with
  | Null => True
  | Num q => Qden (this q) = 1%positive
  | Str _ => False
  end.

(** A resolved code: a text that is not empty, or nothing. *)
Definition code_or_null (c : cell) : Prop :=
  match c with
  | Null => True
  | Str s => s <> ""
  | Num _ => False
  end.

(** The column [c] of a well-formed frame holds [vs]. *)
Definition column_is (df : DataFrame) (c : string) (vs : list cell) : Prop :=
  frame_wf df /\ column_values df c = Ok vs.

(** A frame with [n] well-formed rows. *)
Definition frame_of_size (n : nat) (df : DataFrame) : Prop :=
  frame_wf df /\ length (rows df) = n.

(* ================================================================== *)
(** ** Sample data used by the worked examples below *)

Definition num (z : Z) : cell := Num (Q2Qc (inject_Z z)).

Definition defect_at (place : string) : exn :=
  Exn OSError ("Repetition level histogram size mismatch (" +:+ place +:+ ")").

Definition stored_frame : DataFrame :=
  Frame ["country"; "country_iso3"; "year"]
        [[Str "Kenya"; Str "KEN"; num 2020]].

(** A file on which every reader meets the defect. *)
Definition defective_everywhere : readers :=
  {| pd_read_parquet := fun _ => Raise (defect_at "dataset");
     import_pyarrow := Ok ();
     pq_read_table_legacy := Raise (defect_at "legacy dataset");
     pq_read_table := Raise (defect_at "table");
     pq_ParquetFile_read := Raise (defect_at "single file");
     import_fastparquet := Ok ();
     pd_read_parquet_fastparquet := fun _ => Raise (defect_at "fastparquet") |}.

(** A path that does not exist for pandas, although every other reader
    would return a frame. *)
Definition missing_for_pandas : readers :=
  {| pd_read_parquet := fun _ => Raise (Exn FileNotFoundError "No such file or directory");
     import_pyarrow := Ok ();
     pq_read_table_legacy := Ok stored_frame;
     pq_read_table := Ok stored_frame;
     pq_ParquetFile_read := Ok stored_frame;
     import_fastparquet := Ok ();
     pd_read_parquet_fastparquet := fun _ => Ok stored_frame |}.

(** The defect on the dataset reader only. *)
Definition defective_dataset : readers :=
  {| pd_read_parquet := fun _ => Raise (defect_at "dataset");
     import_pyarrow := Ok ();
     pq_read_table_legacy := Ok stored_frame;
     pq_read_table := Ok stored_frame;
     pq_ParquetFile_read := Ok stored_frame;
     import_fastparquet := Ok ();
     pd_read_parquet_fastparquet := fun _ => Ok stored_frame |}.

(** "Côte d'Ivoire": the letter o with circumflex is U+00F4. *)
Definition cote_d_ivoire : string :=
  String "C"%char (String "244"%char "te d'Ivoire").

(** The same name in capitals, without the apostrophe: U+00D4 is the
    capital of U+00F4. *)
Definition cote_d_ivoire_capitals : string :=
  String "C"%char (String "212"%char "TE D IVOIRE").

Definition one_name_bundle : result (list (string * string)) :=
  Ok [(cote_d_ivoire, "CIV")].

(** Collaborators that fail whenever they are used. *)
Definition failing_converter : option (string -> result pyobj) :=
  Some (fun _ => Raise (Exn KeyboardInterrupt "interrupted")).

Definition missing_bundle : result (list (string * string)) :=
  Raise (Exn FileNotFoundError "_country_iso_fallback.json").

(** Two records of one country and year with the same prevalence, one
    per sex. *)
Definition two_sexes : DataFrame :=
  Frame ["country"; "country_iso3"; "year"; "sex"; "prevalence_total"]
        [[Str "Kenya"; Str "KEN"; num 2020; Str "male"; num 5];
         [Str "Kenya"; Str "KEN"; num 2020; Str "female"; num 5]].

(** One base record, and an external table with two rows for its country
    code and one row for another country. *)
Definition one_country : DataFrame :=
  Frame ["country_iso3"; "year"; "prevalence_total"]
        [[Str "KEN"; num 2020; num 5]].

Definition external_two_rows : DataFrame :=
  Frame ["country_iso3"; "gdp"]
        [[Str "KEN"; num 100]; [Str "KEN"; num 110]; [Str "PER"; num 200]].

(** Modelled from the spec: the canonical vocabulary of its section 3, for
    [CANONICAL_COLUMNS], which is defined in [mh/config.py]. *)
Definition spec_canonical_columns : list string :=
  ["country"; "country_code"; "year"; "prevalence_total"; "prevalence_male";
   "prevalence_female"; "prevalence_depression"; "prevalence_anxiety"; "sex"].

(** A survey export with the two halves only; the second record has no
    female value. *)
Definition halves_only : DataFrame :=
  Frame ["country"; "year"; "prevalence_male"; "prevalence_female"]
        [[Str "Kenya"; num 2020; num 10; num 20];
         [Str "Peru"; num 2020; num 10; Null]].

Definition two_names_bundle : result (list (string * string)) :=
  Ok [("Kenya", "KEN"); ("Peru", "PER")].

(** [ingest_csv] with an identity column mapping, no converter installed
    and the two-name bundle. *)
Definition ingest_halves_only : result DataFrame :=
  ingest_csv spec_canonical_columns (fun _ => ∅) (fun _ => None)
             None two_names_bundle (fun x => x) halves_only.

(** A long table and a wide table without the [country] column. *)
Definition long_without_country : DataFrame :=
  Frame ["country_iso3"; "year"; "sex"; "prevalence_total"]
        [[Str "KEN"; num 2020; Str "Male"; num 10];
         [Str "KEN"; num 2020; Str "Female"; num 16]].

Definition wide_without_country : DataFrame :=
  Frame ["country_iso3"; "year"; "dep_male"; "dep_female"]
        [[Str "KEN"; num 2020; num 4; num 10]].

(** A long table where the total prevalence is known for 2019 and 2020
    and the depression prevalence for 2020 and 2021. *)
Definition two_indicators : DataFrame :=
  Frame ["country"; "country_iso3"; "year"; "sex";
         "prevalence_total"; "prevalence_depression"]
        [[Str "Kenya"; Str "KEN"; num 2019; Str "Male"; num 10; Null];
         [Str "Kenya"; Str "KEN"; num 2019; Str "Female"; num 16; Null];
         [Str "Kenya"; Str "KEN"; num 2020; Str "Male"; num 10; num 4];
         [Str "Kenya"; Str "KEN"; num 2020; Str "Female"; num 16; num 10];
         [Str "Kenya"; Str "KEN"; num 2021; Str "Male"; Null; num 4];
         [Str "Kenya"; Str "KEN"; num 2021; Str "Female"; Null; num 10]].

(** A long table that also carries the two halves: the long pass gives
    [prevalence_total_gap_fm] and the wide pass [prevalence_gap_fm]. *)
Definition long_and_wide : DataFrame :=
  Frame ["country"; "country_iso3"; "year"; "sex"; "prevalence_total";
         "prevalence_male"; "prevalence_female"]
        [[Str "Kenya"; Str "KEN"; num 2020; Str "Male"; num 10; num 4; num 10];
         [Str "Kenya"; Str "KEN"; num 2020; Str "Female"; num 16; num 4; num 10]].

(* ================================================================== *)
(** ** Sample data of the further properties *)

(** The defect on the dataset reader, on a file that pyarrow reads. *)
Definition wide_stored_frame : DataFrame :=
  Frame ["country"; "country_iso3"; "year"; "prevalence_total"]
        [[Str "Kenya"; Str "KEN"; num 2020; num 5];
         [Str "Peru"; Str "PER"; num 2021; num 7]].

Definition defective_dataset_wide : readers :=
  {| pd_read_parquet := fun _ => Raise (defect_at "dataset");
     import_pyarrow := Ok ();
     pq_read_table_legacy := Ok wide_stored_frame;
     pq_read_table := Ok wide_stored_frame;
     pq_ParquetFile_read := Ok wide_stored_frame;
     import_fastparquet := Ok ();
     pd_read_parquet_fastparquet := fun _ => Ok wide_stored_frame |}.

(** A pyarrow that does not know [use_legacy_dataset] and meets the
    defect on the plain read. *)
Definition no_legacy_keyword : readers :=
  {| pd_read_parquet := fun _ => Raise (defect_at "dataset");
     import_pyarrow := Ok ();
     pq_read_table_legacy :=
       Raise (Exn TypeError "read_table() got an unexpected keyword argument");
     pq_read_table := Raise (defect_at "table");
     pq_ParquetFile_read := Ok stored_frame;
     import_fastparquet := Ok ();
     pd_read_parquet_fastparquet := fun _ => Ok stored_frame |}.

(** No pyarrow at all. *)
Definition no_pyarrow : readers :=
  {| pd_read_parquet := fun _ => Raise (defect_at "dataset");
     import_pyarrow := Raise (Exn ImportError "No module named 'pyarrow'");
     pq_read_table_legacy := Ok stored_frame;
     pq_read_table := Ok stored_frame;
     pq_ParquetFile_read := Ok stored_frame;
     import_fastparquet := Ok ();
     pd_read_parquet_fastparquet := fun _ => Ok stored_frame |}.

(** A converter that knows Kenya only, answers in a list, says
    "not found" for Peru and fails on anything else. *)
Definition sample_converter : option (string -> result pyobj) :=
  Some (fun name =>
          if bool_decide (name = "Kenya") then Ok (PySeq [PyStr "KEN"])
          else if bool_decide (name = "Peru") then Ok (PyStr " Not Found ")
          else Raise (Exn ValueError "unknown name")).

(** Two spellings of one country with different codes, the later item
    winning. *)
Definition colliding_bundle : list (string * string) :=
  [("Ivory Coast", "CIV"); ("Kenya", "KEN"); ("IVORY-COAST", "IVC")].

(** A table without a country code, and one without a year. *)
Definition no_code_column : DataFrame :=
  Frame ["country"; "year"] [[Str "Kenya"; num 2020]].

Definition no_year_column : DataFrame :=
  Frame ["country"; "country_iso3"] [[Str "Kenya"; Str "KEN"]].

(** Records with a missing code, a missing year and a repetition. *)
Definition untidy : DataFrame :=
  Frame ["country"; "country_iso3"; "year"; "prevalence_total"]
        [[Str "Kenya"; Str "KEN"; num 2020; num 5];
         [Str "Atlantis"; Null; num 2020; num 1];
         [Str "Kenya"; Str "KEN"; num 2020; num 5];
         [Str "Peru"; Str "PER"; Null; num 7];
         [Str "Peru"; Str "PER"; num 2021; num 7]].

Definition tidy : DataFrame :=
  Frame ["country"; "country_iso3"; "year"; "prevalence_total"]
        [[Str "Kenya"; Str "KEN"; num 2020; num 5];
         [Str "Peru"; Str "PER"; num 2021; num 7]].

(** Two base records and an external table with one row per country
    code. *)
Definition two_countries : DataFrame :=
  Frame ["country_iso3"; "year"; "prevalence_total"]
        [[Str "KEN"; num 2020; num 5]; [Str "PER"; num 2020; num 7]].

Definition external_by_code : DataFrame :=
  Frame ["country_iso3"; "gdp"]
        [[Str "KEN"; num 100]; [Str "BRA"; num 300]].

(** A table with neither a [sex] column nor a pair of columns. *)
Definition totals_only : DataFrame :=
  Frame ["country"; "country_iso3"; "year"; "prevalence_total"]
        [[Str "Kenya"; Str "KEN"; num 2020; num 5]].

(** A wide table with one pair. *)
Definition one_pair : DataFrame :=
  Frame ["country"; "country_iso3"; "year"; "dep_male"; "dep_female"]
        [[Str "Kenya"; Str "KEN"; num 2020; num 4; num 10];
         [Str "Peru"; Str "PER"; num 2020; num 5; Null]].

(** A survey export with a year given in text and a column the
    vocabulary does not know. *)
Definition raw_export : DataFrame :=
  Frame ["country"; "year"; "prevalence_total"; "source"]
        [[Str "Kenya"; num 2020; num 5; Str "survey"];
         [Str "  "; Str "n/a"; Str "high"; Str "survey"]].

Definition ingest_raw_export : result DataFrame :=
  ingest_csv spec_canonical_columns (fun _ => ∅) (fun _ => None)
             None two_names_bundle (fun x => x) raw_export.

(** Three spellings of a code column, some of them empty. *)
Definition codes_scattered : DataFrame :=
  Frame ["name"; "iso_a"; "iso_b"; "year"]
        [[Str "Kenya"; Null; Str "KEN"; Str "2020"];
         [Str "Peru"; Str "PER"; Str "XXX"; num 2021];
         [Str "Atlantis"; Null; Null; Str "long ago"]].

(** A reader of whole numbers written with the digits 0, 1 and 2 in the
    examples, standing for the parser of pandas. *)
Definition parse_sample (s : string) : option Qc :=
  if bool_decide (s = "2020") then Some (Q2Qc 2020)
  else if bool_decide (s = "2021") then Some (Q2Qc 2021)
  else None.

(** Two years, one of them far beyond the 64-bit integers. *)
Definition years_beyond_int64 : DataFrame :=
  Frame ["year"] [[Num (Q2Qc (inject_Z (10 ^ 30)))]; [Str "2020"]].

(** External tables with the year under a capitalised label, and with
    the country code under an alias. *)
Definition external_capital_year : DataFrame :=
  Frame ["iso_code"; "Year"; "gdp"]
        [[Str "KEN"; Str "2020"; num 100]].

Definition external_lower_year : DataFrame :=
  Frame ["country_iso3"; "year"; "gdp"]
        [[Str "KEN"; Str "2020"; num 100]].

(** [Series.astype(str)] on the cells of the examples: a text stays as
    it is, a whole number is written in decimal, a missing value of a
    float column is written [nan]. *)
Definition astype_str_sample (c : cell) : cell :=
  match c with
  | Str s => Str s
  | Num q =>
      Str (DecimalString.NilZero.string_of_int
             (Z.to_int (Z.quot (Qnum (this q)) (Z.pos (Qden (this q))))))
  | Null => Str "nan"
  end.

(** A converter that reads a text of digits as an ISO numeric code, the
    way [country_converter] does: 4 is Afghanistan. *)
Definition iso_numeric_convert (name : string) : result pyobj :=
  if bool_decide (name = "4") then Ok (PyStr "AFG") else Ok PyNone.

(** A wide table where a second pair of columns has the gap name of the
    canonical pair: the base [prevalence_] loses its underscore. *)
Definition two_prevalence_pairs : DataFrame :=
  Frame ["country"; "country_iso3"; "year";
         "prevalence__male"; "prevalence__female";
         "prevalence_male"; "prevalence_female"]
        [[Str "Kenya"; Str "KEN"; num 2020; num 1; num 2; num 4; num 10]].

(* ================================================================== *)
(** * Properties *)

(** ** The resilient reader *)

Lemma triggers_fallback_true err :
  triggers_fallback err = true ->
  is_OSError (exn_cls err) = true /\ has_defect err = true.
Proof. unfold triggers_fallback. intros H. by apply andb_prop in H. Qed.

Lemma read_primary_ok env cols frame :
  pd_read_parquet env cols = Ok frame ->
  read_parquet_safe env cols = ([Attempt PandasDefault], Ok frame).
Proof. intros H. unfold read_parquet_safe. by rewrite H. Qed.

Lemma read_primary_other env cols err :
  pd_read_parquet env cols = Raise err ->
  triggers_fallback err = false ->
  read_parquet_safe env cols = ([Attempt PandasDefault], Raise err).
Proof.
  intros H Hno. unfold read_parquet_safe, triggers_fallback in *. rewrite H.
  destruct (is_OSError (exn_cls err)); [|done].
  simpl in Hno. by rewrite Hno.
Qed.

(** C6. When the first read fails with an error that is not an [OSError]
    carrying the text "Repetition level histogram size mismatch", the
    reader stops there: the only strategy attempted is the first one and
    that very error is raised.  Conversely a strategy other than the
    first is attempted only after the first read raised an error with the
    signature: the signature is the only trigger of the fallback chain. *)
Theorem read_parquet_safe_fallback_only_on_defect env cols :
  (forall err,
      pd_read_parquet env cols = Raise err ->
      triggers_fallback err = false ->
      read_parquet_safe env cols = ([Attempt PandasDefault], Raise err))
  /\ (forall s,
      Attempt s ∈ (read_parquet_safe env cols).1 ->
      s <> PandasDefault ->
      exists err, pd_read_parquet env cols = Raise err
                  /\ triggers_fallback err = true).
Proof.
  split; [apply read_primary_other|].
  intros s Hin Hs.
  destruct (pd_read_parquet env cols) as [frame|err] eqn:Hp.
  - rewrite (read_primary_ok _ _ _ Hp) in Hin. simpl in Hin.
    apply list_elem_of_singleton in Hin. congruence.
  - exists err. split; [done|].
    destruct (triggers_fallback err) eqn:Ht; [done|].
    rewrite (read_primary_other _ _ _ Hp Ht) in Hin. simpl in Hin.
    apply list_elem_of_singleton in Hin. congruence.
Qed.

Lemma read_parquet_safe_fallback_only_on_defect_witness :
  read_parquet_safe missing_for_pandas None
  = ([Attempt PandasDefault], Raise (Exn FileNotFoundError "No such file or directory"))
  /\ exists err, pd_read_parquet defective_dataset None = Raise err
                 /\ triggers_fallback err = true.
Proof.
  split.
  - apply (proj1 (read_parquet_safe_fallback_only_on_defect missing_for_pandas None));
      reflexivity.
  - apply (proj2 (read_parquet_safe_fallback_only_on_defect defective_dataset None)
             ArrowLegacyDataset).
    + vm_compute. right. right. left.
    + discriminate.
Defined.

(** C2 (as the code has it). When the first read and every fallback fail
    with the defect signature, the error raised at the end is the one of
    the single-file read, the third strategy tried: neither the error of
    the first attempt nor the error of the last one. *)
Theorem read_parquet_safe_exhausted_raises_single_file_error
    env cols err err2 err3 err4 :
  pd_read_parquet env cols = Raise err -> triggers_fallback err = true ->
  import_pyarrow env = Ok () ->
  pq_read_table_legacy env = Raise err2 -> triggers_fallback err2 = true ->
  pq_ParquetFile_read env = Raise err3 -> triggers_fallback err3 = true ->
  import_fastparquet env = Ok () ->
  pd_read_parquet_fastparquet env cols = Raise err4 ->
  triggers_fallback err4 = true ->
  read_parquet_safe env cols
  = ([Attempt PandasDefault;
      Warn "pyarrow dataset reader failed, attempting fallback read via pyarrow.parquet";
      Attempt ArrowLegacyDataset; Attempt ArrowSingleFile; Attempt FastParquet],
     Raise err3).
Proof.
  intros H1 T1 Hpa H2 T2 H3 T3 Hfp H4 T4.
  apply triggers_fallback_true in T1 as [O1 D1].
  apply triggers_fallback_true in T2 as [O2 D2].
  apply triggers_fallback_true in T3 as [O3 D3].
  apply triggers_fallback_true in T4 as [O4 D4].
  unfold read_parquet_safe. rewrite H1, O1, D1. simpl. rewrite Hpa.
  unfold read_pyarrow. rewrite H2.
  assert (is_TypeError (exn_cls err2) = false) as ->
    by (destruct (exn_cls err2); done).
  rewrite O2, D2. simpl.
  unfold read_single_file. rewrite H3, O3, D3. simpl.
  unfold read_fastparquet. rewrite Hfp, H4.
  assert (is_Exception (exn_cls err4) = true) as ->
    by (destruct (exn_cls err4); done).
  reflexivity.
Qed.

Lemma read_parquet_safe_exhausted_witness :
  read_parquet_safe defective_everywhere None
  = ([Attempt PandasDefault;
      Warn "pyarrow dataset reader failed, attempting fallback read via pyarrow.parquet";
      Attempt ArrowLegacyDataset; Attempt ArrowSingleFile; Attempt FastParquet],
     Raise (defect_at "single file")).
Proof.
  apply (read_parquet_safe_exhausted_raises_single_file_error
           defective_everywhere None (defect_at "dataset")
           (defect_at "legacy dataset") (defect_at "single file")
           (defect_at "fastparquet")); reflexivity.
Defined.

(** C2 fails as stated: on a file where every reader meets the defect,
    the first attempt fails with one error and the reader raises
    another, the error of the single-file read. *)
Lemma read_parquet_safe_not_first_error :
  pd_read_parquet defective_everywhere None = Raise (defect_at "dataset")
  /\ (read_parquet_safe defective_everywhere None).2 = Raise (defect_at "single file")
  /\ (read_parquet_safe defective_everywhere None).2 <> Raise (defect_at "dataset").
Proof. split; [reflexivity|]. split; [reflexivity|]. vm_compute. discriminate. Qed.

(** The error of the first attempt is what comes out when the fallback
    cannot even start, because pyarrow cannot be imported (line 123). *)
Lemma read_parquet_safe_without_pyarrow env cols err exc :
  pd_read_parquet env cols = Raise err -> triggers_fallback err = true ->
  import_pyarrow env = Raise exc -> exn_cls exc = ImportError ->
  (read_parquet_safe env cols).2 = Raise err.
Proof.
  intros H1 T1 Himp Hcls.
  apply triggers_fallback_true in T1 as [O1 D1].
  unfold read_parquet_safe. rewrite H1, O1, D1. simpl. rewrite Himp, Hcls.
  reflexivity.
Qed.

(** ** The country-code resolver *)

Lemma chr_isalnum_lower c : chr_isalnum (chr_lower c) = chr_isalnum c.
Proof. destruct c as [[] [] [] [] [] [] [] []]; reflexivity. Qed.

Lemma normalize_key_chars s :
  _normalize_key s
  = string_of_list_ascii
      (List.filter chr_isalnum (map chr_lower (list_ascii_of_string s))).
Proof.
  unfold _normalize_key, str_lower.
  by rewrite list_ascii_of_string_of_list_ascii.
Qed.

Lemma key_variant_same_filter l l' :
  key_variant l l' ->
  List.filter chr_isalnum (map chr_lower l)
  = List.filter chr_isalnum (map chr_lower l').
Proof.
  induction 1 as [|c c' l l' Hc _ IH|c l l' Hc _ IH|c l l' Hc _ IH]; simpl.
  - reflexivity.
  - rewrite Hc, IH. reflexivity.
  - rewrite chr_isalnum_lower, Hc. exact IH.
  - rewrite chr_isalnum_lower, Hc. exact IH.
Qed.

Lemma key_variant_same_key name variant :
  key_variant (list_ascii_of_string name) (list_ascii_of_string variant) ->
  _normalize_key variant = _normalize_key name.
Proof.
  intros H. rewrite !normalize_key_chars.
  by rewrite (key_variant_same_filter _ _ H).
Qed.

(** The map built by the dict comprehension holds [code] under [key] as
    soon as one item normalises to [key] with that code and no item
    normalises to [key] with another code. *)
Lemma fallback_map_lookup (raw : list (string * string)) (key code : string) :
  forall m0 : gmap string string,
    (forall n c, (n, c) ∈ raw -> _normalize_key n = key -> c = code) ->
    (exists n, (n, code) ∈ raw /\ _normalize_key n = key) \/ m0 !! key = Some code ->
    foldl (fun (m : gmap string string) (item : string * string) =>
             <[_normalize_key item.1 := item.2]> m) m0 raw !! key = Some code.
Proof.
  induction raw as [|[n c] raw IH]; intros m0 Huniq Hsrc; simpl.
  - destruct Hsrc as [(n & Hin & _)|H]; [|exact H].
    by apply elem_of_nil in Hin.
  - apply IH.
    + intros n' c' Hin. apply Huniq. by right.
    + destruct (decide (_normalize_key n = key)) as [Hk|Hk].
      * right. rewrite Hk.
        rewrite (Huniq n c (list_elem_of_here _ _) Hk).
        apply lookup_insert_eq.
      * destruct Hsrc as [(n' & Hin & Hn')|H].
        -- apply elem_of_cons in Hin as [Heq|Hin].
           ++ injection Heq as -> ->. contradiction.
           ++ left. by exists n'.
        -- right. by rewrite lookup_insert_ne.
Qed.

(** C4 (as the code has it, on texts of Latin-1 characters, which is
    what a [string] is here). A variant of a bundled name that differs
    from it in letter case, punctuation or spacing only has the same
    normalised key, and the fallback lookup returns for it the code of
    the bundled entry (when no other bundled name with that key carries
    another code).  Diacritics are not stripped: an accented letter of
    Latin-1 is one alphanumeric character and stays in the key. *)
Theorem fallback_lookup_case_punctuation_invariant
    (raw : list (string * string)) (name code variant : string) :
  (name, code) ∈ raw ->
  (forall n c, (n, c) ∈ raw -> _normalize_key n = _normalize_key name -> c = code) ->
  str_truthy (_normalize_key name) = true ->
  key_variant (list_ascii_of_string name) (list_ascii_of_string variant) ->
  _normalize_key variant = _normalize_key name
  /\ _fallback_lookup (Ok raw) (PyStr variant) = Ok (PyStr code)
  /\ _fallback_lookup (Ok raw) (PyStr name) = Ok (PyStr code).
Proof.
  intros Hin Huniq Hkey Hvar.
  pose proof (key_variant_same_key _ _ Hvar) as Hsame.
  assert (_fallback_lookup (Ok raw) (PyStr name) = Ok (PyStr code)) as Hname.
  { unfold _fallback_lookup, _fallback_iso_map. rewrite Hkey. simpl.
    rewrite (fallback_map_lookup raw (_normalize_key name) code); [done|done|].
    left. by exists name. }
  split; [done|]. split; [|done].
  unfold _fallback_lookup in *. by rewrite Hsame.
Qed.

Lemma fallback_lookup_case_punctuation_invariant_witness :
  _normalize_key cote_d_ivoire_capitals = _normalize_key cote_d_ivoire
  /\ _fallback_lookup one_name_bundle (PyStr cote_d_ivoire_capitals) = Ok (PyStr "CIV")
  /\ _fallback_lookup one_name_bundle (PyStr cote_d_ivoire) = Ok (PyStr "CIV").
Proof.
  apply (fallback_lookup_case_punctuation_invariant
           [(cote_d_ivoire, "CIV")] cote_d_ivoire "CIV" cote_d_ivoire_capitals).
  - apply list_elem_of_here.
  - intros n c Hin _. apply list_elem_of_singleton in Hin. congruence.
  - reflexivity.
  - unfold cote_d_ivoire, cote_d_ivoire_capitals. simpl. key_variant_steps.
Defined.

(** C4 fails as stated: the key of "Côte d'Ivoire" keeps its accented
    letter, the key of "cote d ivoire" has a plain o; with the accented
    name in the bundle, the accented spelling resolves to CIV and the
    unaccented one resolves to nothing. *)
Lemma normalize_key_keeps_diacritics :
  _normalize_key cote_d_ivoire <> _normalize_key "cote d ivoire"
  /\ _map None one_name_bundle (Str cote_d_ivoire) = Ok (Str "CIV")
  /\ _map None one_name_bundle (Str "cote d ivoire") = Ok Null.
Proof.
  split; [vm_compute; discriminate|]. split; vm_compute; reflexivity.
Qed.

Lemma lstrip_chars_all p l : forallb p l = true -> lstrip_chars p l = [].
Proof.
  induction l as [|c l IH]; simpl; [done|].
  intros H. apply andb_prop in H as [Hc Hl]. rewrite Hc. by apply IH.
Qed.

Lemma str_strip_blank s : blank s = true -> str_strip s = "".
Proof.
  unfold blank, str_strip. intros H.
  by rewrite (lstrip_chars_all _ _ H).
Qed.

Lemma _map_names_nothing _cc bundle x :
  names_nothing x -> _map _cc bundle x = Ok Null.
Proof.
  unfold _map. destruct x as [|q|s]; simpl; [done..|].
  intros H. by rewrite (str_strip_blank _ H).
Qed.

(** The guard of [_map]: an input that is not a string, an empty string
    and a string of whitespace make [_map] return the missing value
    before it consults the converter or the bundle.  The same holds,
    element by element, for [to_iso3] on the elements that reach [_map]
    in one of these forms. *)
Lemma _map_guard_blank_and_non_string
    _cc bundle (astype_str : cell -> cell) :
  (forall x, names_nothing x -> _map _cc bundle x = Ok Null)
  /\ (forall series,
        Forall (fun x => names_nothing (astype_str x)) series ->
        to_iso3 _cc bundle astype_str series = Ok (map (fun _ => Null) series)).
Proof.
  split; [apply _map_names_nothing|].
  unfold to_iso3. induction 1 as [|x series Hx _ IH]; simpl; [done|].
  by rewrite (_map_names_nothing _ _ _ Hx), IH.
Qed.

(** ** Columns and their positions *)

Lemma col_index_lookup cols c i :
  col_index cols c = Some i -> cols !! i = Some c.
Proof.
  revert i. induction cols as [|c' cols IH]; simpl; intros i H; [done|].
  case_bool_decide as Hc.
  - injection H as <-. by subst.
  - destruct (col_index cols c) as [j|] eqn:Hj; [|done].
    injection H as <-. simpl. by apply IH.
Qed.

Lemma col_index_NoDup cols c i :
  NoDup cols -> cols !! i = Some c -> col_index cols c = Some i.
Proof.
  intros Hnd. revert i. induction Hnd as [|c' cols Hnotin _ IH]; intros i H; [done|].
  simpl. destruct i as [|i]; simpl in H.
  - injection H as ->. by rewrite bool_decide_true.
  - rewrite bool_decide_false.
    + by rewrite (IH _ H).
    + intros ->. apply Hnotin. by eapply list_elem_of_lookup_2.
Qed.

Lemma col_index_is_Some cols c : c ∈ cols -> is_Some (col_index cols c).
Proof.
  induction cols as [|c' cols IH]; simpl; intros H.
  - by apply elem_of_nil in H.
  - case_bool_decide as Hc; [by eexists|].
    apply elem_of_cons in H as [->|H]; [done|].
    destruct (IH H) as [j ->]. by eexists.
Qed.

Lemma col_index_elem_of cols c i : col_index cols c = Some i -> c ∈ cols.
Proof. intros H. eapply list_elem_of_lookup_2, col_index_lookup, H. Qed.

Lemma has_column_true df c : has_column df c = true <-> c ∈ columns df.
Proof. unfold has_column. apply bool_decide_eq_true. Qed.

Lemma positions_Ok cols names idx :
  positions cols names = Ok idx <->
  Forall2 (fun c i => col_index cols c = Some i) names idx.
Proof.
  revert idx. induction names as [|c names IH]; simpl; intros idx.
  - split.
    + intros H. injection H as <-. constructor.
    + intros H. by inversion H.
  - destruct (col_index cols c) as [i|] eqn:Hi.
    + destruct (positions cols names) as [idx'|e] eqn:Hp.
      * split.
        -- intros H. injection H as <-. constructor; [done|]. by apply IH.
        -- intros H. inversion H as [|? j ? idx'' Hj Hrest]; subst.
           apply IH in Hrest. congruence.
      * split; [done|].
        intros H. inversion H as [|? j ? idx'' Hj Hrest]; subst.
        apply IH in Hrest. congruence.
    + split; [done|].
      intros H. inversion H; subst. congruence.
Qed.


Lemma positions_length cols names idx :
  positions cols names = Ok idx -> length idx = length names.
Proof. intros H. apply positions_Ok in H. symmetry. by eapply Forall2_length. Qed.

(** ** [clean]: which rows are dropped as duplicates *)

Lemma duplicated_from_length seen idx rs :
  length (duplicated_from seen idx rs) = length rs.
Proof.
  revert seen. induction rs as [|r rs IH]; intros seen; simpl; [done|].
  by rewrite IH.
Qed.

Lemma duplicated_from_lookup idx rs :
  forall seen j rj,
    rs !! j = Some rj ->
    exists b, duplicated_from seen idx rs !! j = Some b
      /\ (b = true <->
          project idx rj ∈ seen
          \/ exists i ri, (i < j)%nat /\ rs !! i = Some ri
                          /\ project idx ri = project idx rj).
Proof.
  induction rs as [|r rs IH]; intros seen j rj Hj; [done|].
  destruct j as [|j]; simpl in *.
  - injection Hj as ->. eexists. split; [done|].
    rewrite bool_decide_eq_true. split; [by left|].
    intros [H|(i & ri & Hlt & _)]; [done|lia].
  - destruct (IH (project idx r :: seen) j rj Hj) as (b & Hb & Hiff).
    exists b. split; [done|]. rewrite Hiff. split.
    + intros [Hin|(i & ri & Hlt & Hi & Heq)].
      * apply elem_of_cons in Hin as [Heq|Hin]; [|by left].
        right. exists 0%nat, r. split; [lia|]. by split.
      * right. exists (S i), ri. split; [lia|]. by split.
    + intros [Hin|(i & ri & Hlt & Hi & Heq)].
      * left. by right.
      * destruct i as [|i]; simpl in Hi.
        -- injection Hi as ->. left. rewrite <- Heq. left.
        -- right. exists i, ri. split; [lia|]. by split.
Qed.

Lemma project_eq_iff idx r r' :
  project idx r = project idx r' <->
  Forall (fun i => cell_at r i = cell_at r' i) idx.
Proof.
  unfold project. induction idx as [|i idx IH]; simpl.
  - split; [constructor|done].
  - split.
    + intros H. injection H as Hi Hrest. constructor; [done|]. by apply IH.
    + intros H. inversion H as [|? ? Hi Hrest]; subst.
      rewrite Hi. f_equal. by apply IH.
Qed.

(** With distinct labels, agreeing on the positions of the labels other
    than [sex] is agreeing on every such column. *)
Lemma project_non_sex_iff cols subset r r' :
  NoDup cols ->
  positions cols (List.filter (fun c => negb (bool_decide (c = "sex"))) cols)
  = Ok subset ->
  project subset r = project subset r' <-> agree_except_sex cols r r'.
Proof.
  intros Hnd Hpos. apply positions_Ok in Hpos.
  rewrite project_eq_iff. unfold agree_except_sex. split.
  - intros Hall i c Hi Hc.
    assert (c ∈ List.filter (fun c => negb (bool_decide (c = "sex"))) cols) as Hin.
    { apply list_elem_of_In, filter_In. split.
      - apply list_elem_of_In. by eapply list_elem_of_lookup_2.
      - by rewrite bool_decide_false. }
    apply list_elem_of_lookup_1 in Hin as [k Hk].
    destruct (Forall2_lookup_l _ _ _ _ _ Hpos Hk) as (i' & Hi' & Hidx).
    rewrite (col_index_NoDup _ _ _ Hnd Hi) in Hidx. injection Hidx as <-.
    rewrite Forall_lookup in Hall. by eapply Hall.
  - intros Hagree. apply Forall_lookup. intros k i Hk.
    destruct (Forall2_lookup_r _ _ _ _ _ Hpos Hk) as (c & Hc & Hidx).
    apply list_elem_of_lookup_2, list_elem_of_In, filter_In in Hc as [_ Hc].
    apply (Hagree i c); [by apply col_index_lookup|].
    intros ->. by rewrite bool_decide_true in Hc.
Qed.

(** C8 (as the code has it). [clean] compares records on every field but
    [sex]: among the records that have a country code and a year, a
    record is dropped exactly when an earlier record carries the same
    cell in every column other than [sex].  So of two records identical
    in all fields only the first is retained, and so it is of two
    records that differ in [sex] only. *)
Theorem clean_drops_records_equal_up_to_sex df res :
  NoDup (columns df) ->
  clean df = Ok res ->
  exists required flags,
    positions (columns df) ["country_iso3"; "year"] = Ok required
    /\ columns res = columns df
    /\ length flags = length (dropna required (rows df))
    /\ rows res = unflagged (dropna required (rows df)) flags
    /\ forall j rj,
         dropna required (rows df) !! j = Some rj ->
         (flags !! j = Some true <->
          exists i ri, (i < j)%nat
                       /\ dropna required (rows df) !! i = Some ri
                       /\ agree_except_sex (columns df) ri rj).
Proof.
  intros Hnd. unfold clean.
  destruct (List.filter _ ["country_iso3"; "year"]) as [|c l]; [|done].
  destruct (positions (columns df) ["country_iso3"; "year"]) as [required|e] eqn:Hreq;
    [|done].
  simpl.
  destruct (positions (columns df) (List.filter _ (columns df))) as [subset|e] eqn:Hsub;
    [|done].
  simpl. intros H. injection H as <-.
  exists required, (duplicated subset (dropna required (rows df))).
  split; [done|]. split; [done|].
  split; [apply duplicated_from_length|]. split; [done|].
  intros j rj Hj.
  destruct (duplicated_from_lookup subset _ [] j rj Hj) as (b & Hb & Hiff).
  unfold duplicated. rewrite Hb. split.
  - intros Hbt. injection Hbt as ->.
    destruct (proj1 Hiff eq_refl) as [Hin|(i & ri & Hlt & Hi & Heq)].
    + by apply elem_of_nil in Hin.
    + exists i, ri. split; [done|]. split; [done|].
      by apply (project_non_sex_iff _ _ _ _ Hnd Hsub).
  - intros (i & ri & Hlt & Hi & Hagree). f_equal. apply Hiff. right.
    exists i, ri. split; [done|]. split; [done|].
    by apply (project_non_sex_iff _ _ _ _ Hnd Hsub).
Qed.

Lemma clean_drops_records_equal_up_to_sex_witness :
  exists required flags,
    positions (columns two_sexes) ["country_iso3"; "year"] = Ok required
    /\ columns (Frame (columns two_sexes) (take 1 (rows two_sexes))) = columns two_sexes
    /\ length flags = length (dropna required (rows two_sexes))
    /\ rows (Frame (columns two_sexes) (take 1 (rows two_sexes)))
       = unflagged (dropna required (rows two_sexes)) flags
    /\ forall j rj,
         dropna required (rows two_sexes) !! j = Some rj ->
         (flags !! j = Some true <->
          exists i ri, (i < j)%nat
                       /\ dropna required (rows two_sexes) !! i = Some ri
                       /\ agree_except_sex (columns two_sexes) ri rj).
Proof.
  apply (clean_drops_records_equal_up_to_sex two_sexes
           (Frame (columns two_sexes) (take 1 (rows two_sexes)))).
  - apply (bool_decide_unpack _). vm_compute. exact I.
  - vm_compute. reflexivity.
Defined.

(** C8 fails as stated: two records that differ in [sex] only (one male,
    one female) are not both retained, the second one is dropped. *)
Lemma clean_collapses_sex_differentiated_rows :
  clean two_sexes
  = Ok (Frame ["country"; "country_iso3"; "year"; "sex"; "prevalence_total"]
              [[Str "Kenya"; Str "KEN"; num 2020; Str "male"; num 5]]).
Proof. vm_compute. reflexivity. Qed.

(** ** [join_external]: the left merge *)

Lemma col_index_not_elem_of cols c : c ∉ cols -> col_index cols c = None.
Proof.
  intros Hnot. destruct (col_index cols c) as [i|] eqn:Hi; [|done].
  by apply col_index_elem_of in Hi.
Qed.

Lemma label_position_Ok cols key i :
  label_position cols key = Ok i -> col_index cols key = Some i.
Proof.
  unfold label_position. destruct (col_index cols key) as [j|]; [|done].
  destruct (col_index (drop (S j) cols) key); [done|]. by intros [= ->].
Qed.

Lemma label_position_unique cols key i :
  col_index cols key = Some i -> key ∉ drop (S i) cols ->
  label_position cols key = Ok i.
Proof.
  intros Hi Hnot. unfold label_position. rewrite Hi.
  by rewrite (col_index_not_elem_of _ _ Hnot).
Qed.

Lemma NoDup_not_elem_of_drop (cols : list string) key i :
  NoDup cols -> cols !! i = Some key -> key ∉ drop (S i) cols.
Proof.
  intros Hnd Hi Hin. apply list_elem_of_lookup in Hin as [j Hj].
  rewrite lookup_drop in Hj.
  pose proof (NoDup_lookup _ _ _ _ Hnd Hi Hj). lia.
Qed.

Lemma label_position_NoDup cols key :
  NoDup cols -> key ∈ cols -> exists i, label_position cols key = Ok i.
Proof.
  intros Hnd Hin. destruct (col_index_is_Some _ _ Hin) as [i Hi].
  exists i. apply label_position_unique; [done|].
  apply NoDup_not_elem_of_drop; [done|]. by apply col_index_lookup.
Qed.

Lemma label_position_missing cols key :
  key ∉ cols -> label_position cols key = Raise (Exn KeyError key).
Proof.
  intros Hnot. unfold label_position. by rewrite (col_index_not_elem_of _ _ Hnot).
Qed.

Lemma merge_keys_positions left_cols right_cols on li ri :
  merge_keys left_cols right_cols on = Ok (li, ri) ->
  positions left_cols on = Ok li /\ positions right_cols on = Ok ri.
Proof.
  revert li ri. induction on as [|key on IH]; intros li ri; cbn [merge_keys positions].
  - by intros [= <- <-].
  - destruct (label_position right_cols key) as [j|e] eqn:Hj; [|done].
    destruct (label_position left_cols key) as [i|e] eqn:Hi; [|done].
    cbn [mbind result_bind].
    destruct (merge_keys left_cols right_cols on) as [[li' ri']|e]; [|done].
    cbn [mbind result_bind fst snd]. intros [= <- <-].
    destruct (IH li' ri' eq_refl) as [-> ->].
    by rewrite (label_position_Ok _ _ _ Hj), (label_position_Ok _ _ _ Hi).
Qed.

Lemma label_position_key gs key i :
  Forall (fun g => g ∉ keys) gs -> keys !! i = Some key ->
  label_position (keys ++ gs) key = Ok i.
Proof.
  intros Hgs Hkey.
  assert (key ∉ gs) as Hnot.
  { intros Hin. rewrite Forall_forall in Hgs. apply (Hgs _ Hin).
    by eapply list_elem_of_lookup_2. }
  destruct i as [|[|[|i]]]; simpl in Hkey; try done;
    injection Hkey as <-; (apply label_position_unique; [reflexivity|]);
    simpl; rewrite ?not_elem_of_cons; repeat split; done.
Qed.

Lemma merge_keys_gap_tables gs gs' :
  Forall (fun g => g ∉ keys) gs -> Forall (fun g => g ∉ keys) gs' ->
  merge_keys (keys ++ gs) (keys ++ gs') keys = Ok ([0; 1; 2]%nat, [0; 1; 2]%nat).
Proof.
  intros Hgs Hgs'.
  change (merge_keys (keys ++ gs) (keys ++ gs') keys)
    with (merge_keys (keys ++ gs) (keys ++ gs') ["country"; "country_iso3"; "year"]).
  cbn [merge_keys].
  rewrite (label_position_key gs' "country" 0), (label_position_key gs "country" 0),
          (label_position_key gs' "country_iso3" 1),
          (label_position_key gs "country_iso3" 1),
          (label_position_key gs' "year" 2), (label_position_key gs "year" 2)
    by done.
  reflexivity.
Qed.

Lemma merge_Ok left right on how res :
  merge left right on how = Ok res ->
  exists li ri,
    on <> []
    /\ positions (columns left) on = Ok li
    /\ positions (columns right) on = Ok ri
    /\ columns res = merge_labels (columns left) (columns right) on
    /\ rows res
       = flat_map (merge_left_row li ri (non_key_columns (columns right) on).*1
                                  (rows right)) (rows left)
         ++ match how with
            | HowLeft => []
            | HowOuter =>
                flat_map (merge_right_only left right on li ri
                            (non_key_columns (columns right) on).*1) (rows right)
            end.
Proof.
  unfold merge. destruct on as [|k on]; [done|].
  destruct (merge_keys (columns left) (columns right) (k :: on))
    as [[li ri]|e] eqn:Hkeys; [|done].
  cbn [mbind result_bind fst snd]. intros H. injection H as <-.
  destruct (merge_keys_positions _ _ _ _ _ Hkeys) as [Hli Hri].
  exists li, ri. by repeat split.
Qed.

Lemma merge_left_row_left_part li ri rest right_rows (l : list cell) :
  map (take (length l)) (merge_left_row li ri rest right_rows l)
  = replicate (Nat.max 1 (length (matching ri (project li l) right_rows))) l.
Proof.
  unfold merge_left_row.
  destruct (matching ri (project li l) right_rows) as [|m ms]; simpl.
  - by rewrite take_app_length.
  - rewrite take_app_length. f_equal.
    induction ms as [|m' ms IH]; simpl; [done|].
    by rewrite take_app_length, IH.
Qed.

Lemma merge_left_row_added li ri rest right_rows (l r : list cell) :
  r ∈ merge_left_row li ri rest right_rows l ->
  take (length l) r = l
  /\ ((matching ri (project li l) right_rows = []
       /\ drop (length l) r = map (fun _ => Null) rest)
      \/ (exists e, e ∈ right_rows /\ project ri e = project li l
                    /\ drop (length l) r = project rest e)).
Proof.
  unfold merge_left_row.
  destruct (matching ri (project li l) right_rows) as [|m ms] eqn:Hm.
  - intros H. apply list_elem_of_singleton in H as ->.
    rewrite take_app_length, drop_app_length. split; [done|]. by left.
  - intros H. apply list_elem_of_fmap in H as (e & -> & He).
    rewrite take_app_length, drop_app_length. split; [done|]. right.
    exists e. rewrite <- Hm in He.
    apply list_elem_of_In, filter_In in He as [He Hk].
    apply bool_decide_eq_true in Hk.
    split; [by apply list_elem_of_In|]. by split.
Qed.

Lemma map_const_replicate {A B} (c : B) (l : list A) :
  map (fun _ => c) l = replicate (length l) c.
Proof. induction l as [|x l IH]; simpl; [done|]. by rewrite IH. Qed.

Lemma merge_left_rows_left_parts n li ri rest right_rows (bs : list (list cell)) :
  Forall (fun b => length b = n) bs ->
  map (take n) (flat_map (merge_left_row li ri rest right_rows) bs)
  = flat_map (fun b =>
                replicate (Nat.max 1 (length (matching ri (project li b) right_rows))) b)
             bs.
Proof.
  induction 1 as [|b bs Hb _ IH]; simpl; [done|].
  rewrite map_app, IH. f_equal.
  rewrite <- Hb. apply merge_left_row_left_part.
Qed.

(** C3 (as the code has it). [join_external] is a left merge: the result
    lists the base records in their order, each one once per external
    row with the same key and once when there is none (so a base record
    with several matches is repeated); what is added to a base record is
    either the non-key cells of an external row with its key, or missing
    cells when no external row has its key, so an external row that
    matches no base record leaves no trace. *)
Theorem join_external_left_merge base external on res :
  frame_wf base ->
  join_external base external on = Ok res ->
  left_merge_of base external on res.
Proof.
  intros Hwf Hjoin. unfold join_external in Hjoin.
  apply merge_Ok in Hjoin as (li & ri & _ & Hli & Hri & Hcols & Hrows).
  rewrite app_nil_r in Hrows.
  exists li, ri. split; [done|]. split; [done|]. split; [done|].
  rewrite Hrows. split.
  - by apply merge_left_rows_left_parts.
  - intros r Hr. simpl.
    apply list_elem_of_In, in_flat_map in Hr as (b & Hb & Hr).
    apply list_elem_of_In in Hb, Hr.
    unfold frame_wf in Hwf. rewrite Forall_forall in Hwf.
    rewrite <- (Hwf b Hb).
    apply merge_left_row_added in Hr as [-> Hadded].
    split; [done|].
    destruct Hadded as [[Hnone ->]|(e & He & Hk & ->)].
    + left. split; [done|].
      by rewrite map_const_replicate, length_fmap.
    + right. by exists e.
Qed.

Lemma join_external_left_merge_witness :
  left_merge_of one_country external_two_rows ["country_iso3"]
    (Frame ["country_iso3"; "year"; "prevalence_total"; "gdp"]
           [[Str "KEN"; num 2020; num 5; num 100];
            [Str "KEN"; num 2020; num 5; num 110]]).
Proof.
  apply join_external_left_merge.
  - repeat constructor.
  - vm_compute. reflexivity.
Defined.

(** C3 fails as stated: a base record whose key is carried by two
    external rows is not retained exactly once, it comes out twice. *)
Lemma join_external_repeats_base_record :
  join_external one_country external_two_rows ["country_iso3"]
  = Ok (Frame ["country_iso3"; "year"; "prevalence_total"; "gdp"]
              [[Str "KEN"; num 2020; num 5; num 100];
               [Str "KEN"; num 2020; num 5; num 110]]).
Proof. vm_compute. reflexivity. Qed.

(** ** [ingest_csv]: the derived total *)

Lemma cell_at_lookup (r : list cell) i : cell_at r i = default Null (r !! i).
Proof. unfold cell_at. apply nth_lookup. Qed.

Lemma result_mapM_length {A B} (f : A -> result B) xs ys :
  result_mapM f xs = Ok ys -> length ys = length xs.
Proof.
  revert ys. induction xs as [|x xs IH]; simpl; intros ys H.
  - by injection H as <-.
  - destruct (f x) as [y|e]; [|done].
    destruct (result_mapM f xs) as [ys'|e]; [|done].
    injection H as <-. simpl. by rewrite (IH ys').
Qed.

Lemma column_values_length df c vs :
  column_values df c = Ok vs -> length vs = length (rows df).
Proof.
  unfold column_values. destruct (col_index (columns df) c); [|done].
  intros H. injection H as <-. apply length_map.
Qed.

Lemma col_index_lt cols c i : col_index cols c = Some i -> (i < length cols)%nat.
Proof. intros H. eapply lookup_lt_Some, col_index_lookup, H. Qed.

Lemma col_index_app_l cols c i extra :
  col_index cols c = Some i -> col_index (cols ++ extra) c = Some i.
Proof.
  revert i. induction cols as [|c' cols IH]; simpl; intros i H; [done|].
  case_bool_decide; [done|].
  destruct (col_index cols c) as [j|]; [|done].
  by rewrite (IH j).
Qed.

Lemma col_index_app_new cols c :
  col_index cols c = None -> col_index (cols ++ [c]) c = Some (length cols).
Proof.
  induction cols as [|c' cols IH]; simpl; intros H.
  - by rewrite bool_decide_true.
  - case_bool_decide; [done|].
    destruct (col_index cols c) as [j|]; [done|].
    by rewrite IH.
Qed.

Lemma set_column_wf df c vs : frame_wf df -> frame_wf (set_column df c vs).
Proof.
  unfold frame_wf, set_column, set_cell. simpl. intros Hwf.
  revert vs. induction Hwf as [|r rs Hr _ IH]; intros [|v vs]; simpl;
    try constructor; try apply IH.
  destruct (col_index (columns df) c).
  - by rewrite length_insert.
  - rewrite !length_app. simpl. lia.
Qed.

Lemma column_values_set_same df c vs :
  frame_wf df -> length vs = length (rows df) ->
  column_values (set_column df c vs) c = Ok vs.
Proof.
  unfold frame_wf, column_values, set_column, set_cell. simpl.
  intros Hwf Hlen.
  destruct (col_index (columns df) c) as [i|] eqn:Hi.
  - rewrite Hi. f_equal. pose proof (col_index_lt _ _ _ Hi) as Hlt.
    revert vs Hlen. induction Hwf as [|r rs Hr _ IH]; intros [|v vs] Hlen;
      simpl in *; try done.
    rewrite IH by lia. f_equal.
    rewrite cell_at_lookup, list_lookup_insert_eq; [done|lia].
  - rewrite (col_index_app_new _ _ Hi). f_equal.
    revert vs Hlen. induction Hwf as [|r rs Hr _ IH]; intros [|v vs] Hlen;
      simpl in *; try done.
    rewrite IH by lia. f_equal.
    rewrite cell_at_lookup, <- Hr, lookup_app_r by lia.
    by rewrite Nat.sub_diag.
Qed.

Lemma column_values_set_other df c c' vs vs' :
  frame_wf df -> length vs = length (rows df) -> c <> c' ->
  column_values df c' = Ok vs' ->
  column_values (set_column df c vs) c' = Ok vs'.
Proof.
  unfold frame_wf, column_values, set_column, set_cell. simpl.
  intros Hwf Hlen Hne.
  destruct (col_index (columns df) c') as [j|] eqn:Hj; [|done].
  intros H. injection H as <-.
  pose proof (col_index_lt _ _ _ Hj) as Hlt.
  destruct (col_index (columns df) c) as [i|] eqn:Hi.
  - rewrite Hj. f_equal.
    assert (i <> j) as Hij.
    { intros ->. apply col_index_lookup in Hi, Hj. congruence. }
    revert vs Hlen. induction Hwf as [|r rs Hr _ IH]; intros [|v vs] Hlen;
      simpl in *; try done.
    rewrite IH by lia. f_equal.
    by rewrite !cell_at_lookup, list_lookup_insert_ne.
  - rewrite (col_index_app_l _ _ _ _ Hj). f_equal.
    revert vs Hlen. induction Hwf as [|r rs Hr _ IH]; intros [|v vs] Hlen;
      simpl in *; try done.
    rewrite IH by lia. f_equal.
    rewrite !cell_at_lookup, lookup_app_l; [done|lia].
Qed.

Lemma df_select_wf df names df' : df_select df names = Ok df' -> frame_wf df'.
Proof.
  unfold df_select. destruct (positions (columns df) names) as [idx|e] eqn:Hp; [|done].
  simpl. intros H. injection H as <-. unfold frame_wf. simpl.
  apply Forall_forall. intros r Hr. apply list_elem_of_fmap in Hr as (r0 & -> & _).
  unfold project. rewrite length_map. by eapply positions_length.
Qed.

Lemma df_select_rows_length df names df' :
  df_select df names = Ok df' -> length (rows df') = length (rows df).
Proof.
  unfold df_select. destruct (positions (columns df) names) as [idx|e]; [|done].
  simpl. intros H. injection H as <-. simpl. apply length_map.
Qed.

Lemma column_values_select df names df' c vs :
  df_select df names = Ok df' -> c ∈ names ->
  column_values df c = Ok vs -> column_values df' c = Ok vs.
Proof.
  unfold df_select, column_values.
  destruct (positions (columns df) names) as [idx|e] eqn:Hp; [|done].
  simpl. intros H Hc. injection H as <-. simpl.
  destruct (col_index_is_Some _ _ Hc) as [j Hj]. rewrite Hj.
  apply positions_Ok in Hp.
  destruct (Forall2_lookup_l _ _ _ _ _ Hp (col_index_lookup _ _ _ Hj))
    as (i & Hi & Hci).
  rewrite Hci. intros H. injection H as <-. f_equal.
  rewrite map_map. apply map_ext. intros r.
  unfold project. rewrite cell_at_lookup, list_lookup_fmap, Hi. done.
Qed.

Lemma Qc_div_1 (q : Qc) : (q / Q2Qc (inject_Z (Z.of_nat 1)))%Qc = q.
Proof.
  unfold Qcdiv.
  replace (/ Q2Qc (inject_Z (Z.of_nat 1)))%Qc with 1%Qc
    by (apply Qc_is_canon; reflexivity).
  apply Qcmult_1_r.
Qed.

Lemma nanmean_pair (a b : cell) :
  is_str a = false -> is_str b = false ->
  nanmean [a; b] = mean_of_present a b.
Proof.
  destruct a as [|m|?], b as [|f|?]; intros Ha Hb; try done;
    unfold nanmean, mean_of_present, numbers_of, Qc_sum; simpl.
  - by rewrite Qcplus_0_r, Qc_div_1.
  - by rewrite Qcplus_0_r, Qc_div_1.
  - by rewrite Qcplus_0_r.
Qed.

Lemma nanmean_not_str cs : is_str (nanmean cs) = false.
Proof. unfold nanmean. by destruct (numbers_of cs). Qed.

Lemma to_numeric_not_str parse c : is_str c = false -> to_numeric parse c = c.
Proof. by destruct c. Qed.

Lemma total_is_set_other df c vs' vs :
  c <> "prevalence_total" -> length vs' = length (rows df) ->
  total_is df vs -> total_is (set_column df c vs') vs.
Proof.
  intros Hc Hlen [Hwf Hcol]. split; [by apply set_column_wf|].
  by apply column_values_set_other.
Qed.

Lemma existsb_false_In {A} (f : A -> bool) l :
  existsb f l = false -> forall x, In x l -> f x = false.
Proof.
  induction l as [|y l IH]; simpl; intros H x Hx; [done|].
  apply orb_false_elim in H as [Hy Hl].
  destruct Hx as [->|Hx]; [done|by apply IH].
Qed.

Lemma to_numeric_map_not_str parse vs :
  Forall (fun v => is_str v = false) vs -> map (to_numeric parse) vs = vs.
Proof.
  induction 1 as [|v vs Hv _ IH]; simpl; [done|].
  by rewrite (to_numeric_not_str _ _ Hv), IH.
Qed.

Lemma coerce_year_total parse df df' vs :
  coerce_year parse df = Ok df' -> total_is df vs -> total_is df' vs.
Proof.
  unfold coerce_year. destruct (has_column df "year"); [|by intros [= <-]].
  destruct (column_values df "year") as [ys|e] eqn:Hys; [|done]. simpl.
  destruct (result_mapM _ ys) as [ys'|e] eqn:Hm; [|done]. simpl.
  intros [= <-]. apply total_is_set_other; [done|].
  rewrite (result_mapM_length _ _ _ Hm). by eapply column_values_length.
Qed.

Lemma coerce_prevalence_total parse df col df' vs :
  Forall (fun v => is_str v = false) vs ->
  coerce_prevalence parse df col = Ok df' -> total_is df vs -> total_is df' vs.
Proof.
  intros Hvs. unfold coerce_prevalence.
  destruct (has_column df col); [|by intros [= <-]].
  destruct (column_values df col) as [ws|e] eqn:Hws; [|done]. simpl.
  intros [= <-] [Hwf Hcol].
  pose proof (column_values_length _ _ _ Hws) as Hlen.
  destruct (decide (col = "prevalence_total")) as [->|Hne].
  - split; [by apply set_column_wf|].
    rewrite column_values_set_same; [|done|by rewrite length_map].
    rewrite Hcol in Hws. injection Hws as <-.
    by rewrite to_numeric_map_not_str.
  - apply total_is_set_other; [done|by rewrite length_map|done].
Qed.

Lemma coerce_prevalences_total parse cols vs :
  Forall (fun v => is_str v = false) vs ->
  forall df df',
    result_foldM (coerce_prevalence parse) df cols = Ok df' ->
    total_is df vs -> total_is df' vs.
Proof.
  intros Hvs. induction cols as [|col cols IH]; simpl; intros df df'.
  - by intros [= <-].
  - destruct (coerce_prevalence parse df col) as [df1|e] eqn:H1; [|done].
    intros Hrest Htot. eapply IH; [done|].
    by eapply coerce_prevalence_total.
Qed.

Lemma add_iso3_total _cc bundle astype_str df df' vs :
  add_iso3 _cc bundle astype_str df = Ok df' -> total_is df vs -> total_is df' vs.
Proof.
  unfold add_iso3. destruct (has_column df "country"); [|by intros [= <-]].
  destruct (column_values df "country") as [names|e] eqn:Hn; [|done]. simpl.
  destruct (to_iso3 _ _ _ names) as [codes|e] eqn:Hc; [|done]. simpl.
  intros [= <-]. apply total_is_set_other; [done|].
  unfold to_iso3 in Hc. rewrite (result_mapM_length _ _ _ Hc).
  by eapply column_values_length.
Qed.

Lemma rename_columns_wf mapping df : frame_wf df -> frame_wf (rename_columns mapping df).
Proof. unfold frame_wf, rename_columns. simpl. by rewrite length_map. Qed.

(** C1 (as the code has it). When, after the renaming, the table has no
    [prevalence_total] but has [prevalence_male] and [prevalence_female],
    the [prevalence_total] that [ingest_csv] returns is, row by row, the
    mean of the halves that are present: the mean of both when both are
    there, the one that is there when the other is missing, and missing
    only when both are. *)
Theorem ingest_csv_derived_total
    CANONICAL_COLUMNS canonicalize parse_number _cc bundle astype_str
    (csv res : DataFrame) (mi fi : nat) :
  frame_wf csv ->
  let df := rename_columns (canonicalize (columns csv)) csv in
  has_column df "prevalence_total" = false ->
  col_index (columns df) "prevalence_male" = Some mi ->
  col_index (columns df) "prevalence_female" = Some fi ->
  "prevalence_total" ∈ CANONICAL_COLUMNS ->
  ingest_csv CANONICAL_COLUMNS canonicalize parse_number _cc bundle astype_str csv
  = Ok res ->
  column_values res "prevalence_total"
  = Ok (map (fun r => mean_of_present (cell_at r mi) (cell_at r fi)) (rows csv)).
Proof.
  intros Hwf df Hno Hmi Hfi Hcanon. unfold ingest_csv. fold df.
  assert (frame_wf df) as Hwfdf by by apply rename_columns_wf.
  assert (rows csv = rows df) as -> by done.
  clearbody df. clear Hwf csv.
  unfold derive_total. rewrite Hno.
  rewrite (proj2 (has_column_true df _) (col_index_elem_of _ _ _ Hmi)).
  rewrite (proj2 (has_column_true df _) (col_index_elem_of _ _ _ Hfi)).
  cbn [negb andb]. unfold mean_axis1. cbn [positions]. rewrite Hmi, Hfi.
  cbn [mbind result_bind].
  destruct (existsb _ (rows df)) eqn:Hstr; [done|].
  set (total := map (fun r => nanmean (project [mi; fi] r)) (rows df)).
  set (df1 := set_column df "prevalence_total" total).
  assert (length total = length (rows df)) as Hlen by apply length_map.
  assert (total_is df1 total) as Htot1.
  { split; [by apply set_column_wf|]. by apply column_values_set_same. }
  assert (Forall (fun v => is_str v = false) total) as Hnum.
  { apply Forall_forall. intros v Hv.
    apply list_elem_of_fmap in Hv as (r & -> & _). apply nanmean_not_str. }
  assert (total = map (fun r => mean_of_present (cell_at r mi) (cell_at r fi)) (rows df))
    as Htotal.
  { apply map_ext_in. intros r Hr.
    pose proof (existsb_false_In _ _ Hstr r Hr) as Hr'. simpl in Hr'.
    clear Hstr. rename Hr' into Hstr.
    apply orb_false_elim in Hstr as [Ha Hb].
    apply orb_false_elim in Hb as [Hb _].
    by apply nanmean_pair. }
  cbn [mbind result_bind]. fold df1.
  destruct (df_select df1 (List.filter (has_column df1) CANONICAL_COLUMNS))
    as [df2|e] eqn:Hsel; [|done]. cbn [mbind result_bind].
  assert (total_is df2 total) as Htot2.
  { split; [by eapply df_select_wf|].
    eapply column_values_select; [done| |apply Htot1].
    apply list_elem_of_In, filter_In. split; [by apply list_elem_of_In|].
    apply has_column_true.
    destruct Htot1 as [_ Hcol]. unfold column_values in Hcol.
    destruct (col_index (columns df1) "prevalence_total") eqn:Hi; [|done].
    by eapply col_index_elem_of. }
  destruct (coerce_year parse_number df2) as [df3|e] eqn:Hyear; [|done].
  cbn [mbind result_bind].
  destruct (result_foldM (coerce_prevalence parse_number) df3 prevalence_columns)
    as [df4|e] eqn:Hprev; [|done].
  cbn [mbind result_bind]. intros Hiso. rewrite <- Htotal.
  eapply add_iso3_total in Hiso as [_ Hres]; [done|].
  eapply coerce_prevalences_total; [done|done|].
  by eapply coerce_year_total.
Qed.

Lemma ingest_csv_derived_total_witness :
  exists res,
    ingest_halves_only = Ok res
    /\ column_values res "prevalence_total"
       = Ok (map (fun r => mean_of_present (cell_at r 2) (cell_at r 3))
                 (rows halves_only)).
Proof.
  eexists. split; [vm_compute; reflexivity|].
  apply (ingest_csv_derived_total spec_canonical_columns (fun _ => ∅)
           (fun _ => None) None two_names_bundle (fun x => x) halves_only _ 2 3).
  - repeat constructor.
  - reflexivity.
  - reflexivity.
  - reflexivity.
  - apply (bool_decide_unpack _). vm_compute. exact I.
  - vm_compute. reflexivity.
Defined.

(** C1 fails as stated: for the record with a male value of 10 and no
    female value the derived total is 10, not a missing value (the
    record with 10 and 20 gets 15). *)
Lemma ingest_csv_total_from_one_half :
  exists res,
    ingest_halves_only = Ok res
    /\ column_values res "prevalence_male" = Ok [num 10; num 10]
    /\ column_values res "prevalence_female" = Ok [num 20; Null]
    /\ column_values res "prevalence_total" = Ok [num 15; num 10].
Proof.
  eexists. split; [vm_compute; reflexivity|].
  repeat split; apply (bool_decide_unpack _); vm_compute; exact I.
Qed.

(** ** [gender_gap]: missing key columns *)


Lemma long_step_absent df st name :
  has_column df name = false -> long_step df st name = Ok st.
Proof. unfold long_step. intros ->. by rewrite andb_false_r. Qed.


Lemma long_pass_without_signal df :
  long_signal df = false -> long_pass df = Ok (GapState [] ∅).
Proof.
  unfold long_signal, long_pass. destruct (has_column df "sex"); [|done].
  simpl. intros H.
  apply orb_false_elim in H as [H1 H].
  apply orb_false_elim in H as [H2 H].
  apply orb_false_elim in H as [H3 _].
  by rewrite !long_step_absent.
Qed.





Example gender_gap_long_without_country :
  gender_gap long_without_country = Raise (Exn KeyError "country").
Proof. reflexivity. Qed.

Example gender_gap_wide_without_country :
  gender_gap wide_without_country = Raise (Exn KeyError "country").
Proof. reflexivity. Qed.

(** ** [gender_gap]: the outer merge of the gap tables *)

Lemma filter_nil_iff {A} (f : A -> bool) (l : list A) :
  List.filter f l = [] <-> forall x, x ∈ l -> f x = false.
Proof.
  induction l as [|y l IH]; simpl.
  - split; [|done]. intros _ x Hx. by apply elem_of_nil in Hx.
  - destruct (f y) eqn:Hy.
    + split; [done|]. intros H. specialize (H y (list_elem_of_here _ _)). congruence.
    + rewrite IH. split.
      * intros H x Hx. apply elem_of_cons in Hx as [->|Hx]; [done|by apply H].
      * intros H x Hx. apply H. by right.
Qed.

Lemma matching_elem_of ri k right_rows e :
  e ∈ matching ri k right_rows <-> e ∈ right_rows /\ project ri e = k.
Proof.
  unfold matching. rewrite list_elem_of_In, filter_In, <- list_elem_of_In.
  by rewrite bool_decide_eq_true.
Qed.

Lemma matching_nil ri k right_rows :
  matching ri k right_rows = [] <-> forall e, e ∈ right_rows -> project ri e <> k.
Proof.
  unfold matching. rewrite filter_nil_iff.
  split; intros H e He; specialize (H e He).
  - by apply bool_decide_eq_false in H.
  - by apply bool_decide_eq_false.
Qed.

Lemma merge_left_row_elem_of li ri rest right_rows l r' :
  r' ∈ merge_left_row li ri rest right_rows l <->
  (matching ri (project li l) right_rows = []
   /\ r' = l ++ map (fun _ => Null) rest)
  \/ (exists e, e ∈ right_rows /\ project ri e = project li l
                /\ r' = l ++ project rest e).
Proof.
  unfold merge_left_row.
  destruct (matching ri (project li l) right_rows) as [|m ms] eqn:Hm.
  - rewrite list_elem_of_singleton. split; [by left|].
    intros [[_ H]|(e & He & Hk & _)]; [done|].
    assert (e ∈ matching ri (project li l) right_rows) as Hin
      by by apply matching_elem_of.
    rewrite Hm in Hin. by apply elem_of_nil in Hin.
  - rewrite <- Hm. rewrite list_elem_of_fmap. split.
    + intros (e & -> & He). apply matching_elem_of in He as [He Hk].
      right. by exists e.
    + intros [[H _]|(e & He & Hk & ->)]; [congruence|].
      exists e. split; [done|]. by apply matching_elem_of.
Qed.

Lemma merge_right_only_elem_of left right on li ri rest r r' :
  r' ∈ merge_right_only left right on li ri rest r <->
  matching li (project ri r) (rows left) = []
  /\ r' = keys_on_left (columns left) (columns right) on r ++ project rest r.
Proof.
  unfold merge_right_only.
  destruct (matching li (project ri r) (rows left)) as [|m ms].
  - rewrite list_elem_of_singleton. split; [done|by intros [_ ?]].
  - split; [intros H; by apply elem_of_nil in H|]. by intros [? _].
Qed.

Lemma elem_of_flat_map {A B} (f : A -> list B) (l : list A) (y : B) :
  y ∈ flat_map f l <-> exists x, x ∈ l /\ y ∈ f x.
Proof.
  rewrite list_elem_of_In, in_flat_map. split.
  - intros (x & Hx & Hy). exists x. by rewrite !list_elem_of_In.
  - intros (x & Hx & Hy). exists x. by rewrite <- !list_elem_of_In.
Qed.

Lemma project_keys (r : list cell) :
  (length keys <= length r)%nat -> project [0; 1; 2]%nat r = key_of r.
Proof.
  destruct r as [|a [|b [|c r]]]; simpl; intros H; try lia. done.
Qed.

Lemma positions_keys_prefix gs : positions (keys ++ gs) keys = Ok [0; 1; 2]%nat.
Proof. reflexivity. Qed.

Lemma non_key_columns_gap_table g :
  g ∉ keys -> non_key_columns (keys ++ [g]) keys = [(3%nat, g)].
Proof.
  intros Hg. unfold non_key_columns. simpl.
  by rewrite (bool_decide_false _ Hg).
Qed.

Lemma map_const_on {A B} (f : A -> B) (v : B) (l : list A) :
  (forall x, x ∈ l -> f x = v) -> map f l = replicate (length l) v.
Proof.
  induction l as [|x l IH]; simpl; intros H; [done|].
  rewrite (H x) by left. f_equal. apply IH. intros y Hy. apply H. by right.
Qed.

Lemma map_id_on {A} (f : A -> A) (l : list A) :
  (forall x, x ∈ l -> f x = x) -> map f l = l.
Proof.
  induction l as [|x l IH]; simpl; intros H; [done|].
  rewrite (H x) by left. f_equal. apply IH. intros y Hy. apply H. by right.
Qed.

Lemma keys_on_left_gap_table gs g (r : list cell) :
  Forall (fun c => c ∉ keys) gs ->
  (length keys <= length r)%nat ->
  keys_on_left (keys ++ gs) (keys ++ [g]) keys r
  = key_of r ++ replicate (length gs) Null.
Proof.
  intros Hgs Hr. unfold keys_on_left. rewrite map_app.
  f_equal.
  - rewrite <- (project_keys r Hr). reflexivity.
  - apply map_const_on. intros c Hc. rewrite Forall_forall in Hgs.
    by rewrite (bool_decide_false _ (Hgs c Hc)).
Qed.

Lemma merge_labels_gap_table gs g :
  Forall (fun c => c ∉ keys) gs -> g ∉ keys -> g ∉ gs ->
  merge_labels (keys ++ gs) (keys ++ [g]) keys = keys ++ gs ++ [g].
Proof.
  intros Hgs Hg Hfresh. unfold merge_labels.
  rewrite (non_key_columns_gap_table g Hg), map_app.
  assert (forall c, c ∈ gs ->
            (if overlapping (keys ++ gs) (keys ++ [g]) keys c then c +:+ "_x" else c)
            = c) as Hgs_id.
  { intros c Hc. unfold overlapping. rewrite Forall_forall in Hgs.
    rewrite (bool_decide_false (c ∈ keys ++ [g])); [by rewrite andb_false_r|].
    rewrite elem_of_app, list_elem_of_singleton.
    intros [H| ->]; [by apply (Hgs c)|done]. }
  rewrite (map_id_on _ gs Hgs_id).
  assert (overlapping (keys ++ gs) (keys ++ [g]) keys g = false) as Hg_new.
  { unfold overlapping.
    rewrite (bool_decide_false (g ∈ keys ++ gs)); [by rewrite andb_false_r|].
    rewrite elem_of_app. by intros [H|H]. }
  cbn -[overlapping keys app]. rewrite Hg_new, <- app_assoc.
  f_equal.
Qed.

Lemma merge_with_keys left right on how li ri :
  on <> [] ->
  merge_keys (columns left) (columns right) on = Ok (li, ri) ->
  merge left right on how
  = Ok (Frame (merge_labels (columns left) (columns right) on)
          (flat_map (merge_left_row li ri (non_key_columns (columns right) on).*1
                                    (rows right)) (rows left)
           ++ match how with
              | HowLeft => []
              | HowOuter =>
                  flat_map (merge_right_only left right on li ri
                              (non_key_columns (columns right) on).*1) (rows right)
              end)).
Proof.
  intros Hon Hkeys. unfold merge. destruct on as [|k on]; [done|].
  by rewrite Hkeys.
Qed.

Lemma not_elem_of_map_key_of (k : list cell) (rs : list (list cell)) :
  k ∉ map key_of rs <-> forall r, r ∈ rs -> key_of r <> k.
Proof.
  split.
  - intros H r Hr Heq. apply H. apply list_elem_of_fmap. by exists r.
  - intros H Hin. apply list_elem_of_fmap in Hin as (r & -> & Hr). by apply (H r).
Qed.

(** The rows of the outer merge of a table [T] on the columns
    [keys ++ gs] with a gap table [p]. *)
Lemma merge_gap_table T p gs g :
  columns T = keys ++ gs -> frame_wf T -> is_gap_table p g ->
  Forall (fun c => c ∉ keys) gs -> g ∉ keys -> g ∉ gs ->
  exists res,
    merge T p keys HowOuter = Ok res
    /\ columns res = keys ++ gs ++ [g]
    /\ forall r',
         r' ∈ rows res <->
         (exists l, l ∈ rows T /\ (key_of l ∉ map key_of (rows p))
                    /\ r' = l ++ [Null])
         \/ (exists l r, l ∈ rows T /\ r ∈ rows p /\ key_of r = key_of l
                         /\ r' = l ++ [cell_at r 3])
         \/ (exists r, r ∈ rows p /\ (key_of r ∉ map key_of (rows T))
                       /\ r' = key_of r ++ replicate (length gs) Null
                                 ++ [cell_at r 3]).
Proof.
  intros HT HwfT [Hp Hwfp] Hgs Hg Hfresh.
  assert (forall l, l ∈ rows T -> (length keys <= length l)%nat) as HlenT.
  { intros l Hl. unfold frame_wf in HwfT. rewrite Forall_forall in HwfT.
    rewrite (HwfT l Hl), HT, length_app. lia. }
  assert (forall r, r ∈ rows p -> (length keys <= length r)%nat) as Hlenp.
  { intros r Hr. unfold frame_wf in Hwfp. rewrite Forall_forall in Hwfp.
    rewrite (Hwfp r Hr), Hp, length_app. lia. }
  eexists. split.
  { apply merge_with_keys; [done|].
    rewrite HT, Hp. apply merge_keys_gap_tables; [done|].
    by constructor. }
  cbn [columns rows]. rewrite HT, Hp.
  split; [by apply merge_labels_gap_table|].
  rewrite (non_key_columns_gap_table g Hg). cbn [fmap list_fmap fst].
  intros r'. rewrite elem_of_app, !elem_of_flat_map. split.
  - intros [(l & Hl & Hr')|(r & Hr & Hr')].
    + apply merge_left_row_elem_of in Hr' as [[Hnone ->]|(e & He & Hk & ->)].
      * left. exists l. split; [done|]. split; [|done].
        apply not_elem_of_map_key_of. intros r Hr.
        rewrite matching_nil in Hnone. specialize (Hnone r Hr).
        by rewrite !project_keys in Hnone by auto.
      * right. left. exists l, e. split; [done|]. split; [done|].
        by rewrite !project_keys in Hk by auto.
    + apply merge_right_only_elem_of in Hr' as [Hnone ->].
      right. right. exists r. split; [done|]. split.
      * apply not_elem_of_map_key_of. intros l Hl.
        rewrite matching_nil in Hnone. specialize (Hnone l Hl).
        by rewrite !project_keys in Hnone by auto.
      * rewrite HT, Hp, keys_on_left_gap_table by auto.
        by rewrite <- app_assoc.
  - intros [(l & Hl & Hnone & ->)|[(l & r & Hl & Hr & Hk & ->)|(r & Hr & Hnone & ->)]].
    + left. exists l. split; [done|]. apply merge_left_row_elem_of. left.
      split; [|done]. apply matching_nil. intros e He.
      rewrite !project_keys by auto.
      rewrite not_elem_of_map_key_of in Hnone. by apply Hnone.
    + left. exists l. split; [done|]. apply merge_left_row_elem_of. right.
      exists r. split; [done|]. by rewrite !project_keys by auto.
    + right. exists r. split; [done|]. apply merge_right_only_elem_of. split.
      * apply matching_nil. intros l Hl. rewrite !project_keys by auto.
        rewrite not_elem_of_map_key_of in Hnone. by apply Hnone.
      * rewrite HT, Hp, keys_on_left_gap_table by auto.
        by rewrite <- app_assoc.
Qed.

Lemma string_length_app (s t : string) :
  String.length (s +:+ t) = (String.length s + String.length t)%nat.
Proof. induction s as [|c s IH]; simpl; [done|]. by rewrite IH. Qed.

Lemma substring_all (s : string) : String.substring 0 (String.length s) s = s.
Proof. induction s as [|c s IH]; simpl; [done|]. by rewrite IH. Qed.

Lemma substring_skip_prefix (s t : string) (k : nat) :
  String.substring (String.length s) k (s +:+ t) = String.substring 0 k t.
Proof. induction s as [|c s IH]; simpl; [done|]. exact IH. Qed.

Lemma str_endswith_app (s suffix : string) : str_endswith suffix (s +:+ suffix) = true.
Proof.
  unfold str_endswith. rewrite string_length_app.
  apply andb_true_intro. split.
  - apply Nat.leb_le. lia.
  - apply bool_decide_eq_true.
    replace (String.length s + String.length suffix - String.length suffix)%nat
      with (String.length s) by lia.
    by rewrite substring_skip_prefix, substring_all.
Qed.

Lemma gap_name_not_key g : str_endswith "_gap_fm" g = true -> g ∉ keys.
Proof.
  intros Hg Hin. unfold keys in Hin.
  repeat (apply elem_of_cons in Hin as [->|Hin]; [done|]).
  by apply elem_of_nil in Hin.
Qed.

Lemma outer_merge_of_single p g : is_gap_table p g -> outer_merge_of [p] [g] p.
Proof.
  intros [Hp Hwf]. split; [done|]. split; [done|]. split; [|split].
  - intros k. split.
    + intros Hk. exists p. split; [left|done].
    + intros (part & Hpart & Hk). by apply list_elem_of_singleton in Hpart as ->.
  - intros r i part Hr Hi. destruct i as [|i]; [|done].
    injection Hi as <-. right. exists r. split; [done|]. split; [done|].
    by rewrite Nat.add_0_r.
  - intros Huniq. by inversion Huniq.
Qed.

Lemma key_of_app (l extra : list cell) :
  (length keys <= length l)%nat -> key_of (l ++ extra) = key_of l.
Proof. intros H. unfold key_of. by rewrite take_app_le. Qed.

Lemma key_of_key_of_app (r extra : list cell) :
  (length keys <= length r)%nat -> key_of (key_of r ++ extra) = key_of r.
Proof.
  intros H. unfold key_of.
  rewrite take_app_le by (rewrite length_take; lia).
  by rewrite take_take, Nat.min_id.
Qed.

Lemma cell_at_app_l (l extra : list cell) i :
  (i < length l)%nat -> cell_at (l ++ extra) i = cell_at l i.
Proof. intros H. by rewrite !cell_at_lookup, lookup_app_l. Qed.

Lemma cell_at_app_last (l : list cell) (x : cell) :
  cell_at (l ++ [x]) (length l) = x.
Proof.
  rewrite cell_at_lookup, lookup_app_r by lia. by rewrite Nat.sub_diag.
Qed.

Lemma cell_at_replicate_null n i (extra : list cell) :
  (i < n)%nat -> cell_at (replicate n Null ++ extra) i = Null.
Proof.
  intros H. rewrite cell_at_lookup, lookup_app_l by (rewrite length_replicate; lia).
  by rewrite lookup_replicate_2.
Qed.

Lemma matching_at_most_one (rs : list (list cell)) (k : list cell) :
  NoDup (map key_of rs) ->
  (forall r, r ∈ rs -> (length keys <= length r)%nat) ->
  matching [0; 1; 2]%nat k rs = []
  \/ exists r, matching [0; 1; 2]%nat k rs = [r].
Proof.
  induction rs as [|r rs IH]; intros Hnd Hlen; [by left|].
  simpl in Hnd. apply NoDup_cons in Hnd as [Hr Hnd].
  unfold matching in *. cbn [List.filter]. case_bool_decide as Hk.
  - right. exists r. f_equal. apply filter_nil_iff. intros r' Hr'.
    apply bool_decide_eq_false. intros Hk'. apply Hr.
    apply list_elem_of_fmap. exists r'. split; [|done].
    rewrite <- (project_keys r), <- (project_keys r'); [congruence| |].
    + apply Hlen. by right.
    + apply Hlen. left.
  - apply IH; [done|]. intros r' Hr'. apply Hlen. by right.
Qed.

Lemma merge_left_rows_keys rest (right_rows ls : list (list cell)) :
  (forall k, matching [0; 1; 2]%nat k right_rows = []
             \/ exists r, matching [0; 1; 2]%nat k right_rows = [r]) ->
  (forall l, l ∈ ls -> (length keys <= length l)%nat) ->
  map key_of (flat_map (merge_left_row [0; 1; 2]%nat [0; 1; 2]%nat rest right_rows) ls)
  = map key_of ls.
Proof.
  intros Hone. induction ls as [|l ls IH]; intros Hlen; [done|].
  cbn [flat_map]. rewrite map_app, IH by (intros l' Hl'; apply Hlen; by right).
  cbn [map]. rewrite <- (app_nil_l (map key_of ls)) at 2.
  rewrite app_comm_cons. f_equal.
  unfold merge_left_row.
  destruct (Hone (project [0; 1; 2]%nat l)) as [->|(r & ->)]; simpl;
    by rewrite key_of_app by (apply Hlen; left).
Qed.

Lemma merge_right_only_keys left right on li ri rest (rs : list (list cell)) :
  (forall r, r ∈ rs ->
     key_of (keys_on_left (columns left) (columns right) on r ++ project rest r)
     = key_of r) ->
  NoDup (map key_of rs) ->
  NoDup (map key_of (flat_map (merge_right_only left right on li ri rest) rs))
  /\ forall k, k ∈ map key_of (flat_map (merge_right_only left right on li ri rest) rs) ->
               k ∈ map key_of rs.
Proof.
  induction rs as [|r rs IH]; intros Hkey Hnd.
  - split; [constructor|done].
  - simpl in Hnd. apply NoDup_cons in Hnd as [Hr Hnd].
    destruct IH as [IHnd IHin]; [intros r' Hr'; apply Hkey; by right|done|].
    cbn [flat_map]. rewrite map_app. unfold merge_right_only at 1 3.
    destruct (matching li (project ri r) (rows left)) as [|? ?].
    + cbn [map app]. rewrite (Hkey r) by left. split.
      * apply NoDup_cons. split; [|done]. intros Hin. by apply Hr, IHin.
      * intros k Hk. apply elem_of_cons in Hk as [->|Hk]; [left|].
        right. by apply IHin.
    + cbn [map app]. split; [done|]. intros k Hk. right. by apply IHin.
Qed.

(** With one row per key on both sides, the outer merge has one row per
    key. *)
Lemma merge_gap_table_unique T p gs g res :
  columns T = keys ++ gs -> frame_wf T -> is_gap_table p g ->
  Forall (fun c => c ∉ keys) gs -> g ∉ keys ->
  unique_keys T -> unique_keys p ->
  merge T p keys HowOuter = Ok res ->
  unique_keys res.
Proof.
  intros HT HwfT [Hp Hwfp] Hgs Hg HuT Hup Hmerge.
  assert (forall l, l ∈ rows T -> (length keys <= length l)%nat) as HlenT.
  { intros l Hl. unfold frame_wf in HwfT. rewrite Forall_forall in HwfT.
    rewrite (HwfT l Hl), HT, length_app. lia. }
  assert (forall r, r ∈ rows p -> (length keys <= length r)%nat) as Hlenp.
  { intros r Hr. unfold frame_wf in Hwfp. rewrite Forall_forall in Hwfp.
    rewrite (Hwfp r Hr), Hp, length_app. lia. }
  rewrite (merge_with_keys T p keys HowOuter [0; 1; 2]%nat [0; 1; 2]%nat) in Hmerge;
    [|done|rewrite HT, Hp; apply merge_keys_gap_tables; [done|by constructor]].
  injection Hmerge as <-. unfold unique_keys. cbn [rows].
  rewrite map_app, merge_left_rows_keys;
    [|intros k; by apply matching_at_most_one|done].
  destruct (merge_right_only_keys T p keys [0; 1; 2]%nat [0; 1; 2]%nat
              (non_key_columns (columns p) keys).*1 (rows p)) as [Hnd Hin];
    [|done|].
  { intros r Hr. rewrite HT, Hp, keys_on_left_gap_table by auto.
    rewrite <- app_assoc. apply key_of_key_of_app. auto. }
  apply NoDup_app. split; [done|]. split; [|done].
  intros k HkT Hk.
  apply list_elem_of_fmap in Hk as (r' & -> & Hr').
  apply elem_of_flat_map in Hr' as (r & Hr & Hr').
  apply merge_right_only_elem_of in Hr' as [Hnone ->].
  rewrite HT, Hp, keys_on_left_gap_table, <- app_assoc, key_of_key_of_app in HkT
    by auto.
  apply list_elem_of_fmap in HkT as (l & Hkl & Hl).
  rewrite matching_nil in Hnone. apply (Hnone l Hl).
  rewrite !project_keys by auto. done.
Qed.

Lemma gap_from_extend part i (l : list cell) (x : cell) n :
  length l = (length keys + n)%nat -> (i < n)%nat ->
  gap_from part i l -> gap_from part i (l ++ [x]).
Proof.
  intros Hlen Hi. unfold gap_from.
  rewrite key_of_app by lia. by rewrite cell_at_app_l by lia.
Qed.

Lemma outer_merge_of_step parts gs T p g :
  Forall2 is_gap_table parts gs ->
  outer_merge_of parts gs T ->
  is_gap_table p g ->
  Forall (fun c => c ∉ keys) gs -> g ∉ keys -> g ∉ gs ->
  exists res,
    merge T p keys HowOuter = Ok res
    /\ outer_merge_of (parts ++ [p]) (gs ++ [g]) res.
Proof.
  intros Hparts (HT & HwfT & Hkeys & Hprov & Huniq) Hp Hgs Hg Hfresh.
  destruct (merge_gap_table T p gs g HT HwfT Hp Hgs Hg Hfresh)
    as (res & Hm & Hcols & Hrows).
  exists res. split; [done|].
  assert (Forall unique_keys (parts ++ [p]) -> unique_keys res) as Huniq'.
  { intros Hall. apply Forall_app in Hall as [Hall Hlast].
    inversion Hlast as [|? ? Hup _]; subst.
    exact (merge_gap_table_unique T p gs g res HT HwfT Hp Hgs Hg (Huniq Hall) Hup Hm). }
  pose proof (Forall2_length _ _ _ Hparts) as Hn.
  destruct Hp as [Hpcols Hwfp].
  assert (forall l, l ∈ rows T -> length l = (length keys + length gs)%nat) as HlenT.
  { intros l Hl. unfold frame_wf in HwfT. rewrite Forall_forall in HwfT.
    by rewrite (HwfT l Hl), HT, length_app. }
  assert (forall r, r ∈ rows p -> length r = (length keys + 1)%nat) as Hlenp.
  { intros r Hr. unfold frame_wf in Hwfp. rewrite Forall_forall in Hwfp.
    by rewrite (Hwfp r Hr), Hpcols, length_app. }
  assert (forall r, r ∈ rows p -> length (key_of r) = length keys) as Hlenk.
  { intros r Hr. unfold key_of. rewrite length_take, (Hlenp r Hr). lia. }
  split; [by rewrite Hcols|]. split; [|split; [|split; [|done]]].
  - (* every row has one cell per column *)
    unfold frame_wf. apply Forall_forall. intros r' Hr'.
    rewrite Hcols, !length_app. simpl.
    apply Hrows in Hr'
      as [(l & Hl & _ & ->)|[(l & r & Hl & _ & _ & ->)|(r & Hr & _ & ->)]].
    + rewrite length_app, (HlenT l Hl). simpl. lia.
    + rewrite length_app, (HlenT l Hl). simpl. lia.
    + rewrite !length_app, length_replicate, (Hlenk r Hr). simpl. lia.
  - (* the keys are those of all the parts *)
    intros k. split.
    + intros Hk. apply list_elem_of_fmap in Hk as (r' & -> & Hr').
      apply Hrows in Hr'
        as [(l & Hl & _ & ->)|[(l & r & Hl & _ & _ & ->)|(r & Hr & _ & ->)]].
      * rewrite key_of_app by (rewrite (HlenT l Hl); lia).
        destruct (proj1 (Hkeys (key_of l))) as (part & Hpart & Hin).
        { apply list_elem_of_fmap. by exists l. }
        exists part. split; [|done]. apply elem_of_app. by left.
      * rewrite key_of_app by (rewrite (HlenT l Hl); lia).
        destruct (proj1 (Hkeys (key_of l))) as (part & Hpart & Hin).
        { apply list_elem_of_fmap. by exists l. }
        exists part. split; [|done]. apply elem_of_app. by left.
      * rewrite key_of_key_of_app by (rewrite (Hlenp r Hr); lia).
        exists p. split; [apply elem_of_app; right; left|].
        apply list_elem_of_fmap. by exists r.
    + intros (part & Hpart & Hk). apply elem_of_app in Hpart as [Hpart|Hpart].
      * assert (k ∈ map key_of (rows T)) as HkT by (apply Hkeys; by exists part).
        apply list_elem_of_fmap in HkT as (l & -> & Hl).
        destruct (decide (key_of l ∈ map key_of (rows p))) as [Hin|Hnot].
        -- apply list_elem_of_fmap in Hin as (r & Hkr & Hr).
           apply list_elem_of_fmap. exists (l ++ [cell_at r 3]). split.
           ++ by rewrite key_of_app by (rewrite (HlenT l Hl); lia).
           ++ apply Hrows. right. left. by exists l, r.
        -- apply list_elem_of_fmap. exists (l ++ [Null]). split.
           ++ by rewrite key_of_app by (rewrite (HlenT l Hl); lia).
           ++ apply Hrows. left. by exists l.
      * apply list_elem_of_singleton in Hpart as ->.
        apply list_elem_of_fmap in Hk as (r & -> & Hr).
        destruct (decide (key_of r ∈ map key_of (rows T))) as [Hin|Hnot].
        -- apply list_elem_of_fmap in Hin as (l & Hkl & Hl).
           apply list_elem_of_fmap. exists (l ++ [cell_at r 3]). split.
           ++ by rewrite key_of_app by (rewrite (HlenT l Hl); lia).
           ++ apply Hrows. right. left. by exists l, r.
        -- apply list_elem_of_fmap.
           exists (key_of r ++ replicate (length gs) Null ++ [cell_at r 3]). split.
           ++ by rewrite key_of_key_of_app by (rewrite (Hlenp r Hr); lia).
           ++ apply Hrows. right. right. by exists r.
  - (* what each row shows for each part *)
    intros r' i part Hr' Hi.
    apply lookup_app_Some in Hi as [Hi|[Hge Hi]].
    + (* one of the earlier parts *)
      pose proof (lookup_lt_Some _ _ _ Hi) as Hlt. rewrite Hn in Hlt.
      apply Hrows in Hr'
        as [(l & Hl & _ & ->)|[(l & r & Hl & _ & _ & ->)|(r & Hr & Hnot & ->)]].
      * eapply gap_from_extend; [by apply HlenT|done|by apply Hprov].
      * eapply gap_from_extend; [by apply HlenT|done|by apply Hprov].
      * left. rewrite key_of_key_of_app by (rewrite (Hlenp r Hr); lia). split.
        -- intros Hin. apply Hnot, Hkeys. exists part. split; [|done].
           by eapply list_elem_of_lookup_2.
        -- rewrite cell_at_lookup, lookup_app_r by (rewrite (Hlenk r Hr); lia).
           rewrite (Hlenk r Hr).
           replace (length keys + i - length keys)%nat with i by lia.
           rewrite <- cell_at_lookup. by apply cell_at_replicate_null.
    + (* the part merged last *)
      destruct (i - length parts)%nat as [|j] eqn:Hj; [|done].
      injection Hi as <-. assert (i = length gs) as -> by lia.
      apply Hrows in Hr'
        as [(l & Hl & Hnot & ->)|[(l & r & Hl & Hr & Hk & ->)|(r & Hr & _ & ->)]].
      * left. rewrite key_of_app by (rewrite (HlenT l Hl); lia).
        split; [done|]. rewrite <- (HlenT l Hl). apply cell_at_app_last.
      * right. exists r. split; [done|].
        rewrite key_of_app by (rewrite (HlenT l Hl); lia). split; [done|].
        rewrite <- (HlenT l Hl). apply cell_at_app_last.
      * right. exists r. split; [done|].
        rewrite key_of_key_of_app by (rewrite (Hlenp r Hr); lia). split; [done|].
        rewrite app_assoc.
        replace (length keys + length gs)%nat
          with (length (key_of r ++ replicate (length gs) Null))
          by (rewrite length_app, length_replicate, (Hlenk r Hr); lia).
        apply cell_at_app_last.
Qed.

Lemma merge_fold_outer rest gs_rest :
  Forall2 is_gap_table rest gs_rest ->
  forall parts gs T,
    Forall2 is_gap_table parts gs ->
    outer_merge_of parts gs T ->
    NoDup (gs ++ gs_rest) ->
    Forall (fun c => c ∉ keys) (gs ++ gs_rest) ->
    exists res,
      result_foldM (fun res part => merge res part keys HowOuter) T rest = Ok res
      /\ outer_merge_of (parts ++ rest) (gs ++ gs_rest) res.
Proof.
  induction 1 as [|p g rest gs_rest Hp _ IH]; intros parts gs T Hparts HT Hnd Hkeys.
  - exists T. rewrite !app_nil_r. by split.
  - apply NoDup_app in Hnd as Hnd'. destruct Hnd' as (_ & Hdisj & _).
    apply Forall_app in Hkeys as Hkeys'. destruct Hkeys' as [Hgs Hrest].
    inversion Hrest as [|? ? Hg _]; subst.
    destruct (outer_merge_of_step parts gs T p g Hparts HT Hp Hgs Hg)
      as (res1 & Hm & Hres1).
    { intros Hin. apply (Hdisj g Hin). left. }
    cbn [result_foldM]. rewrite Hm.
    destruct (IH (parts ++ [p]) (gs ++ [g]) res1) as (res & Hfold & Hres).
    + apply Forall2_app; [done|]. by constructor.
    + done.
    + by rewrite <- app_assoc.
    + by rewrite <- app_assoc.
    + exists res. split; [done|]. by rewrite <- !app_assoc in Hres.
Qed.

Lemma merge_gaps_outer parts gs :
  parts <> [] ->
  Forall2 is_gap_table parts gs -> NoDup gs -> Forall (fun c => c ∉ keys) gs ->
  exists res, merge_gaps parts = Ok res /\ outer_merge_of parts gs res.
Proof.
  intros Hne Hparts Hnd Hkeys.
  destruct Hparts as [|p g parts gs Hp Hrest]; [done|].
  unfold merge_gaps.
  apply (merge_fold_outer parts gs Hrest [p] [g] p); try done.
  - by constructor.
  - by apply outer_merge_of_single.
Qed.

(** *** The two passes keep their invariant *)

Lemma result_foldM_invariant {A B} (P : A -> Prop) (f : A -> B -> result A) xs :
  (forall a x a', x ∈ xs -> P a -> f a x = Ok a' -> P a') ->
  forall a a', P a -> result_foldM f a xs = Ok a' -> P a'.
Proof.
  induction xs as [|x xs IH]; simpl; intros Hstep a a' Ha.
  - by intros [= <-].
  - destruct (f a x) as [a1|e] eqn:Hf; [|done].
    apply IH.
    + intros a0 y a0' Hy. apply Hstep. by right.
    + eapply Hstep; [left|done|done].
Qed.

Lemma gap_state_ok_add st gs part g :
  gap_state_ok st gs -> is_gap_table part g ->
  g ∉ produced st -> str_endswith "_gap_fm" g = true ->
  gap_state_ok (GapState (out st ++ [part]) ({[g]} ∪ produced st)) (gs ++ [g]).
Proof.
  intros (Hout & Hnd & Hprod & Hend) Hpart Hfresh Hg. repeat split; simpl.
  - apply Forall2_app; [done|]. by constructor.
  - apply NoDup_app. split; [done|]. split.
    + intros x Hx Hx'. apply list_elem_of_singleton in Hx' as ->.
      by apply Hfresh, Hprod.
    + apply NoDup_singleton.
  - rewrite elem_of_union, elem_of_singleton, elem_of_app, list_elem_of_singleton.
    rewrite Hprod. tauto.
  - rewrite elem_of_union, elem_of_singleton, elem_of_app, list_elem_of_singleton.
    rewrite Hprod. tauto.
  - apply Forall_app. split; [done|]. by constructor.
Qed.

Lemma pivot_table_index_length df by_col values wide :
  pivot_table df keys by_col values = Ok wide ->
  Forall (fun k => length k = length keys) (pv_index wide).
Proof.
  unfold pivot_table.
  destruct (positions (columns df) [values]) as [vi|e]; [|done].
  destruct (positions (columns df) keys) as [ki|e] eqn:Hki; [|done].
  destruct (positions (columns df) [by_col]) as [bi|e]; [|done].
  cbn [mbind result_bind].
  destruct (existsb _ _); [done|]. intros [= <-]. simpl.
  apply Forall_forall. intros k Hk.
  apply elem_of_remove_dups, list_elem_of_fmap in Hk as (r & -> & _).
  unfold project. rewrite length_map. apply (positions_length _ _ _ Hki).
Qed.

Lemma zip_with_Forall {A B C} (P : C -> Prop) (f : A -> B -> C) xs ys :
  (forall x y, x ∈ xs -> P (f x y)) -> Forall P (zip_with f xs ys).
Proof.
  revert ys. induction xs as [|x xs IH]; intros [|y ys] H; simpl; try constructor.
  - apply H. left.
  - apply IH. intros x' y' Hx'. apply H. by right.
Qed.

Lemma long_part_gap_table wide g part :
  Forall (fun k => length k = length keys) (pv_index wide) ->
  long_part wide g = Ok part -> is_gap_table part g.
Proof.
  intros Hidx. unfold long_part.
  destruct (labels_renamed_to "female" wide) as [|f [|? ?]]; try done.
  destruct (labels_renamed_to "male" wide) as [|m [|? ?]]; try done.
  destruct (result_mapM _ (pv_index wide)) as [gaps|e]; [|done].
  cbn [mbind result_bind]. intros [= <-]. split; [done|].
  unfold frame_wf. simpl. apply zip_with_Forall. intros k x Hk.
  rewrite Forall_forall in Hidx. rewrite length_app, (Hidx k Hk). simpl. lia.
Qed.

Lemma long_step_ok df st gs name st' :
  gap_state_ok st gs -> long_step df st name = Ok st' ->
  gap_state_ok st' gs \/ gap_state_ok st' (gs ++ [name +:+ "_gap_fm"]).
Proof.
  intros Hok. unfold long_step.
  destruct (has_column df "sex" && has_column df name); [|intros [= <-]; by left].
  destruct (pivot_table df keys "sex" name) as [wide|e] eqn:Hpv; [|done].
  cbn [mbind result_bind].
  destruct (labels_renamed_to "female" wide) as [|f fs] eqn:Hf;
    [intros [= <-]; by left|].
  destruct (labels_renamed_to "male" wide) as [|m ms] eqn:Hm;
    [intros [= <-]; by left|].
  case_bool_decide as Hprod; [intros [= <-]; by left|].
  destruct (long_part wide (name +:+ "_gap_fm")) as [part|e] eqn:Hpart; [|done].
  cbn [mbind result_bind]. intros [= <-]. right.
  apply gap_state_ok_add; [done| |done|apply str_endswith_app].
  eapply long_part_gap_table; [|done]. by eapply pivot_table_index_length.
Qed.

Lemma gap_state_ok_empty : gap_state_ok (GapState [] ∅) [].
Proof.
  repeat split; simpl; try constructor.
  - intros H. by apply not_elem_of_empty in H.
  - intros H. by apply elem_of_nil in H.
Qed.

Lemma long_indicator_names df st :
  long_pass df = Ok st ->
  exists gs, gap_state_ok st gs
             /\ Forall (fun g => g ∈ map (fun n => n +:+ "_gap_fm") indicators) gs.
Proof.
  unfold long_pass. destruct (has_column df "sex").
  - apply (result_foldM_invariant
             (fun st => exists gs, gap_state_ok st gs
                /\ Forall (fun g => g ∈ map (fun n => n +:+ "_gap_fm") indicators) gs)).
    + intros a name a' Hname (gs & Hok & Hgs) Hstep.
      destruct (long_step_ok _ _ _ _ _ Hok Hstep) as [Hok'|Hok'].
      * by exists gs.
      * exists (gs ++ [name +:+ "_gap_fm"]). split; [done|].
        apply Forall_app. split; [done|]. constructor; [|constructor].
        apply list_elem_of_fmap. by exists name.
    + exists []. split; [apply gap_state_ok_empty|constructor].
  - intros [= <-]. exists []. split; [apply gap_state_ok_empty|constructor].
Qed.

Lemma wide_gap_name_endswith male_col :
  str_endswith "_gap_fm" (wide_gap_name male_col) = true.
Proof. unfold wide_gap_name. apply str_endswith_app. Qed.

Lemma wide_step_cases df st male_col st' :
  wide_step df st male_col = Ok st' ->
  st' = st
  \/ ((wide_gap_name male_col ∉ produced st)
      /\ has_column df (female_sibling male_col) = true
      /\ exists part,
           is_gap_table part (wide_gap_name male_col)
           /\ st' = GapState (out st ++ [part])
                             ({[wide_gap_name male_col]} ∪ produced st)).
Proof.
  unfold wide_step. fold (female_sibling male_col).
  destruct (has_column df (female_sibling male_col)) eqn:Hf;
    [|intros [= <-]; by left].
  cbn [negb]. case_bool_decide as Hprod; [intros [= <-]; by left|].
  destruct (df_select df keys) as [part|e] eqn:Hsel; [|done].
  destruct (column_values df (female_sibling male_col)) as [females|e]; [|done].
  destruct (column_values df male_col) as [males|e]; [|done].
  cbn [mbind result_bind].
  destruct (result_mapM _ (zip females males)) as [gaps|e]; [|done].
  cbn [mbind result_bind]. intros [= <-]. right.
  split; [done|]. split; [done|]. eexists. split; [|done].
  pose proof (gap_name_not_key _ (wide_gap_name_endswith male_col)) as Hnot.
  assert (columns part = keys) as Hcols.
  { unfold df_select in Hsel.
    destruct (positions (columns df) keys); [|done]. by injection Hsel as <-. }
  split; [|by eapply set_column_wf, df_select_wf].
  unfold set_column. cbn [columns]. rewrite Hcols.
  destruct (col_index keys (wide_gap_name male_col)) as [i|] eqn:Hi; [|done].
  exfalso. by eapply Hnot, col_index_elem_of.
Qed.

Lemma wide_step_ok df st gs male_col st' :
  gap_state_ok st gs -> wide_step df st male_col = Ok st' ->
  gap_state_ok st' gs \/ gap_state_ok st' (gs ++ [wide_gap_name male_col]).
Proof.
  intros Hok Hstep.
  destruct (wide_step_cases _ _ _ _ Hstep) as [->|(Hfresh & _ & part & Hpart & ->)];
    [by left|right].
  apply gap_state_ok_add; [done|done|done|apply wide_gap_name_endswith].
Qed.

Lemma wide_pass_ok df st st' :
  (exists gs, gap_state_ok st gs) -> wide_pass df st = Ok st' ->
  exists gs, gap_state_ok st' gs.
Proof.
  intros Hst. unfold wide_pass.
  apply (result_foldM_invariant (fun st => exists gs, gap_state_ok st gs)); [|done].
  intros a c a' _ (gs & Hok) Hstep.
  destruct (wide_step_ok _ _ _ _ _ Hok Hstep); by eexists.
Qed.

Lemma gap_parts_ok df parts :
  gap_parts df = Ok parts ->
  exists st gs, parts = out st /\ gap_state_ok st gs.
Proof.
  unfold gap_parts.
  destruct (long_pass df) as [st1|e] eqn:Hlong; [|done].
  cbn [mbind result_bind].
  destruct (wide_pass df st1) as [st2|e] eqn:Hwide; [|done].
  cbn [mbind result_bind]. intros [= <-].
  destruct (long_indicator_names df st1 Hlong) as (gs1 & Hok1 & _).
  destruct (wide_pass_ok df st1 st2) as (gs & Hok); [by exists gs1|done|].
  by exists st2, gs.
Qed.

(** *** One row per key for the long shape *)

Lemma pivot_table_index_NoDup df index by_col values wide :
  pivot_table df index by_col values = Ok wide -> NoDup (pv_index wide).
Proof.
  unfold pivot_table.
  destruct (positions (columns df) [values]) as [vi|e]; [|done].
  destruct (positions (columns df) index) as [ki|e]; [|done].
  destruct (positions (columns df) [by_col]) as [bi|e]; [|done].
  cbn [mbind result_bind].
  destruct (existsb _ _); [done|]. intros [= <-]. simpl.
  apply NoDup_remove_dups.
Qed.

Lemma zip_with_keys (ks : list (list cell)) (gaps : list cell) :
  Forall (fun k => length k = length keys) ks -> length gaps = length ks ->
  map key_of (zip_with (fun k g => k ++ [g]) ks gaps) = ks.
Proof.
  intros Hks. revert gaps. induction Hks as [|k ks Hk _ IH]; intros [|g gaps] Hlen;
    simpl in *; try done.
  rewrite IH by lia. f_equal.
  unfold key_of. by rewrite take_app_length'.
Qed.

Lemma long_part_unique_keys wide g part :
  Forall (fun k => length k = length keys) (pv_index wide) ->
  NoDup (pv_index wide) ->
  long_part wide g = Ok part -> unique_keys part.
Proof.
  intros Hidx Hnd. unfold long_part.
  destruct (labels_renamed_to "female" wide) as [|f [|? ?]]; try done.
  destruct (labels_renamed_to "male" wide) as [|m [|? ?]]; try done.
  destruct (result_mapM _ (pv_index wide)) as [gaps|e] eqn:Hgaps; [|done].
  cbn [mbind result_bind]. intros [= <-]. unfold unique_keys. cbn [rows].
  rewrite zip_with_keys; [done|done|]. by eapply result_mapM_length.
Qed.

Lemma long_step_unique df st name st' :
  Forall unique_keys (out st) -> long_step df st name = Ok st' ->
  Forall unique_keys (out st').
Proof.
  intros Hok. unfold long_step.
  destruct (has_column df "sex" && has_column df name); [|by intros [= <-]].
  destruct (pivot_table df keys "sex" name) as [wide|e] eqn:Hpv; [|done].
  cbn [mbind result_bind].
  destruct (labels_renamed_to "female" wide) as [|f fs]; [by intros [= <-]|].
  destruct (labels_renamed_to "male" wide) as [|m ms]; [by intros [= <-]|].
  case_bool_decide; [by intros [= <-]|].
  destruct (long_part wide (name +:+ "_gap_fm")) as [part|e] eqn:Hpart; [|done].
  cbn [mbind result_bind]. intros [= <-]. cbn [out].
  apply Forall_app. split; [done|]. constructor; [|constructor].
  eapply long_part_unique_keys; [| |done].
  - by eapply pivot_table_index_length.
  - by eapply pivot_table_index_NoDup.
Qed.

Lemma long_pass_unique df st :
  long_pass df = Ok st -> Forall unique_keys (out st).
Proof.
  unfold long_pass. destruct (has_column df "sex"); [|by intros [= <-]].
  apply (result_foldM_invariant (fun st => Forall unique_keys (out st))).
  - intros a name a' _. apply long_step_unique.
  - constructor.
Qed.

Lemma wide_pass_without_pairs df st :
  wide_signal df = false -> wide_pass df st = Ok st.
Proof.
  unfold wide_signal, wide_pass. induction (male_cols df) as [|c cols IH]; [done|].
  cbn [existsb result_foldM]. intros H. apply orb_false_elim in H as [Hc Hcols].
  unfold wide_step at 1. fold (female_sibling c). rewrite Hc. cbn [negb].
  by apply IH.
Qed.

(** On a table without any [*_male] / [*_female] pair, so that all the
    gap tables come from the long pass, the result of [gender_gap] has
    exactly one row per key. *)
Lemma gender_gap_long_shape_one_row_per_key df res :
  wide_signal df = false -> gender_gap df = Ok res -> unique_keys res.
Proof.
  intros Hwide. unfold gender_gap. 
  destruct (gap_parts df) as [parts|e] eqn:Hparts; [|done].
  cbn [mbind result_bind]. intros Hres.
  assert (Forall unique_keys parts) as Huniq.
  { unfold gap_parts in Hparts.
    destruct (long_pass df) as [st1|e] eqn:Hlong; [|done].
    cbn [mbind result_bind] in Hparts.
    rewrite (wide_pass_without_pairs df st1 Hwide) in Hparts.
    cbn [mbind result_bind] in Hparts. injection Hparts as <-.
    by apply (long_pass_unique df). }
  destruct (gap_parts_ok df parts Hparts) as (st & gs & -> & Hout & Hnd & _ & Hend).
  destruct (merge_gaps_outer (out st) gs) as (res' & Hres' & _ & _ & _ & _ & Hu);
    [|done|done| |].
  - intros Hnil. by rewrite Hnil in Hres.
  - eapply Forall_impl; [exact Hend|]. intros g. apply gap_name_not_key.
  - rewrite Hres in Hres'. injection Hres' as ->. by apply Hu.
Qed.

(** C5 (as the code has it). When the two passes of [gender_gap] have
    produced the gap tables [parts] (two or more, or just one), the
    result is their merge on (country, country_iso3, year): its columns
    are the three key columns followed by one gap column per part, its
    keys are exactly the keys that appear in some part, and each of its
    rows shows, for each part, the gap of a row of that part with the
    same key, or a missing cell when that part has no row with this key.
    No part loses a key because another part lacks it.  The result has
    one row per key when every part has one row per key; it need not
    otherwise. *)
Theorem gender_gap_merges_on_union_of_keys df parts :
  gap_parts df = Ok parts ->
  parts <> [] ->
  exists gs res,
    gender_gap df = Ok res
    /\ Forall2 is_gap_table parts gs
    /\ NoDup gs
    /\ outer_merge_of parts gs res.
Proof.
  intros Hparts Hne.
  destruct (gap_parts_ok df parts Hparts) as (st & gs & -> & Hout & Hnd & _ & Hend).
  destruct (merge_gaps_outer (out st) gs Hne Hout Hnd) as (res & Hres & Hmerge).
  { eapply Forall_impl; [exact Hend|]. intros g. apply gap_name_not_key. }
  exists gs, res. unfold gender_gap. rewrite Hparts. cbn [mbind result_bind].
  split; [done|]. split; [done|]. by split.
Qed.

Lemma gender_gap_merges_on_union_of_keys_witness :
  exists parts,
    gap_parts two_indicators = Ok parts
    /\ length parts = 2%nat
    /\ exists gs res,
         gender_gap two_indicators = Ok res
         /\ Forall2 is_gap_table parts gs
         /\ NoDup gs
         /\ outer_merge_of parts gs res.
Proof.
  eexists. split; [vm_compute; reflexivity|]. split; [reflexivity|].
  apply gender_gap_merges_on_union_of_keys.
  - vm_compute. reflexivity.
  - discriminate.
Defined.

(** C5 fails as stated: on a long table that also carries the two
    halves, the wide pass gives one gap row per row of the table, two
    for the one key, and the merged result has two rows for that key. *)
Lemma gender_gap_repeats_a_key :
  (exists parts, gap_parts long_and_wide = Ok parts /\ length parts = 2%nat)
  /\ gender_gap long_and_wide
     = Ok (Frame ["country"; "country_iso3"; "year";
                  "prevalence_total_gap_fm"; "prevalence_gap_fm"]
                 [[Str "Kenya"; Str "KEN"; num 2020; num 6; num 6];
                  [Str "Kenya"; Str "KEN"; num 2020; num 6; num 6]])
  /\ ~ unique_keys
         (Frame ["country"; "country_iso3"; "year";
                 "prevalence_total_gap_fm"; "prevalence_gap_fm"]
                [[Str "Kenya"; Str "KEN"; num 2020; num 6; num 6];
                 [Str "Kenya"; Str "KEN"; num 2020; num 6; num 6]]).
Proof.
  split; [eexists; split; [vm_compute; reflexivity|reflexivity]|].
  split; [apply (bool_decide_unpack _); vm_compute; exact I|].
  unfold unique_keys. cbn [rows map]. intros Hnd.
  apply NoDup_cons in Hnd as [Hnot _]. apply Hnot. left.
Qed.

(** The example of the spec: gaps for 2019 and 2020 on one side, for 2020
    and 2021 on the other, three rows in the result. *)
Example gender_gap_two_indicators :
  gender_gap two_indicators
  = Ok (Frame ["country"; "country_iso3"; "year";
               "prevalence_total_gap_fm"; "prevalence_depression_gap_fm"]
              [[Str "Kenya"; Str "KEN"; num 2019; num 6; Null];
               [Str "Kenya"; Str "KEN"; num 2020; num 6; num 6];
               [Str "Kenya"; Str "KEN"; num 2021; Null; num 6]]).
Proof. apply (bool_decide_unpack _). vm_compute. exact I. Qed.

(** ** [gender_gap]: the gap of the pair [prevalence_male] / [prevalence_female] *)

Lemma wide_step_produced_mono df st male_col st' g :
  wide_step df st male_col = Ok st' -> g ∈ produced st -> g ∈ produced st'.
Proof.
  intros Hstep Hg.
  destruct (wide_step_cases _ _ _ _ Hstep) as [->|(_ & _ & part & _ & ->)]; [done|].
  simpl. apply elem_of_union. by right.
Qed.

Lemma wide_step_produces df st male_col st' :
  wide_step df st male_col = Ok st' ->
  has_column df (female_sibling male_col) = true ->
  wide_gap_name male_col ∈ produced st'.
Proof.
  intros Hstep Hf.
  destruct (wide_step_cases _ _ _ _ Hstep) as [->|(_ & _ & part & _ & ->)].
  - unfold wide_step in Hstep. fold (female_sibling male_col) in Hstep.
    rewrite Hf in Hstep. cbn [negb] in Hstep.
    case_bool_decide as Hprod; [done|].
    destruct (df_select df keys); [|done].
    destruct (column_values df (female_sibling male_col)); [|done].
    destruct (column_values df male_col); [|done].
    cbn [mbind result_bind] in Hstep.
    destruct (result_mapM _ _); [|done].
    cbn [mbind result_bind] in Hstep. injection Hstep as Hst.
    exfalso. apply Hprod. rewrite <- Hst. simpl.
    apply elem_of_union. left. by apply elem_of_singleton.
  - simpl. apply elem_of_union. left. by apply elem_of_singleton.
Qed.

Lemma wide_fold_produces df cols :
  forall st st' male_col,
    result_foldM (wide_step df) st cols = Ok st' ->
    male_col ∈ cols ->
    has_column df (female_sibling male_col) = true ->
    wide_gap_name male_col ∈ produced st'.
Proof.
  induction cols as [|c cols IH]; intros st st' male_col Hfold Hin Hf.
  - by apply elem_of_nil in Hin.
  - cbn [result_foldM] in Hfold.
    destruct (wide_step df st c) as [st1|e] eqn:Hstep; [|done].
    destruct (decide (male_col ∈ cols)) as [Hlater|Hnot].
    + by eapply IH.
    + apply elem_of_cons in Hin as [->|Hin]; [|done].
      pose proof (wide_step_produces _ _ _ _ Hstep Hf) as Hprod.
      clear IH Hstep Hnot. revert st1 Hfold Hprod.
      induction cols as [|c' cols IH]; intros st1 Hfold Hprod.
      * by injection Hfold as <-.
      * cbn [result_foldM] in Hfold.
        destruct (wide_step df st1 c') as [st2|e] eqn:Hstep; [|done].
        eapply IH; [done|]. by eapply wide_step_produced_mono.
Qed.

Lemma wide_fold_produced_from df cols :
  forall st st' g,
    result_foldM (wide_step df) st cols = Ok st' ->
    g ∈ produced st' ->
    g ∈ produced st
    \/ exists c, c ∈ cols /\ has_column df (female_sibling c) = true
                 /\ wide_gap_name c = g.
Proof.
  induction cols as [|c cols IH]; intros st st' g Hfold Hg.
  - injection Hfold as <-. by left.
  - cbn [result_foldM] in Hfold.
    destruct (wide_step df st c) as [st1|e] eqn:Hstep; [|done].
    destruct (IH _ _ _ Hfold Hg) as [Hg1|(c' & Hc' & Hf & Hname)].
    + destruct (wide_step_cases _ _ _ _ Hstep) as [->|(_ & Hf & part & _ & ->)];
        [by left|].
      simpl in Hg1. apply elem_of_union in Hg1 as [Hg1|Hg1]; [|by left].
      apply elem_of_singleton in Hg1 as ->. right. exists c.
      split; [left|done].
    + right. exists c'. split; [by right|done].
Qed.

(** What [wide_step] appends when it is not stopped: the key columns of
    the table and, row by row, the female column minus the male one. *)
Lemma wide_step_emits df st male_col st' :
  frame_wf df ->
  wide_gap_name male_col ∉ produced st ->
  has_column df (female_sibling male_col) = true ->
  wide_step df st male_col = Ok st' ->
  exists part females males gaps,
    st' = GapState (out st ++ [part]) ({[wide_gap_name male_col]} ∪ produced st)
    /\ is_gap_table part (wide_gap_name male_col)
    /\ column_values df (female_sibling male_col) = Ok females
    /\ column_values df male_col = Ok males
    /\ result_mapM (fun fm => cell_sub fm.1 fm.2) (zip females males) = Ok gaps
    /\ column_values part (wide_gap_name male_col) = Ok gaps.
Proof.
  intros Hwf Hfresh Hf. unfold wide_step. fold (female_sibling male_col).
  rewrite Hf. cbn [negb]. rewrite (bool_decide_false _ Hfresh).
  destruct (df_select df keys) as [part|e] eqn:Hsel; [|done].
  destruct (column_values df (female_sibling male_col)) as [females|e] eqn:Hfs;
    [|done].
  destruct (column_values df male_col) as [males|e] eqn:Hms; [|done].
  cbn [mbind result_bind].
  destruct (result_mapM _ (zip females males)) as [gaps|e] eqn:Hgaps; [|done].
  cbn [mbind result_bind]. intros [= <-].
  exists (set_column part (wide_gap_name male_col) gaps), females, males, gaps.
  pose proof (gap_name_not_key _ (wide_gap_name_endswith male_col)) as Hnot.
  assert (columns part = keys) as Hcols.
  { unfold df_select in Hsel.
    destruct (positions (columns df) keys); [|done]. by injection Hsel as <-. }
  pose proof (df_select_wf _ _ _ Hsel) as Hwfp.
  split; [done|]. split; [|split; [done|split; [done|split; [done|]]]].
  - split; [|by apply set_column_wf].
    unfold set_column. cbn [columns]. rewrite Hcols.
    destruct (col_index keys (wide_gap_name male_col)) as [i|] eqn:Hi; [|done].
    exfalso. by eapply Hnot, col_index_elem_of.
  - apply column_values_set_same; [done|].
    rewrite (result_mapM_length _ _ _ Hgaps), length_zip.
    rewrite (column_values_length _ _ _ Hfs), (column_values_length _ _ _ Hms).
    rewrite (df_select_rows_length _ _ _ Hsel). lia.
Qed.

Lemma long_pass_never_produces_prevalence_gap df st :
  long_pass df = Ok st -> "prevalence_gap_fm" ∉ produced st.
Proof.
  intros Hlong Hin.
  destruct (long_indicator_names df st Hlong) as (gs & (_ & _ & Hprod & _) & Hgs).
  apply Hprod in Hin. rewrite Forall_forall in Hgs. specialize (Hgs _ Hin).
  simpl in Hgs.
  repeat (apply elem_of_cons in Hgs as [Hgs|Hgs]; [done|]).
  by apply elem_of_nil in Hgs.
Qed.

Lemma gender_gap_has_produced_columns df res male_col :
  gender_gap df = Ok res ->
  male_col ∈ male_cols df ->
  has_column df (female_sibling male_col) = true ->
  wide_gap_name male_col ∈ columns res.
Proof.
  unfold gender_gap, gap_parts. intros Hgap Hcol Hf.
  destruct (long_pass df) as [st1|e] eqn:Hlong; [|done].
  cbn [mbind result_bind] in Hgap.
  destruct (wide_pass df st1) as [st2|e] eqn:Hwide; [|done].
  cbn [mbind result_bind] in Hgap.
  destruct (long_indicator_names df st1 Hlong) as (gs1 & Hok1 & _).
  destruct (wide_pass_ok df st1 st2) as (gs & Hout & Hnd & Hprod & Hend);
    [by exists gs1|done|].
  pose proof (wide_fold_produces df _ _ _ _ Hwide Hcol Hf) as Hin.
  apply Hprod in Hin.
  destruct (merge_gaps_outer (out st2) gs) as (res' & Hres' & Hcols & _);
    [|done|done| |].
  - intros Hnil. rewrite Hnil in Hout. inversion Hout; subst.
    by apply elem_of_nil in Hin.
  - eapply Forall_impl; [exact Hend|]. intros g. apply gap_name_not_key.
  - rewrite Hgap in Hres'. injection Hres' as ->.
    rewrite Hcols. apply elem_of_app. by right.
Qed.

(* ================================================================== *)
(** * Further properties *)

(** ** The resilient reader *)

(** X1. Whatever the readers do, the strategies are tried in one fixed
    order and each at most once: the run is one of six, the warning is
    logged once and only before the first fallback, the plain table read
    and the single-file read never occur in the same run. *)
Theorem read_parquet_safe_runs env cols :
  (read_parquet_safe env cols).1 ∈ possible_runs.
Proof.
  unfold read_parquet_safe, read_pyarrow, read_single_file, read_fastparquet,
    log, done_with.
  repeat case_match; simpl;
    apply (bool_decide_unpack _); vm_compute; exact I.
Qed.

Lemma to_frame_no_projection columns_arg table :
  columns_arg = None \/ columns_arg = Some [] ->
  to_frame columns_arg table = Ok table.
Proof. by intros [-> | ->]. Qed.

Lemma filter_missing_nil table cols :
  List.filter (fun c => negb (has_column table c)) cols = [] <->
  Forall (fun c => c ∈ columns table) cols.
Proof.
  rewrite filter_nil_iff, Forall_forall. split; intros H c Hc.
  - apply has_column_true. specialize (H c Hc). by destruct (has_column table c).
  - by rewrite (proj2 (has_column_true table c) (H c Hc)).
Qed.

(** What [to_frame] does with a list of requested columns that is not
    empty. *)
Lemma to_frame_projection table c cols :
  (Forall (fun c => c ∈ columns table) (c :: cols) ->
   exists idx, positions (columns table) (c :: cols) = Ok idx
               /\ to_frame (Some (c :: cols)) table
                  = Ok (Frame (c :: cols) (map (project idx) (rows table))))
  /\ (~ Forall (fun c => c ∈ columns table) (c :: cols) ->
      to_frame (Some (c :: cols)) table
      = Raise (Exn KeyError
                 ("Columns not found in parquet file: "
                  +:+ py_str_list
                        (List.filter (fun c => negb (has_column table c)) (c :: cols))))).
Proof.
  unfold to_frame. split; intros H.
  - rewrite (proj2 (filter_missing_nil table (c :: cols)) H).
    assert (exists idx, positions (columns table) (c :: cols) = Ok idx)
      as [idx Hidx].
    { clear -H. induction H as [|x l Hx _ IH]; [by eexists|].
      cbn [positions]. destruct (col_index_is_Some _ _ Hx) as [i ->].
      destruct IH as [idx ->]. by eexists. }
    exists idx. split; [done|]. unfold df_select. by rewrite Hidx.
  - destruct (List.filter _ (c :: cols)) as [|m ms] eqn:Hm; [|done].
    exfalso. apply H. by apply filter_missing_nil.
Qed.

(** X2. When the first read meets the defect and the legacy dataset read
    succeeds, a request for columns is honoured on the table read: with
    every requested column in the table the result has exactly the
    requested columns, in the requested order, each with the cells it
    has in the table; with a requested column missing, a [KeyError] is
    raised whose message lists, as Python writes a list of texts, the
    requested columns that the table lacks, in the order of the
    request. *)
Theorem read_parquet_safe_projects_after_fallback env c cols err table :
  pd_read_parquet env (Some (c :: cols)) = Raise err ->
  triggers_fallback err = true ->
  import_pyarrow env = Ok () ->
  pq_read_table_legacy env = Ok table ->
  (Forall (fun c => c ∈ columns table) (c :: cols) ->
   exists frame,
     (read_parquet_safe env (Some (c :: cols))).2 = Ok frame
     /\ columns frame = c :: cols
     /\ length (rows frame) = length (rows table)
     /\ forall c', c' ∈ c :: cols ->
          column_values frame c' = column_values table c')
  /\ (~ Forall (fun c => c ∈ columns table) (c :: cols) ->
      (read_parquet_safe env (Some (c :: cols))).2
      = Raise (Exn KeyError
                 ("Columns not found in parquet file: "
                  +:+ py_str_list
                        (List.filter (fun c => negb (has_column table c)) (c :: cols))))).
Proof.
  intros H1 T1 Himp Hleg.
  apply triggers_fallback_true in T1 as [O1 D1].
  assert ((read_parquet_safe env (Some (c :: cols))).2
          = to_frame (Some (c :: cols)) table) as ->.
  { unfold read_parquet_safe, read_pyarrow. by rewrite H1, O1, D1, Himp, Hleg. }
  destruct (to_frame_projection table c cols) as [Hok Hmissing].
  split; [|done]. intros Hall.
  destruct (Hok Hall) as (idx & Hidx & ->). eexists. split; [done|].
  split; [done|]. split; [apply length_map|].
  intros c' Hc'.
  assert (df_select table (c :: cols)
          = Ok (Frame (c :: cols) (map (project idx) (rows table)))) as Hsel.
  { unfold df_select. by rewrite Hidx. }
  rewrite Forall_forall in Hall.
  destruct (col_index_is_Some _ _ (Hall c' Hc')) as [i Hi].
  assert (column_values table c' = Ok (map (fun r => cell_at r i) (rows table)))
    as Hcol by (unfold column_values; by rewrite Hi).
  rewrite Hcol. by apply (column_values_select table (c :: cols)).
Qed.

Lemma read_parquet_safe_projects_after_fallback_witness :
  (exists frame,
     (read_parquet_safe defective_dataset_wide (Some ["year"; "country_iso3"])).2
     = Ok frame
     /\ columns frame = ["year"; "country_iso3"]
     /\ length (rows frame) = length (rows wide_stored_frame)
     /\ forall c', c' ∈ ["year"; "country_iso3"] ->
          column_values frame c' = column_values wide_stored_frame c')
  /\ (read_parquet_safe defective_dataset_wide (Some ["gdp"; "year"; "life_exp"])).2
     = Raise (Exn KeyError "Columns not found in parquet file: ['gdp', 'life_exp']").
Proof.
  split.
  - apply (read_parquet_safe_projects_after_fallback defective_dataset_wide
             "year" ["country_iso3"] (defect_at "dataset") wide_stored_frame);
      try reflexivity.
    apply (bool_decide_unpack _). vm_compute. exact I.
  - apply (read_parquet_safe_projects_after_fallback defective_dataset_wide
             "gdp" ["year"; "life_exp"] (defect_at "dataset") wide_stored_frame);
      try reflexivity.
    intros H. inversion H as [|? ? Hgdp _].
    revert Hgdp. apply (bool_decide_unpack _). vm_compute. exact I.
Defined.

(** X3. On the fallback path an empty list of columns is no projection:
    as with no list at all, the whole table read by pyarrow comes back. *)
Theorem read_parquet_safe_empty_column_list env columns_arg err table :
  columns_arg = None \/ columns_arg = Some [] ->
  pd_read_parquet env columns_arg = Raise err ->
  triggers_fallback err = true ->
  import_pyarrow env = Ok () ->
  pq_read_table_legacy env = Ok table ->
  read_parquet_safe env columns_arg
  = ([Attempt PandasDefault; fallback_warning; Attempt ArrowLegacyDataset],
     Ok table).
Proof.
  intros Hcols H1 T1 Himp Hleg.
  apply triggers_fallback_true in T1 as [O1 D1].
  unfold read_parquet_safe, read_pyarrow.
  rewrite H1, O1, D1, Himp, Hleg. simpl.
  by rewrite (to_frame_no_projection _ _ Hcols).
Qed.

Lemma read_parquet_safe_empty_column_list_witness :
  read_parquet_safe defective_dataset_wide (Some [])
  = ([Attempt PandasDefault; fallback_warning; Attempt ArrowLegacyDataset],
     Ok wide_stored_frame).
Proof.
  apply (read_parquet_safe_empty_column_list defective_dataset_wide (Some [])
           (defect_at "dataset") wide_stored_frame); try reflexivity.
  by right.
Defined.

(** X4. When [pq.read_table] rejects [use_legacy_dataset] with a
    [TypeError], the plain [pq.read_table] takes its place and is the
    last strategy: its table is returned (projected as requested), and
    its error, whatever it is, is raised without trying the single-file
    read or fastparquet. *)
Theorem read_parquet_safe_without_legacy_keyword env cols err err2 :
  pd_read_parquet env cols = Raise err ->
  triggers_fallback err = true ->
  import_pyarrow env = Ok () ->
  pq_read_table_legacy env = Raise err2 ->
  is_TypeError (exn_cls err2) = true ->
  read_parquet_safe env cols
  = ([Attempt PandasDefault; fallback_warning; Attempt ArrowLegacyDataset;
      Attempt ArrowTable],
     match pq_read_table env with
     | Ok table => to_frame cols table
     | Raise e => Raise e
     end).
Proof.
  intros H1 T1 Himp Hleg Hty.
  apply triggers_fallback_true in T1 as [O1 D1].
  unfold read_parquet_safe, read_pyarrow.
  rewrite H1, O1, D1, Himp, Hleg, Hty. simpl.
  by destruct (pq_read_table env).
Qed.

Lemma read_parquet_safe_without_legacy_keyword_witness :
  read_parquet_safe no_legacy_keyword None
  = ([Attempt PandasDefault; fallback_warning; Attempt ArrowLegacyDataset;
      Attempt ArrowTable],
     Raise (defect_at "table")).
Proof.
  apply (read_parquet_safe_without_legacy_keyword no_legacy_keyword None
           (defect_at "dataset")
           (Exn TypeError "read_table() got an unexpected keyword argument"));
    reflexivity.
Defined.

(** X5. When the first read meets the defect and pyarrow cannot be
    imported, no fallback strategy is attempted and the error of the
    first read is raised. *)
Theorem read_parquet_safe_import_error env cols err exc :
  pd_read_parquet env cols = Raise err ->
  triggers_fallback err = true ->
  import_pyarrow env = Raise exc ->
  exn_cls exc = ImportError ->
  read_parquet_safe env cols
  = ([Attempt PandasDefault; fallback_warning], Raise err).
Proof.
  intros H1 T1 Himp Hcls.
  apply triggers_fallback_true in T1 as [O1 D1].
  unfold read_parquet_safe. by rewrite H1, O1, D1, Himp, Hcls.
Qed.

Lemma read_parquet_safe_import_error_witness :
  read_parquet_safe no_pyarrow None
  = ([Attempt PandasDefault; fallback_warning], Raise (defect_at "dataset")).
Proof.
  apply (read_parquet_safe_import_error no_pyarrow None (defect_at "dataset")
           (Exn ImportError "No module named 'pyarrow'")); reflexivity.
Defined.

(** X6. A frame returned by [read_parquet_safe] always comes from a
    reader that succeeded: it is the frame of the pandas read or of the
    fastparquet read, or the table of one of the three pyarrow reads,
    projected as requested.  With no reader succeeding, nothing is
    returned. *)
Theorem read_parquet_safe_returns_a_read_frame env cols frame :
  (read_parquet_safe env cols).2 = Ok frame ->
  pd_read_parquet env cols = Ok frame
  \/ pd_read_parquet_fastparquet env cols = Ok frame
  \/ exists table,
       to_frame cols table = Ok frame
       /\ (pq_read_table_legacy env = Ok table
           \/ pq_read_table env = Ok table
           \/ pq_ParquetFile_read env = Ok table).
Proof.
  unfold read_parquet_safe, read_pyarrow, read_single_file, read_fastparquet,
    log, done_with. simpl.
  destruct (pd_read_parquet env cols) as [f|e1] eqn:H1; simpl.
  { intros [= <-]. by left. }
  destruct (is_OSError (exn_cls e1)); [|done].
  destruct (has_defect e1); [|done]. simpl.
  destruct (import_pyarrow env) as [[]|exc]; simpl.
  2: { by destruct (exn_cls exc). }
  destruct (pq_read_table_legacy env) as [t|e2] eqn:H2; simpl.
  { intros Hf. right. right. exists t. eauto. }
  destruct (is_TypeError (exn_cls e2)); simpl.
  { destruct (pq_read_table env) as [t|e] eqn:H3; simpl; [|done].
    intros Hf. right. right. exists t. eauto. }
  destruct (is_OSError (exn_cls e2)); [|done].
  destruct (has_defect e2); [|done]. simpl.
  destruct (pq_ParquetFile_read env) as [t|e3] eqn:H4; simpl.
  { intros Hf. right. right. exists t. eauto. }
  destruct (is_OSError (exn_cls e3)); [|done].
  destruct (has_defect e3); [|done]. simpl.
  destruct (import_fastparquet env) as [[]|e]; simpl.
  2: { by destruct (is_Exception (exn_cls e)). }
  destruct (pd_read_parquet_fastparquet env cols) as [f|e4] eqn:H5; simpl.
  { intros [= <-]. right. by left. }
  by destruct (is_Exception (exn_cls e4)).
Qed.

Lemma read_parquet_safe_returns_a_read_frame_witness :
  pd_read_parquet defective_dataset None = Ok stored_frame
  \/ pd_read_parquet_fastparquet defective_dataset None = Ok stored_frame
  \/ exists table,
       to_frame None table = Ok stored_frame
       /\ (pq_read_table_legacy defective_dataset = Ok table
           \/ pq_read_table defective_dataset = Ok table
           \/ pq_ParquetFile_read defective_dataset = Ok table).
Proof.
  apply (read_parquet_safe_returns_a_read_frame defective_dataset None).
  reflexivity.
Defined.

(** ** The country-code resolver *)

Lemma chr_lower_idempotent c : chr_lower (chr_lower c) = chr_lower c.
Proof. destruct c as [[] [] [] [] [] [] [] []]; reflexivity. Qed.

Lemma chr_isspace_lower c : chr_isspace (chr_lower c) = chr_isspace c.
Proof. destruct c as [[] [] [] [] [] [] [] []]; reflexivity. Qed.

Lemma filter_map_lower l :
  List.filter chr_isalnum (map chr_lower l)
  = map chr_lower (List.filter chr_isalnum l).
Proof.
  induction l as [|c l IH]; simpl; [done|].
  rewrite chr_isalnum_lower. destruct (chr_isalnum c); simpl; by rewrite IH.
Qed.

Lemma filter_filter_same {A} (f : A -> bool) l :
  List.filter f (List.filter f l) = List.filter f l.
Proof.
  induction l as [|x l IH]; simpl; [done|].
  destruct (f x) eqn:Hx; simpl; [|done]. by rewrite Hx, IH.
Qed.

(** X7. Normalising is idempotent: the key of a key is that key. *)
Theorem normalize_key_idempotent s :
  _normalize_key (_normalize_key s) = _normalize_key s.
Proof.
  rewrite (normalize_key_chars (_normalize_key s)), (normalize_key_chars s).
  rewrite list_ascii_of_string_of_list_ascii. f_equal.
  rewrite !filter_map_lower, filter_filter_same, map_map.
  apply map_ext. intros c. apply chr_lower_idempotent.
Qed.

(** A normalised key is made of alphanumeric characters only, none
    of which changes when lower-cased, and it is not longer than the
    text it comes from. *)
Theorem normalize_key_alphanumeric s :
  Forall (fun c => chr_isalnum c = true /\ chr_lower c = c)
         (list_ascii_of_string (_normalize_key s))
  /\ (String.length (_normalize_key s) <= String.length s)%nat.
Proof.
  rewrite normalize_key_chars, list_ascii_of_string_of_list_ascii. split.
  - apply Forall_forall. intros c Hc.
    apply list_elem_of_In, filter_In in Hc as [Hc Halnum]. split; [done|].
    apply in_map_iff in Hc as (c0 & <- & _). apply chr_lower_idempotent.
  - assert (forall l, String.length (string_of_list_ascii l) = length l) as Hlen.
    { induction l as [|c l IH]; simpl; [done|]. by rewrite IH. }
    rewrite Hlen.
    rewrite <- (string_of_list_ascii_of_string s) at 2. rewrite Hlen.
    etransitivity; [apply filter_length_le|]. by rewrite length_map.
Qed.

Lemma result_mapM_Forall2 {A B} (f : A -> result B) xs ys :
  result_mapM f xs = Ok ys <-> Forall2 (fun x y => f x = Ok y) xs ys.
Proof.
  revert ys. induction xs as [|x xs IH]; simpl; intros ys.
  - split; [intros [= <-]; constructor|by inversion 1].
  - destruct (f x) as [y|e] eqn:Hx.
    + destruct (result_mapM f xs) as [ys'|e] eqn:Hxs.
      * split.
        -- intros [= <-]. constructor; [done|]. by apply IH.
        -- inversion 1 as [|? y0 ? ys0 Hy Hrest]; subst.
           apply IH in Hrest. congruence.
      * split; [done|]. inversion 1 as [|? y0 ? ys0 Hy Hrest]; subst.
        apply IH in Hrest. congruence.
    + split; [done|]. inversion 1; subst. congruence.
Qed.

(** X8. [to_iso3] works element by element: when it returns, the codes
    are as many as the names, and the code at each position is what
    [_map] resolves the name at that position to. *)
Theorem to_iso3_elementwise _cc bundle (astype_str : cell -> cell) series codes :
  to_iso3 _cc bundle astype_str series = Ok codes ->
  length codes = length series
  /\ forall i x, series !! i = Some x ->
       exists code, codes !! i = Some code
                    /\ _map _cc bundle (astype_str x) = Ok code.
Proof.
  unfold to_iso3. intros H. split; [by eapply result_mapM_length|].
  apply result_mapM_Forall2 in H. intros i x Hx.
  destruct (Forall2_lookup_l _ _ _ _ _ H Hx) as (code & Hcode & Hmap).
  by exists code.
Qed.

Lemma to_iso3_elementwise_witness :
  length [Str "KEN"; Null; Str "PER"] = length [Str "Kenya"; Str "  "; Str "Peru"]
  /\ forall i x, [Str "Kenya"; Str "  "; Str "Peru"] !! i = Some x ->
       exists code, [Str "KEN"; Null; Str "PER"] !! i = Some code
                    /\ _map None two_names_bundle ((fun x => x) x) = Ok code.
Proof.
  apply (to_iso3_elementwise None two_names_bundle (fun x => x)).
  vm_compute. reflexivity.
Defined.

(** A resolved value is never the empty text: [_map] gives a text
    that is not empty, or the missing value. *)
Theorem _map_code_or_null _cc bundle x code :
  _map _cc bundle x = Ok code -> code_or_null code.
Proof.
  unfold _map. destruct (negb (str_truthy _)); [by intros [= <-]|].
  destruct (match _cc with None => _ | Some _ => _ end) as [c1|e]; [|done].
  cbn [mbind result_bind].
  destruct (if usable_code c1 then _ else _) as [c2|e]; [|done].
  cbn [mbind result_bind]. intros [= <-].
  destruct c2 as [|s| |]; try done. by destruct s.
Qed.

Lemma _map_code_or_null_witness : code_or_null (Str "KEN").
Proof.
  apply (_map_code_or_null None two_names_bundle (Str " Kenya ")).
  vm_compute. reflexivity.
Defined.

Lemma lstrip_chars_nil_iff p l : lstrip_chars p l = [] <-> forallb p l = true.
Proof.
  induction l as [|c l IH]; simpl; [done|].
  destruct (p c); simpl; [done|]. split; done.
Qed.

Lemma lstrip_chars_app_keep p l c :
  p c = false -> lstrip_chars p (l ++ [c]) <> [].
Proof.
  intros Hc. induction l as [|c' l IH]; simpl.
  - by rewrite Hc.
  - by destruct (p c').
Qed.

Lemma lstrip_chars_head p l c l' :
  lstrip_chars p l = c :: l' -> p c = false.
Proof.
  induction l as [|c0 l IH]; simpl; [done|].
  destruct (p c0) eqn:Hc0; [done|]. by intros [= -> _].
Qed.

Lemma string_of_list_ascii_nil l : string_of_list_ascii l = "" <-> l = [].
Proof. by destruct l. Qed.

(** Stripping leaves nothing exactly when the text is blank. *)
Lemma str_strip_empty_iff s : str_strip s = "" <-> blank s = true.
Proof.
  split; [|apply str_strip_blank].
  unfold str_strip, blank, rstrip_chars. rewrite string_of_list_ascii_nil.
  intros H. apply lstrip_chars_nil_iff.
  destruct (lstrip_chars chr_isspace (list_ascii_of_string s)) as [|c l] eqn:Hl;
    [done|].
  exfalso. pose proof (lstrip_chars_head _ _ _ _ Hl) as Hc.
  apply (f_equal (@rev ascii)) in H. rewrite rev_involutive in H. simpl in H.
  by apply (lstrip_chars_app_keep chr_isspace (rev l) c Hc).
Qed.

Lemma blank_lower s : blank (str_lower s) = blank s.
Proof.
  unfold blank, str_lower. rewrite list_ascii_of_string_of_list_ascii.
  induction (list_ascii_of_string s) as [|c l IH]; simpl; [done|].
  by rewrite chr_isspace_lower, IH.
Qed.

Lemma str_truthy_strip s : str_truthy (str_strip s) = negb (blank s).
Proof.
  destruct (blank s) eqn:Hb.
  - by rewrite (str_strip_blank s Hb).
  - destruct (str_strip s) eqn:Hs; [|done].
    apply str_strip_empty_iff in Hs. congruence.
Qed.

Lemma blank_empty s : blank s = false -> s <> "".
Proof. by intros H ->. Qed.

(** X9. The converter comes first: when it answers a name that is not
    blank with a text (alone or first in a list) that is not blank and is
    not the "not found" mark, that text is the result, and the bundle is
    not consulted, so that a missing or broken bundle does no harm. *)
Theorem _map_prefers_converter convert bundle s out code :
  blank s = false ->
  convert (str_strip s) = Ok out ->
  first_of_sequence out = PyStr code ->
  str_strip (str_lower code) ∉ ["not found"; "notfound"; ""] ->
  _map (Some convert) bundle (Str s) = Ok (Str code).
Proof.
  intros Hs Hconv Hfirst Hmark. unfold _map, convert_guarded.
  rewrite str_truthy_strip, Hs, Hconv. cbn [negb mbind result_bind].
  rewrite Hfirst. unfold drop_not_found.
  rewrite (bool_decide_false _ Hmark). cbn [usable_code].
  assert (blank code = false) as Hcode.
  { rewrite <- blank_lower. destruct (blank (str_lower code)) eqn:Hb; [|done].
    exfalso. apply Hmark. rewrite (str_strip_blank _ Hb).
    right. right. left. }
  rewrite str_truthy_strip, Hcode. cbn [negb mbind result_bind].
  pose proof (blank_empty _ Hcode). by destruct code.
Qed.

Lemma _map_prefers_converter_witness :
  _map sample_converter missing_bundle (Str " Kenya ") = Ok (Str "KEN").
Proof.
  apply (_map_prefers_converter _ missing_bundle " Kenya " (PySeq [PyStr "KEN"]));
    try reflexivity.
  apply (bool_decide_unpack _). vm_compute. exact I.
Defined.

(** X10. An answer of the converter that is no code counts for nothing:
    when it raises an [Exception], or returns [None], an empty list, or
    the "not found" mark in any letter case and with blanks around it,
    the result is what the bundle alone gives. *)
Theorem _map_ignores_unusable_answer convert bundle s :
  (exists e, convert (str_strip s) = Raise e /\ is_Exception (exn_cls e) = true)
  \/ convert (str_strip s) = Ok PyNone
  \/ convert (str_strip s) = Ok (PySeq [])
  \/ (exists t, convert (str_strip s) = Ok (PyStr t)
                /\ str_strip (str_lower t) ∈ ["not found"; "notfound"; ""]) ->
  _map (Some convert) bundle (Str s) = _map None bundle (Str s).
Proof.
  intros H. unfold _map, convert_guarded.
  destruct (negb (str_truthy (str_strip s))); [done|].
  destruct H as [(e & -> & ->)|[->|[->|(t & -> & Hmark)]]]; try done.
  cbn [mbind result_bind first_of_sequence drop_not_found].
  by rewrite (bool_decide_true _ Hmark).
Qed.

Lemma _map_ignores_unusable_answer_witness :
  _map sample_converter two_names_bundle (Str "Peru")
  = _map None two_names_bundle (Str "Peru").
Proof.
  destruct sample_converter as [convert|] eqn:Hc; [|discriminate].
  injection Hc as <-.
  apply _map_ignores_unusable_answer.
  right. right. right. exists " Not Found ". split; [reflexivity|].
  apply (bool_decide_unpack _). vm_compute. exact I.
Defined.

(** X11. Without an answer of the converter the bundle is needed, and a
    bundle that cannot be loaded is fatal: for a name with an
    alphanumeric character the exception of the loading is raised.  A
    name without any alphanumeric character resolves to the missing
    value before the bundle is loaded. *)
Theorem _map_needs_the_bundle e s :
  (str_truthy (_normalize_key (str_strip s)) = true ->
   _map None (Raise e) (Str s) = Raise e)
  /\ (str_truthy (_normalize_key (str_strip s)) = false ->
      forall bundle, _map None bundle (Str s) = Ok Null).
Proof.
  unfold _map. cbn [mbind result_bind usable_code _fallback_lookup].
  split; intros Hkey.
  - destruct (str_truthy (str_strip s)) eqn:Hs; cbn [negb].
    + by rewrite Hkey.
    + destruct (str_strip s); [|done]. done.
  - intros bundle. destruct (str_truthy (str_strip s)); cbn [negb]; [|done].
    by rewrite Hkey.
Qed.

Lemma _map_needs_the_bundle_witness :
  _map None missing_bundle (Str "Kenya")
  = Raise (Exn FileNotFoundError "_country_iso_fallback.json")
  /\ _map None missing_bundle (Str " -- ") = Ok Null.
Proof.
  destruct (_map_needs_the_bundle
              (Exn FileNotFoundError "_country_iso_fallback.json") "Kenya")
    as [Hraise _].
  destruct (_map_needs_the_bundle
              (Exn FileNotFoundError "_country_iso_fallback.json") " -- ")
    as [_ Hnull].
  split; [apply Hraise; reflexivity|apply Hnull; reflexivity].
Defined.

Lemma fallback_map_lookup_untouched (raw : list (string * string)) (key : string) :
  forall m0 : gmap string string,
    (forall n c, (n, c) ∈ raw -> _normalize_key n <> key) ->
    foldl (fun (m : gmap string string) (item : string * string) =>
             <[_normalize_key item.1 := item.2]> m) m0 raw !! key = m0 !! key.
Proof.
  induction raw as [|[n c] raw IH]; intros m0 Hno; simpl; [done|].
  rewrite IH by (intros n' c' Hin; apply (Hno n' c'); by right).
  apply lookup_insert_ne. apply (Hno n c). left.
Qed.

(** X12. When several bundled names have the same key, the item that
    comes last in the file decides: a name with that key resolves to the
    code of the last such item. *)
Theorem _fallback_lookup_last_item_wins
    (before after : list (string * string)) (n c name : string) :
  _normalize_key name = _normalize_key n ->
  str_truthy (_normalize_key n) = true ->
  (forall n' c', (n', c') ∈ after -> _normalize_key n' <> _normalize_key n) ->
  _fallback_lookup (Ok (before ++ (n, c) :: after)) (PyStr name) = Ok (PyStr c).
Proof.
  intros Hname Hkey Hlast. unfold _fallback_lookup, _fallback_iso_map.
  rewrite Hname, Hkey. cbn [negb mbind result_bind].
  rewrite foldl_app. cbn [foldl].
  rewrite (fallback_map_lookup_untouched after _ _ Hlast).
  cbn [fst snd]. by rewrite lookup_insert_eq.
Qed.

Lemma _fallback_lookup_last_item_wins_witness :
  _fallback_lookup (Ok colliding_bundle) (PyStr "ivory coast") = Ok (PyStr "IVC").
Proof.
  apply (_fallback_lookup_last_item_wins
           [("Ivory Coast", "CIV"); ("Kenya", "KEN")] [] "IVORY-COAST" "IVC"
           "ivory coast").
  - reflexivity.
  - reflexivity.
  - intros n' c' Hin. by apply elem_of_nil in Hin.
Defined.

(** X13. A name that no bundled name shares its key with resolves to the
    missing value when the converter is not installed. *)
Theorem _map_unknown_name raw s :
  (forall n c, (n, c) ∈ raw -> _normalize_key n <> _normalize_key (str_strip s)) ->
  _map None (Ok raw) (Str s) = Ok Null.
Proof.
  intros Hno. unfold _map. destruct (negb (str_truthy (str_strip s))); [done|].
  cbn [mbind result_bind usable_code _fallback_lookup].
  destruct (negb (str_truthy (_normalize_key (str_strip s)))); [done|].
  unfold _fallback_iso_map. cbn [mbind result_bind].
  by rewrite (fallback_map_lookup_untouched raw _ ∅ Hno).
Qed.

Lemma _map_unknown_name_witness :
  _map None (Ok [("Kenya", "KEN"); ("Peru", "PER")]) (Str "Atlantis") = Ok Null.
Proof.
  apply _map_unknown_name. intros n c Hin.
  apply elem_of_cons in Hin as [[= -> ->]|Hin]; [by vm_compute|].
  apply elem_of_cons in Hin as [[= -> ->]|Hin]; [by vm_compute|].
  by apply elem_of_nil in Hin.
Defined.

(** ** [clean] *)

(** X14. [clean] refuses a table without [country_iso3] or without
    [year] with a [ValueError] that names the column, the code first. *)
Theorem clean_requires_code_and_year df :
  (has_column df "country_iso3" = false ->
   clean df
   = Raise (Exn ValueError
       "Missing required column 'country_iso3'. Check your columns.yaml mapping and ingest step."))
  /\ (has_column df "country_iso3" = true -> has_column df "year" = false ->
      clean df
      = Raise (Exn ValueError
          "Missing required column 'year'. Check your columns.yaml mapping and ingest step.")).
Proof.
  unfold clean. cbn [List.filter]. split.
  - intros ->. cbn [negb]. reflexivity.
  - intros -> ->. cbn [negb]. reflexivity.
Qed.

Lemma clean_requires_code_and_year_witness :
  clean no_code_column
  = Raise (Exn ValueError
      "Missing required column 'country_iso3'. Check your columns.yaml mapping and ingest step.")
  /\ clean no_year_column
     = Raise (Exn ValueError
         "Missing required column 'year'. Check your columns.yaml mapping and ingest step.").
Proof.
  split.
  - apply (proj1 (clean_requires_code_and_year no_code_column)). reflexivity.
  - apply (proj2 (clean_requires_code_and_year no_year_column)); reflexivity.
Defined.

Lemma clean_Ok df res :
  clean df = Ok res ->
  exists required subset,
    positions (columns df) ["country_iso3"; "year"] = Ok required
    /\ positions (columns df)
         (List.filter (fun c => negb (bool_decide (c = "sex"))) (columns df))
       = Ok subset
    /\ res = Frame (columns df)
                   (drop_duplicates subset (dropna required (rows df))).
Proof.
  unfold clean.
  destruct (List.filter _ ["country_iso3"; "year"]) as [|c l]; [|done].
  destruct (positions (columns df) ["country_iso3"; "year"]) as [required|e];
    [|done].
  cbn [mbind result_bind].
  destruct (positions (columns df) (List.filter _ (columns df))) as [subset|e];
    [|done].
  cbn [mbind result_bind]. intros [= <-]. by exists required, subset.
Qed.

Lemma unflagged_cons r rs b flags :
  unflagged (r :: rs) (b :: flags)
  = if b then unflagged rs flags else r :: unflagged rs flags.
Proof. unfold unflagged. simpl. by destruct b. Qed.

Lemma unflagged_sublist rs flags : unflagged rs flags `sublist_of` rs.
Proof.
  revert flags. induction rs as [|r rs IH]; intros [|b flags];
    try apply sublist_nil_l.
  rewrite unflagged_cons. destruct b.
  - by apply sublist_cons.
  - by apply sublist_skip.
Qed.

Lemma filter_sublist {A} (f : A -> bool) l : List.filter f l `sublist_of` l.
Proof.
  induction l as [|x l IH]; simpl; [done|].
  destruct (f x); [by apply sublist_skip|by apply sublist_cons].
Qed.

(** X15. [clean] only removes records: the columns stay, the records
    kept are records of the table, unchanged and in their order, and
    each of them has a country code and a year. *)
Theorem clean_keeps_complete_records df res :
  clean df = Ok res ->
  columns res = columns df
  /\ rows res `sublist_of` rows df
  /\ forall r c i,
       r ∈ rows res -> c ∈ ["country_iso3"; "year"] ->
       col_index (columns df) c = Some i -> cell_at r i <> Null.
Proof.
  intros H. apply clean_Ok in H as (required & subset & Hreq & _ & ->).
  cbn [columns rows]. split; [done|]. split.
  - etransitivity; [apply unflagged_sublist|apply filter_sublist].
  - intros r c i Hr Hc Hi.
    assert (r ∈ dropna required (rows df)) as Hkept.
    { eapply elem_of_sublist; [exact Hr|apply unflagged_sublist]. }
    apply list_elem_of_In, filter_In in Hkept as [_ Hfull].
    rewrite forallb_forall in Hfull.
    apply positions_Ok in Hreq.
    apply list_elem_of_lookup_1 in Hc as [j Hj].
    destruct (Forall2_lookup_l _ _ _ _ _ Hreq Hj) as (i' & Hi' & Hci).
    rewrite Hi in Hci. injection Hci as <-.
    intros Hnull. specialize (Hfull (cell_at r i)).
    rewrite Hnull in Hfull. cbn in Hfull.
    assert (false = true); [|done]. apply Hfull.
    rewrite <- Hnull. apply in_map, list_elem_of_In.
    by eapply list_elem_of_lookup_2.
Qed.

Lemma clean_keeps_complete_records_witness :
  columns tidy = columns untidy
  /\ rows tidy `sublist_of` rows untidy
  /\ forall r c i,
       r ∈ rows tidy -> c ∈ ["country_iso3"; "year"] ->
       col_index (columns untidy) c = Some i -> cell_at r i <> Null.
Proof.
  apply clean_keeps_complete_records. vm_compute. reflexivity.
Defined.

Lemma filter_all {A} (f : A -> bool) l :
  (forall x, x ∈ l -> f x = true) -> List.filter f l = l.
Proof.
  induction l as [|x l IH]; simpl; intros H; [done|].
  rewrite (H x) by left. f_equal. apply IH. intros y Hy. apply H. by right.
Qed.

Lemma duplicated_from_same_seen idx rs :
  forall seen seen',
    (forall k, k ∈ seen <-> k ∈ seen') ->
    duplicated_from seen idx rs = duplicated_from seen' idx rs.
Proof.
  induction rs as [|r rs IH]; intros seen seen' Hsame; [done|].
  cbn [duplicated_from]. f_equal.
  - apply bool_decide_ext, Hsame.
  - apply IH. intros k. rewrite !elem_of_cons, Hsame. done.
Qed.

Lemma drop_duplicates_from_idempotent idx rs :
  forall seen,
    unflagged (unflagged rs (duplicated_from seen idx rs))
              (duplicated_from seen idx (unflagged rs (duplicated_from seen idx rs)))
    = unflagged rs (duplicated_from seen idx rs).
Proof.
  induction rs as [|r rs IH]; intros seen; [done|].
  cbn [duplicated_from]. rewrite unflagged_cons.
  case_bool_decide as Hseen.
  - rewrite (duplicated_from_same_seen idx rs (project idx r :: seen) seen).
    + apply IH.
    + intros k. rewrite elem_of_cons. split; [intros [->|?]; done|by right].
  - cbn [duplicated_from]. rewrite unflagged_cons.
    rewrite (bool_decide_false _ Hseen). f_equal. apply IH.
Qed.

(** X16. [clean] is idempotent: cleaning a cleaned table gives it back. *)
Theorem clean_idempotent df res :
  clean df = Ok res -> clean res = Ok res.
Proof.
  intros H. pose proof H as H0.
  apply clean_Ok in H as (required & subset & Hreq & Hsub & ->).
  unfold clean. cbn [columns rows].
  assert (List.filter (fun c => negb (has_column
            (Frame (columns df) (drop_duplicates subset (dropna required (rows df)))) c))
            ["country_iso3"; "year"] = []) as ->.
  { unfold clean in H0. unfold has_column in *. cbn [columns].
    by destruct (List.filter _ ["country_iso3"; "year"]). }
  rewrite Hreq. cbn [mbind result_bind]. rewrite Hsub. cbn [mbind result_bind].
  do 2 f_equal.
  assert (dropna required (drop_duplicates subset (dropna required (rows df)))
          = drop_duplicates subset (dropna required (rows df))) as ->.
  { apply filter_all. intros r Hr.
    assert (r ∈ dropna required (rows df)) as Hkept.
    { eapply elem_of_sublist; [exact Hr|apply unflagged_sublist]. }
    by apply list_elem_of_In, filter_In in Hkept as [_ Hfull]. }
  apply drop_duplicates_from_idempotent.
Qed.

Lemma clean_idempotent_witness : clean tidy = Ok tidy.
Proof. apply (clean_idempotent untidy). vm_compute. reflexivity. Defined.

(** ** [join_external] *)

Lemma merge_keys_first_missing left_cols right_cols before key after :
  NoDup left_cols -> NoDup right_cols ->
  Forall (fun c => c ∈ left_cols /\ c ∈ right_cols) before ->
  (key ∉ left_cols) \/ (key ∉ right_cols) ->
  merge_keys left_cols right_cols (before ++ key :: after)
  = Raise (Exn KeyError key).
Proof.
  intros Hl Hr Hbefore Hkey.
  induction Hbefore as [|c before [Hcl Hcr] _ IH]; cbn [app merge_keys].
  - destruct (decide (key ∈ right_cols)) as [Hin|Hnot].
    + destruct (label_position_NoDup _ _ Hr Hin) as [j ->].
      cbn [mbind result_bind]. destruct Hkey as [Hkey|Hkey]; [|done].
      by rewrite (label_position_missing _ _ Hkey).
    + by rewrite (label_position_missing _ _ Hnot).
  - destruct (label_position_NoDup _ _ Hr Hcr) as [j ->].
    destruct (label_position_NoDup _ _ Hl Hcl) as [i ->].
    cbn [mbind result_bind]. by rewrite IH.
Qed.

(** X17. [join_external] looks the keys up one by one, in their order:
    on two tables with distinct labels, the first key that is not a
    column of both tables is a [KeyError] with that key, whichever of
    the two tables lacks it and whatever the keys after it are. *)
Theorem join_external_missing_key base external before key after :
  NoDup (columns base) -> NoDup (columns external) ->
  Forall (fun c => c ∈ columns base /\ c ∈ columns external) before ->
  (key ∉ columns base) \/ (key ∉ columns external) ->
  join_external base external (before ++ key :: after)
  = Raise (Exn KeyError key).
Proof.
  intros Hb He Hbefore Hkey. unfold join_external, merge.
  rewrite (merge_keys_first_missing _ _ before key after Hb He Hbefore Hkey).
  by destruct before.
Qed.

Lemma join_external_missing_key_witness :
  join_external one_country external_two_rows ["country_iso3"; "year"; "gdp"]
  = Raise (Exn KeyError "year")
  /\ join_external one_country external_two_rows ["gdp"; "year"]
     = Raise (Exn KeyError "gdp").
Proof.
  split.
  - apply (join_external_missing_key one_country external_two_rows
             ["country_iso3"] "year" ["gdp"]).
    + apply (bool_decide_unpack _). vm_compute. exact I.
    + apply (bool_decide_unpack _). vm_compute. exact I.
    + apply (bool_decide_unpack _). vm_compute. exact I.
    + right. apply (bool_decide_unpack _). vm_compute. exact I.
  - apply (join_external_missing_key one_country external_two_rows
             [] "gdp" ["year"]).
    + apply (bool_decide_unpack _). vm_compute. exact I.
    + apply (bool_decide_unpack _). vm_compute. exact I.
    + constructor.
    + left. apply (bool_decide_unpack _). vm_compute. exact I.
Defined.

Lemma matching_unique_key ri (rs : list (list cell)) (k : list cell) :
  NoDup (map (project ri) rs) -> (length (matching ri k rs) <= 1)%nat.
Proof.
  induction rs as [|r rs IH]; intros Hnd; [simpl; lia|].
  simpl in Hnd. apply NoDup_cons in Hnd as [Hr Hnd].
  unfold matching in *. cbn [List.filter]. case_bool_decide as Hk.
  - assert (List.filter (fun r0 => bool_decide (project ri r0 = k)) rs = []) as ->.
    { apply filter_nil_iff. intros r' Hr'. apply bool_decide_eq_false.
      intros Hk'. apply Hr. apply list_elem_of_fmap. exists r'.
      split; [congruence|done]. }
    simpl. lia.
  - by apply IH.
Qed.

(** X18. When no two rows of the external table have the same key, the
    join keeps the base table row for row: the result has as many rows
    as the base table, and the left part of each is the base record at
    that position. *)
Theorem join_external_unique_external_keys base external on res ri :
  frame_wf base ->
  positions (columns external) on = Ok ri ->
  NoDup (map (project ri) (rows external)) ->
  join_external base external on = Ok res ->
  map (take (length (columns base))) (rows res) = rows base
  /\ length (rows res) = length (rows base).
Proof.
  intros Hwf Hri Hnd Hjoin. unfold join_external in Hjoin.
  apply merge_Ok in Hjoin as (li & ri' & _ & Hli & Hri' & _ & Hrows).
  rewrite Hri in Hri'. injection Hri' as <-. rewrite app_nil_r in Hrows.
  assert (map (take (length (columns base))) (rows res) = rows base) as Hleft.
  { rewrite Hrows, (merge_left_rows_left_parts (length (columns base))) by done.
    clear Hrows Hwf. induction (rows base) as [|b bs IH]; [done|].
    cbn [flat_map]. rewrite IH.
    pose proof (matching_unique_key ri (rows external) (project li b) Hnd) as Hle.
    destruct (length (matching ri (project li b) (rows external))) as [|[|n]];
      simpl; [done|done|lia]. }
  split; [done|]. by rewrite <- Hleft, length_map.
Qed.

Lemma join_external_unique_external_keys_witness :
  exists res,
    join_external two_countries external_by_code ["country_iso3"] = Ok res
    /\ map (take (length (columns two_countries))) (rows res) = rows two_countries
    /\ length (rows res) = length (rows two_countries).
Proof.
  eexists. split; [vm_compute; reflexivity|].
  apply (join_external_unique_external_keys two_countries external_by_code
           ["country_iso3"] _ [0%nat]).
  - repeat constructor.
  - reflexivity.
  - apply (bool_decide_unpack _). vm_compute. exact I.
  - vm_compute. reflexivity.
Defined.

(** ** [gender_gap] *)

(** X19. A table that has neither a [sex] column with an indicator nor a
    [*_male] column with its [*_female] sibling makes [gender_gap] raise
    its [ValueError]: no empty table is returned. *)
Theorem gender_gap_without_signal df :
  long_signal df = false -> wide_signal df = false ->
  gender_gap df
  = Raise (Exn ValueError
      "Sex-stratified columns not found. Provide 'sex' column or *_male/*_female pairs.").
Proof.
  intros Hlong Hwide. unfold gender_gap, gap_parts.
  rewrite (long_pass_without_signal df Hlong). cbn [mbind result_bind].
  by rewrite (wide_pass_without_pairs df _ Hwide).
Qed.

Lemma gender_gap_without_signal_witness :
  gender_gap totals_only
  = Raise (Exn ValueError
      "Sex-stratified columns not found. Provide 'sex' column or *_male/*_female pairs.").
Proof. apply gender_gap_without_signal; reflexivity. Defined.

(** X20. The table [gender_gap] returns has the three key columns and
    then at least one gap column; the gap columns have distinct names
    that end in [_gap_fm]; every row has one cell per column. *)
Theorem gender_gap_result_schema df res :
  gender_gap df = Ok res ->
  exists gs,
    columns res = keys ++ gs
    /\ gs <> []
    /\ NoDup gs
    /\ Forall (fun g => str_endswith "_gap_fm" g = true) gs
    /\ frame_wf res.
Proof.
  unfold gender_gap. destruct (gap_parts df) as [parts|e] eqn:Hparts; [|done].
  cbn [mbind result_bind]. intros Hres.
  destruct (gap_parts_ok df parts Hparts) as (st & gs & -> & Hout & Hnd & _ & Hend).
  assert (out st <> []) as Hne by (intros Hnil; by rewrite Hnil in Hres).
  destruct (merge_gaps_outer (out st) gs Hne Hout Hnd)
    as (res' & Hres' & Hcols & Hwf & _).
  { eapply Forall_impl; [exact Hend|]. intros g. apply gap_name_not_key. }
  rewrite Hres in Hres'. injection Hres' as <-.
  exists gs. split; [done|]. split; [|done].
  intros ->. inversion Hout as [Hnil|]. by apply Hne.
Qed.

Lemma gender_gap_result_schema_witness :
  exists res,
    gender_gap two_indicators = Ok res
    /\ exists gs,
         columns res = keys ++ gs
         /\ gs <> []
         /\ NoDup gs
         /\ Forall (fun g => str_endswith "_gap_fm" g = true) gs
         /\ frame_wf res.
Proof.
  eexists. split; [vm_compute; reflexivity|].
  apply (gender_gap_result_schema two_indicators). vm_compute. reflexivity.
Defined.

Lemma substring_prefix_app (s t : string) :
  String.substring 0 (String.length s) (s +:+ t) = s.
Proof.
  induction s as [|c s IH]; simpl.
  - by destruct t.
  - by rewrite IH.
Qed.

Lemma str_drop_last_app (base suffix : string) :
  str_drop_last (String.length suffix) (base +:+ suffix) = base.
Proof.
  unfold str_drop_last. rewrite string_length_app.
  replace (String.length base + String.length suffix - String.length suffix)%nat
    with (String.length base) by lia.
  apply substring_prefix_app.
Qed.

(** For a column [<base>_male] whose base does not end in an
    underscore, the sibling looked for is [<base>_female] and the gap
    column is named [<base>_gap_fm]. *)
Theorem wide_names_of_base base :
  str_endswith "_" base = false ->
  str_endswith "_male" (base +:+ "_male") = true
  /\ female_sibling (base +:+ "_male") = base +:+ "_female"
  /\ wide_gap_name (base +:+ "_male") = base +:+ "_gap_fm".
Proof.
  intros Hbase. split; [apply str_endswith_app|].
  assert (str_drop_last 5 (base +:+ "_male") = base) as Hdrop
    by apply (str_drop_last_app base "_male").
  unfold female_sibling, wide_gap_name.
  rewrite Hdrop, Hbase. split; [done|].
  by destruct (str_truthy base).
Qed.

Lemma wide_names_of_base_witness :
  str_endswith "_male" ("dep" +:+ "_male") = true
  /\ female_sibling ("dep" +:+ "_male") = "dep" +:+ "_female"
  /\ wide_gap_name ("dep" +:+ "_male") = "dep" +:+ "_gap_fm".
Proof. apply wide_names_of_base. reflexivity. Defined.

Lemma wide_rows_Forall2 ki fi mi (rs : list (list cell)) gaps :
  length ki = length keys ->
  result_mapM (fun fm : cell * cell => cell_sub fm.1 fm.2)
    (zip (map (fun r => cell_at r fi) rs) (map (fun r => cell_at r mi) rs))
  = Ok gaps ->
  Forall2 (fun r r' =>
             r' = project ki r ++ [cell_at r' (length keys)]
             /\ cell_sub (cell_at r fi) (cell_at r mi)
                = Ok (cell_at r' (length keys)))
          rs
          (zip_with (fun k g => k ++ [g]) (map (project ki) rs) gaps).
Proof.
  intros Hki. revert gaps. induction rs as [|r rs IH]; intros gaps Hgaps.
  - constructor.
  - cbn [map zip zip_with result_mapM] in Hgaps.
    cbn [fst snd] in Hgaps.
    destruct (cell_sub (cell_at r fi) (cell_at r mi)) as [g|e] eqn:Hg; [|done].
    destruct (result_mapM _ _) as [gs|e] eqn:Hgs; [|done].
    injection Hgaps as <-. cbn [map zip_with]. constructor; [|by apply IH].
    assert (cell_at (project ki r ++ [g]) (length keys) = g) as Hlast.
    { rewrite <- Hki, <- (length_map (cell_at r) ki). apply cell_at_app_last. }
    by rewrite Hlast.
Qed.

(** X21. On a table without a [sex] column whose only [*_male] column
    has its [*_female] sibling, [gender_gap] returns one row per row of
    the table, in the same order: the three key cells of the row and the
    female value minus the male value (missing when either is). *)
Theorem gender_gap_wide_pair df male_col res ki fi mi :
  has_column df "sex" = false ->
  male_cols df = [male_col] ->
  positions (columns df) keys = Ok ki ->
  col_index (columns df) (female_sibling male_col) = Some fi ->
  col_index (columns df) male_col = Some mi ->
  gender_gap df = Ok res ->
  columns res = keys ++ [wide_gap_name male_col]
  /\ Forall2 (fun r r' =>
                r' = project ki r ++ [cell_at r' (length keys)]
                /\ cell_sub (cell_at r fi) (cell_at r mi)
                   = Ok (cell_at r' (length keys)))
             (rows df) (rows res).
Proof.
  intros Hsex Hcols Hki Hfi Hmi.
  unfold gender_gap, gap_parts, long_pass, wide_pass.
  rewrite Hsex, Hcols. cbn [mbind result_bind result_foldM].
  unfold wide_step. fold (female_sibling male_col).
  rewrite (proj2 (has_column_true df _) (col_index_elem_of _ _ _ Hfi)).
  cbn [negb produced].
  rewrite bool_decide_false by apply not_elem_of_empty.
  unfold df_select, column_values. rewrite Hki, Hfi, Hmi.
  cbn [mbind result_bind].
  destruct (result_mapM _ _) as [gaps|e] eqn:Hgaps; [|done].
  cbn [mbind result_bind out app merge_gaps result_foldM]. intros [= <-].
  pose proof (gap_name_not_key _ (wide_gap_name_endswith male_col)) as Hnot.
  assert (col_index keys (wide_gap_name male_col) = None) as Hnone.
  { destruct (col_index keys (wide_gap_name male_col)) eqn:Hi; [|done].
    exfalso. by eapply Hnot, col_index_elem_of. }
  unfold set_column, set_cell. cbn [columns rows]. rewrite Hnone.
  split; [done|].
  apply wide_rows_Forall2; [|done]. apply (positions_length _ _ _ Hki).
Qed.

Lemma gender_gap_wide_pair_witness :
  exists res,
    gender_gap one_pair = Ok res
    /\ columns res = keys ++ [wide_gap_name "dep_male"]
    /\ Forall2 (fun r r' =>
                  r' = project [0; 1; 2]%nat r ++ [cell_at r' (length keys)]
                  /\ cell_sub (cell_at r 4) (cell_at r 3)
                     = Ok (cell_at r' (length keys)))
               (rows one_pair) (rows res).
Proof.
  eexists. split; [vm_compute; reflexivity|].
  apply (gender_gap_wide_pair one_pair "dep_male" _ [0; 1; 2]%nat 4 3);
    reflexivity.
Defined.

(** The wide table with one pair: a gap of 6, and no gap where the
    female value is missing. *)
Example gender_gap_one_pair :
  gender_gap one_pair
  = Ok (Frame ["country"; "country_iso3"; "year"; "dep_gap_fm"]
              [[Str "Kenya"; Str "KEN"; num 2020; num 6];
               [Str "Peru"; Str "PER"; num 2020; Null]]).
Proof. apply (bool_decide_unpack _). vm_compute. exact I. Qed.

(** ** [ingest_csv] *)

Lemma set_column_columns df c vs :
  columns (set_column df c vs)
  = if has_column df c then columns df else columns df ++ [c].
Proof.
  unfold set_column. cbn [columns].
  destruct (col_index (columns df) c) as [i|] eqn:Hi.
  - by rewrite (proj2 (has_column_true df c) (col_index_elem_of _ _ _ Hi)).
  - destruct (has_column df c) eqn:Hc; [|done].
    apply has_column_true, col_index_is_Some in Hc as [j Hj]. congruence.
Qed.

Lemma set_column_size n df c vs :
  length vs = n -> frame_of_size n df -> frame_of_size n (set_column df c vs).
Proof.
  intros Hvs [Hwf Hn]. split; [by apply set_column_wf|].
  cbn [set_column rows]. rewrite length_zip_with. lia.
Qed.

Lemma column_is_set_other df c c' vs vs' :
  c <> c' -> length vs' = length (rows df) ->
  column_is df c vs -> column_is (set_column df c' vs') c vs.
Proof.
  intros Hc Hlen [Hwf Hcol]. split; [by apply set_column_wf|].
  by apply column_values_set_other.
Qed.

Lemma column_is_set_same df c vs :
  frame_wf df -> length vs = length (rows df) ->
  column_is (set_column df c vs) c vs.
Proof.
  intros Hwf Hlen. split; [by apply set_column_wf|].
  by apply column_values_set_same.
Qed.

Lemma derive_total_size n df df' :
  derive_total df = Ok df' -> frame_of_size n df -> frame_of_size n df'.
Proof.
  unfold derive_total. destruct (_ && _); [|by intros [= <-]].
  destruct (mean_axis1 df _) as [total|e] eqn:Hmean; [|done].
  cbn [mbind result_bind]. intros [= <-] Hsize. apply set_column_size; [|done].
  unfold mean_axis1 in Hmean.
  destruct (positions (columns df) _) as [idx|e]; [|done].
  cbn [mbind result_bind] in Hmean. destruct (existsb _ _); [done|].
  injection Hmean as <-. rewrite length_map. apply Hsize.
Qed.

Lemma derive_total_column df df' c vs :
  c <> "prevalence_total" ->
  derive_total df = Ok df' -> column_is df c vs -> column_is df' c vs.
Proof.
  intros Hc. unfold derive_total. destruct (_ && _); [|by intros [= <-]].
  destruct (mean_axis1 df _) as [total|e] eqn:Hmean; [|done].
  cbn [mbind result_bind]. intros [= <-]. apply column_is_set_other; [done|].
  unfold mean_axis1 in Hmean.
  destruct (positions (columns df) _) as [idx|e]; [|done].
  cbn [mbind result_bind] in Hmean. destruct (existsb _ _); [done|].
  injection Hmean as <-. apply length_map.
Qed.

Lemma df_select_size n df names df' :
  df_select df names = Ok df' -> frame_of_size n df -> frame_of_size n df'.
Proof.
  intros Hsel [_ Hn]. split; [by eapply df_select_wf|].
  by rewrite (df_select_rows_length _ _ _ Hsel).
Qed.

Lemma df_select_columns df names df' :
  df_select df names = Ok df' -> columns df' = names.
Proof.
  unfold df_select. destruct (positions (columns df) names); [|done].
  cbn [mbind result_bind]. by intros [= <-].
Qed.

Lemma coerce_year_size parse n df df' :
  coerce_year parse df = Ok df' ->
  frame_of_size n df -> frame_of_size n df' /\ columns df' = columns df.
Proof.
  unfold coerce_year. destruct (has_column df "year") eqn:Hy;
    [|by intros [= <-]].
  destruct (column_values df "year") as [ys|e] eqn:Hys; [|done].
  cbn [mbind result_bind].
  destruct (result_mapM _ ys) as [ys'|e] eqn:Hm; [|done].
  cbn [mbind result_bind]. intros [= <-] Hsize. split.
  - apply set_column_size; [|done].
    rewrite (result_mapM_length _ _ _ Hm), (column_values_length _ _ _ Hys).
    apply Hsize.
  - by rewrite set_column_columns, Hy.
Qed.

Lemma coerce_year_column parse df df' c vs :
  c <> "year" ->
  coerce_year parse df = Ok df' -> column_is df c vs -> column_is df' c vs.
Proof.
  intros Hc. unfold coerce_year. destruct (has_column df "year");
    [|by intros [= <-]].
  destruct (column_values df "year") as [ys|e] eqn:Hys; [|done].
  cbn [mbind result_bind].
  destruct (result_mapM _ ys) as [ys'|e] eqn:Hm; [|done].
  cbn [mbind result_bind]. intros [= <-]. apply column_is_set_other; [done|].
  rewrite (result_mapM_length _ _ _ Hm). by eapply column_values_length.
Qed.

Lemma coerce_prevalence_size parse n df col df' :
  coerce_prevalence parse df col = Ok df' ->
  frame_of_size n df -> frame_of_size n df' /\ columns df' = columns df.
Proof.
  unfold coerce_prevalence. destruct (has_column df col) eqn:Hcol;
    [|by intros [= <-]].
  destruct (column_values df col) as [vs|e] eqn:Hvs; [|done].
  cbn [mbind result_bind]. intros [= <-] Hsize. split.
  - apply set_column_size; [|done].
    rewrite length_map, (column_values_length _ _ _ Hvs). apply Hsize.
  - by rewrite set_column_columns, Hcol.
Qed.

Lemma coerce_prevalence_column parse df col df' c vs :
  c <> col ->
  coerce_prevalence parse df col = Ok df' -> column_is df c vs -> column_is df' c vs.
Proof.
  intros Hc. unfold coerce_prevalence. destruct (has_column df col);
    [|by intros [= <-]].
  destruct (column_values df col) as [ws|e] eqn:Hws; [|done].
  cbn [mbind result_bind]. intros [= <-]. apply column_is_set_other; [done|].
  rewrite length_map. by eapply column_values_length.
Qed.

Lemma coerce_prevalences_size parse n cols :
  forall df df',
    result_foldM (coerce_prevalence parse) df cols = Ok df' ->
    frame_of_size n df -> frame_of_size n df' /\ columns df' = columns df.
Proof.
  induction cols as [|col cols IH]; cbn [result_foldM]; intros df df'.
  - by intros [= <-].
  - destruct (coerce_prevalence parse df col) as [df1|e] eqn:H1; [|done].
    intros Hrest Hsize.
    destruct (coerce_prevalence_size _ _ _ _ _ H1 Hsize) as [Hsize1 Hcols1].
    destruct (IH _ _ Hrest Hsize1) as [Hsize' Hcols']. split; [done|congruence].
Qed.

Lemma coerce_prevalences_column parse c vs cols :
  c ∉ cols ->
  forall df df',
    result_foldM (coerce_prevalence parse) df cols = Ok df' ->
    column_is df c vs -> column_is df' c vs.
Proof.
  induction cols as [|col cols IH]; cbn [result_foldM]; intros Hc df df'.
  - by intros [= <-].
  - destruct (coerce_prevalence parse df col) as [df1|e] eqn:H1; [|done].
    apply not_elem_of_cons in Hc as [Hc Hcs].
    intros Hrest Hcol. eapply IH; [done|done|].
    by eapply coerce_prevalence_column.
Qed.

Lemma add_iso3_size _cc bundle astype_str n df df' :
  add_iso3 _cc bundle astype_str df = Ok df' ->
  frame_of_size n df ->
  frame_of_size n df'
  /\ (columns df' = columns df \/ columns df' = columns df ++ ["country_iso3"]).
Proof.
  unfold add_iso3. destruct (has_column df "country");
    [|intros [= <-]; by split; [|left]].
  destruct (column_values df "country") as [names|e] eqn:Hn; [|done].
  cbn [mbind result_bind].
  destruct (to_iso3 _ _ _ names) as [codes|e] eqn:Hc; [|done].
  cbn [mbind result_bind]. intros [= <-] Hsize. split.
  - apply set_column_size; [|done].
    unfold to_iso3 in Hc.
    rewrite (result_mapM_length _ _ _ Hc), (column_values_length _ _ _ Hn).
    apply Hsize.
  - rewrite set_column_columns. destruct (has_column df "country_iso3"); auto.
Qed.

Lemma add_iso3_column _cc bundle astype_str df df' c vs :
  c <> "country_iso3" ->
  add_iso3 _cc bundle astype_str df = Ok df' ->
  column_is df c vs -> column_is df' c vs.
Proof.
  intros Hc. unfold add_iso3. destruct (has_column df "country");
    [|by intros [= <-]].
  destruct (column_values df "country") as [names|e] eqn:Hn; [|done].
  cbn [mbind result_bind].
  destruct (to_iso3 _ _ _ names) as [codes|e] eqn:Hcodes; [|done].
  cbn [mbind result_bind]. intros [= <-]. apply column_is_set_other; [done|].
  unfold to_iso3 in Hcodes. rewrite (result_mapM_length _ _ _ Hcodes).
  by eapply column_values_length.
Qed.

(** The stages of [ingest_csv]. *)
Lemma ingest_csv_stages
    CANONICAL_COLUMNS canonicalize parse_number _cc bundle astype_str csv res :
  ingest_csv CANONICAL_COLUMNS canonicalize parse_number _cc bundle astype_str csv
  = Ok res ->
  exists df1 df2 df3 df4,
    derive_total (rename_columns (canonicalize (columns csv)) csv) = Ok df1
    /\ df_select df1 (List.filter (has_column df1) CANONICAL_COLUMNS) = Ok df2
    /\ coerce_year parse_number df2 = Ok df3
    /\ result_foldM (coerce_prevalence parse_number) df3 prevalence_columns = Ok df4
    /\ add_iso3 _cc bundle astype_str df4 = Ok res.
Proof.
  unfold ingest_csv.
  destruct (derive_total _) as [df1|e] eqn:H1; [|done]. cbn [mbind result_bind].
  destruct (df_select df1 _) as [df2|e] eqn:H2; [|done]. cbn [mbind result_bind].
  destruct (coerce_year parse_number df2) as [df3|e] eqn:H3; [|done].
  cbn [mbind result_bind].
  destruct (result_foldM _ df3 prevalence_columns) as [df4|e] eqn:H4; [|done].
  cbn [mbind result_bind]. intros H5. by exists df1, df2, df3, df4.
Qed.

(** X22. [ingest_csv] returns a table with one row per row of the CSV,
    every row with one cell per column, and no column outside the
    canonical vocabulary other than [country_iso3]. *)
Theorem ingest_csv_result_schema
    CANONICAL_COLUMNS canonicalize parse_number _cc bundle astype_str csv res :
  frame_wf csv ->
  ingest_csv CANONICAL_COLUMNS canonicalize parse_number _cc bundle astype_str csv
  = Ok res ->
  frame_wf res
  /\ length (rows res) = length (rows csv)
  /\ forall c, c ∈ columns res -> c ∈ CANONICAL_COLUMNS \/ c = "country_iso3".
Proof.
  intros Hwf Hingest.
  apply ingest_csv_stages in Hingest as (df1 & df2 & df3 & df4 & H1 & H2 & H3 & H4 & H5).
  assert (frame_of_size (length (rows csv))
            (rename_columns (canonicalize (columns csv)) csv)) as Hs0.
  { split; [by apply rename_columns_wf|done]. }
  pose proof (derive_total_size _ _ _ H1 Hs0) as Hs1.
  pose proof (df_select_size _ _ _ _ H2 Hs1) as Hs2.
  destruct (coerce_year_size _ _ _ _ H3 Hs2) as [Hs3 Hc3].
  destruct (coerce_prevalences_size _ _ _ _ _ H4 Hs3) as [Hs4 Hc4].
  destruct (add_iso3_size _ _ _ _ _ _ H5 Hs4) as [[Hwfres Hlen] Hc5].
  split; [done|]. split; [done|].
  assert (forall c, c ∈ columns df4 -> c ∈ CANONICAL_COLUMNS) as Hcanon.
  { intros c. rewrite Hc4, Hc3, (df_select_columns _ _ _ H2).
    intros Hc. by apply list_elem_of_In, filter_In in Hc as [Hc%list_elem_of_In _]. }
  intros c Hc. destruct Hc5 as [Hsame|Happ].
  - left. apply Hcanon. by rewrite <- Hsame.
  - rewrite Happ in Hc. apply elem_of_app in Hc as [Hc|Hc]; [left; by apply Hcanon|].
    right. by apply list_elem_of_singleton in Hc.
Qed.

Lemma ingest_csv_result_schema_witness :
  exists res,
    ingest_raw_export = Ok res
    /\ frame_wf res
    /\ length (rows res) = length (rows raw_export)
    /\ forall c, c ∈ columns res -> c ∈ spec_canonical_columns \/ c = "country_iso3".
Proof.
  eexists. split; [vm_compute; reflexivity|].
  apply (ingest_csv_result_schema spec_canonical_columns (fun _ => ∅)
           (fun _ => None) None two_names_bundle (fun x => x) raw_export).
  - repeat constructor.
  - vm_compute. reflexivity.
Defined.

(** X23. When [country] is a canonical column of the table, the column
    [country_iso3] of the result is [to_iso3] of its column [country],
    which is the column [country] of the renamed CSV, untouched. *)
Theorem ingest_csv_country_iso3
    CANONICAL_COLUMNS canonicalize parse_number _cc bundle astype_str csv res names :
  frame_wf csv ->
  "country" ∈ CANONICAL_COLUMNS ->
  column_values (rename_columns (canonicalize (columns csv)) csv) "country"
  = Ok names ->
  ingest_csv CANONICAL_COLUMNS canonicalize parse_number _cc bundle astype_str csv
  = Ok res ->
  exists codes,
    to_iso3 _cc bundle astype_str names = Ok codes
    /\ column_values res "country" = Ok names
    /\ column_values res "country_iso3" = Ok codes.
Proof.
  intros Hwf Hcanon Hnames Hingest.
  apply ingest_csv_stages in Hingest as (df1 & df2 & df3 & df4 & H1 & H2 & H3 & H4 & H5).
  assert (column_is (rename_columns (canonicalize (columns csv)) csv) "country" names)
    as Hc0 by (split; [by apply rename_columns_wf|done]).
  pose proof (derive_total_column _ _ "country" names ltac:(done) H1 Hc0) as Hc1.
  assert (column_is df2 "country" names) as Hc2.
  { split; [by eapply df_select_wf|].
    eapply column_values_select; [done| |apply Hc1].
    apply list_elem_of_In, filter_In. split; [by apply list_elem_of_In|].
    apply has_column_true. destruct Hc1 as [_ Hcol]. unfold column_values in Hcol.
    destruct (col_index (columns df1) "country") eqn:Hi; [|done].
    by eapply col_index_elem_of. }
  pose proof (coerce_year_column _ _ _ "country" names ltac:(done) H3 Hc2) as Hc3.
  assert (column_is df4 "country" names) as [Hwf4 Hc4].
  { eapply coerce_prevalences_column; [|done|done].
    apply (bool_decide_unpack _). vm_compute. exact I. }
  unfold add_iso3 in H5.
  assert (has_column df4 "country" = true) as Hhas.
  { apply has_column_true. unfold column_values in Hc4.
    destruct (col_index (columns df4) "country") eqn:Hi; [|done].
    by eapply col_index_elem_of. }
  rewrite Hhas, Hc4 in H5. cbn [mbind result_bind] in H5.
  destruct (to_iso3 _cc bundle astype_str names) as [codes|e] eqn:Hcodes; [|done].
  cbn [mbind result_bind] in H5. injection H5 as <-.
  assert (length codes = length (rows df4)) as Hlen.
  { unfold to_iso3 in Hcodes. rewrite (result_mapM_length _ _ _ Hcodes).
    by eapply column_values_length. }
  exists codes. split; [done|]. split.
  - by apply column_values_set_other.
  - by apply column_values_set_same.
Qed.

Lemma ingest_csv_country_iso3_witness :
  exists res codes,
    ingest_halves_only = Ok res
    /\ to_iso3 None two_names_bundle (fun x => x) [Str "Kenya"; Str "Peru"] = Ok codes
    /\ column_values res "country" = Ok [Str "Kenya"; Str "Peru"]
    /\ column_values res "country_iso3" = Ok codes.
Proof.
  assert (exists res, ingest_halves_only = Ok res) as [res Hres]
    by (eexists; vm_compute; reflexivity).
  destruct (ingest_csv_country_iso3 spec_canonical_columns (fun _ => ∅)
              (fun _ => None) None two_names_bundle (fun x => x) halves_only
              res [Str "Kenya"; Str "Peru"]) as (codes & H1 & H2 & H3).
  - repeat constructor.
  - apply (bool_decide_unpack _). vm_compute. exact I.
  - reflexivity.
  - exact Hres.
  - exists res, codes. split; [exact Hres|]. by split.
Defined.

Lemma astype_Int64_integer parse y v :
  astype_Int64 (to_numeric parse y) = Ok v -> integer_or_null v.
Proof.
  unfold astype_Int64. destruct (to_numeric parse y) as [|q|s] eqn:Hy.
  - by intros [= <-].
  - case_bool_decide as Hden; [|done]. by intros [= <-].
  - destruct y as [|?|t]; try done. simpl in Hy. by destruct (parse t).
Qed.

(** X24. The years of the table [ingest_csv] returns are whole numbers
    or missing: a year that is no number becomes missing, and a year
    with a fractional part makes the ingestion fail. *)
Theorem ingest_csv_years_are_integers
    CANONICAL_COLUMNS canonicalize parse_number _cc bundle astype_str csv res :
  frame_wf csv ->
  has_column res "year" = true ->
  ingest_csv CANONICAL_COLUMNS canonicalize parse_number _cc bundle astype_str csv
  = Ok res ->
  exists years,
    column_values res "year" = Ok years /\ Forall integer_or_null years.
Proof.
  intros Hwf Hyear Hingest.
  apply ingest_csv_stages in Hingest as (df1 & df2 & df3 & df4 & H1 & H2 & H3 & H4 & H5).
  assert (frame_of_size (length (rows csv))
            (rename_columns (canonicalize (columns csv)) csv)) as Hs0.
  { split; [by apply rename_columns_wf|done]. }
  pose proof (derive_total_size _ _ _ H1 Hs0) as Hs1.
  pose proof (df_select_size _ _ _ _ H2 Hs1) as Hs2.
  destruct (coerce_year_size _ _ _ _ H3 Hs2) as [Hs3 Hc3].
  destruct (coerce_prevalences_size _ _ _ _ _ H4 Hs3) as [Hs4 Hc4].
  destruct (add_iso3_size _ _ _ _ _ _ H5 Hs4) as [_ Hc5].
  assert (has_column df2 "year" = true) as Hy2.
  { apply has_column_true. rewrite <- Hc3, <- Hc4.
    apply has_column_true in Hyear. destruct Hc5 as [<-|Happ]; [done|].
    rewrite Happ in Hyear. apply elem_of_app in Hyear as [?|Hy]; [done|].
    by apply list_elem_of_singleton in Hy. }
  unfold coerce_year in H3. rewrite Hy2 in H3.
  destruct (column_values df2 "year") as [ys|e] eqn:Hys; [|done].
  cbn [mbind result_bind] in H3.
  destruct (result_mapM _ ys) as [years|e] eqn:Hm; [|done].
  cbn [mbind result_bind] in H3. injection H3 as <-.
  exists years. split.
  - assert (column_is (set_column df2 "year" years) "year" years) as Hcol3.
    { apply column_is_set_same; [apply Hs2|].
      rewrite (result_mapM_length _ _ _ Hm). by eapply column_values_length. }
    assert (column_is df4 "year" years) as Hcol4.
    { eapply coerce_prevalences_column; [|done|done].
      apply (bool_decide_unpack _). vm_compute. exact I. }
    by apply (add_iso3_column _ _ _ _ _ "year" years ltac:(done) H5).
  - apply result_mapM_Forall2 in Hm.
    clear -Hm. induction Hm as [|y v ys vs Hv _ IH]; constructor; [|done].
    by eapply astype_Int64_integer.
Qed.

Lemma ingest_csv_years_are_integers_witness :
  exists res years,
    ingest_raw_export = Ok res
    /\ column_values res "year" = Ok years /\ Forall integer_or_null years.
Proof.
  assert (exists res, ingest_raw_export = Ok res /\ has_column res "year" = true)
    as (res & Hres & Hyear)
    by (eexists; split; [vm_compute; reflexivity|reflexivity]).
  destruct (ingest_csv_years_are_integers spec_canonical_columns (fun _ => ∅)
              (fun _ => None) None two_names_bundle (fun x => x) raw_export res)
    as (years & H1 & H2).
  - repeat constructor.
  - exact Hyear.
  - exact Hres.
  - exists res, years. split; [exact Hres|]. by split.
Defined.

(** ** The helpers of utils.py *)

Lemma zip_with_map_map {A B C D} (f : B -> C -> D) (g : A -> B) (h : A -> C) l :
  zip_with f (map g l) (map h l) = map (fun x => f (g x) (h x)) l.
Proof. induction l as [|x l IH]; simpl; [done|]. by rewrite IH. Qed.

Lemma first_present_snoc cs c :
  first_present (cs ++ [c]) = fillna (first_present cs) c.
Proof.
  induction cs as [|c0 cs IH]; simpl.
  - by destruct c.
  - destruct c0; simpl; done.
Qed.

Lemma fillna_same a : fillna a a = a.
Proof. by destruct a. Qed.

Lemma candidates_snoc df cols out c r :
  candidates df (cols ++ [c]) out r
  = candidates df cols out r
    ++ (if bool_decide (c = out) then []
        else match col_index (columns df) c with
             | Some i => [cell_at r i]
             | None => []
             end).
Proof.
  unfold candidates. rewrite omap_app. f_equal. simpl.
  case_bool_decide; [done|]. by destruct (col_index (columns df) c).
Qed.

(** The state of the loop of [coalesce_first] after the columns [seen]. *)
Lemma coalesce_loop df out cols :
  forall seen dfk,
    frame_wf dfk ->
    length (rows dfk) = length (rows df) ->
    out ∈ columns dfk ->
    (forall c, c <> out -> c ∈ columns dfk <-> c ∈ columns df) ->
    column_values dfk out
    = Ok (map (fun r => first_present (candidates df seen out r)) (rows df)) ->
    (forall c i, c <> out -> col_index (columns df) c = Some i ->
       column_values dfk c = Ok (map (fun r => cell_at r i) (rows df))) ->
    exists res,
      result_foldM (coalesce_step out) dfk cols = Ok res
      /\ frame_wf res
      /\ columns res = columns dfk
      /\ column_values res out
         = Ok (map (fun r => first_present (candidates df (seen ++ cols) out r))
                   (rows df))
      /\ (forall c i, c <> out -> col_index (columns df) c = Some i ->
            column_values res c = Ok (map (fun r => cell_at r i) (rows df))).
Proof.
  induction cols as [|c cols IH]; intros seen dfk Hwf Hlen Hout Hcols Hcur Hoth.
  - exists dfk. rewrite app_nil_r. by repeat split.
  - cbn [result_foldM]. unfold coalesce_step at 1.
    replace (seen ++ c :: cols) with ((seen ++ [c]) ++ cols)
      by (by rewrite <- app_assoc).
    assert (length (map (fun r => first_present (candidates df seen out r)) (rows df))
            = length (rows dfk)) as Hlencur by (by rewrite length_map).
    destruct (has_column dfk c) eqn:Hc.
    + rewrite Hcur. cbn [mbind result_bind].
      destruct (decide (c = out)) as [->|Hne].
      * rewrite Hcur. cbn [mbind result_bind].
        assert (zip_with fillna
                  (map (fun r => first_present (candidates df seen out r)) (rows df))
                  (map (fun r => first_present (candidates df seen out r)) (rows df))
                = map (fun r => first_present (candidates df seen out r)) (rows df))
          as ->.
        { rewrite zip_with_map_map. apply map_ext. intros r. apply fillna_same. }
        destruct (IH (seen ++ [out])
                    (set_column dfk out
                       (map (fun r => first_present (candidates df seen out r))
                            (rows df))))
          as (res & Hres & Hwfres & Hcolsres & Houtres & Hothres).
        -- by apply set_column_wf.
        -- cbn [set_column rows]. rewrite length_zip_with. lia.
        -- rewrite set_column_columns.
           by rewrite (proj2 (has_column_true dfk out) Hout).
        -- intros c' Hc'. rewrite set_column_columns.
           rewrite (proj2 (has_column_true dfk out) Hout). by apply Hcols.
        -- rewrite column_values_set_same by done. f_equal.
           apply map_ext. intros r. rewrite candidates_snoc.
           rewrite bool_decide_true by done. by rewrite app_nil_r.
        -- intros c' i Hc' Hi. apply column_values_set_other; [done|done|done|].
           by apply Hoth.
        -- exists res. split; [done|]. split; [done|]. split; [|done].
           rewrite Hcolsres, set_column_columns.
           by rewrite (proj2 (has_column_true dfk out) Hout).
      * apply has_column_true, (Hcols c Hne), col_index_is_Some in Hc as [i Hi].
        rewrite (Hoth c i Hne Hi). cbn [mbind result_bind].
        rewrite zip_with_map_map.
        destruct (IH (seen ++ [c])
                    (set_column dfk out
                       (map (fun r => fillna (first_present (candidates df seen out r))
                                             (cell_at r i)) (rows df))))
          as (res & Hres & Hwfres & Hcolsres & Houtres & Hothres).
        -- by apply set_column_wf.
        -- cbn [set_column rows]. rewrite length_zip_with, length_map. lia.
        -- rewrite set_column_columns.
           by rewrite (proj2 (has_column_true dfk out) Hout).
        -- intros c' Hc'. rewrite set_column_columns.
           rewrite (proj2 (has_column_true dfk out) Hout). by apply Hcols.
        -- rewrite column_values_set_same by (by rewrite ?length_map). f_equal.
           apply map_ext. intros r. rewrite candidates_snoc.
           rewrite bool_decide_false by done. rewrite Hi.
           by rewrite first_present_snoc.
        -- intros c' i' Hc' Hi'.
           apply column_values_set_other; [done|by rewrite length_map|done|].
           by apply Hoth.
        -- exists res. split; [done|]. split; [done|]. split; [|done].
           rewrite Hcolsres, set_column_columns.
           by rewrite (proj2 (has_column_true dfk out) Hout).
    + assert (c <> out) as Hne.
      { intros ->. apply (proj2 (has_column_true dfk out)) in Hout. congruence. }
      destruct (IH (seen ++ [c]) dfk) as (res & Hres & Hrest); try done.
      * rewrite Hcur. f_equal. apply map_ext. intros r.
        rewrite candidates_snoc, bool_decide_false by done.
        destruct (col_index (columns df) c) as [i|] eqn:Hi;
          [|by rewrite app_nil_r].
        exfalso. apply col_index_elem_of, (Hcols c Hne), has_column_true in Hi.
        congruence.
      * by exists res.
Qed.

(** X25. [coalesce_first] never fails on a well-formed table.  Its
    column [out] holds, row by row, the first value that is not missing
    among the listed columns the table has, in the order of the list
    (the former content of [out] is not looked at), and a missing value
    when there is none; every other column is as it was. *)
Theorem coalesce_first_first_present df cols out :
  frame_wf df ->
  exists res,
    coalesce_first df cols out = Ok res
    /\ frame_wf res
    /\ column_values res out
       = Ok (map (fun r => first_present (candidates df cols out r)) (rows df))
    /\ (forall c i, c <> out -> col_index (columns df) c = Some i ->
          column_values res c = Ok (map (fun r => cell_at r i) (rows df))).
Proof.
  intros Hwf. unfold coalesce_first.
  set (df0 := set_column df out (map (fun _ => Null) (rows df))).
  assert (length (map (fun _ : list cell => Null) (rows df)) = length (rows df))
    as Hlen by apply length_map.
  destruct (coalesce_loop df out cols [] df0)
    as (res & Hres & Hwfres & _ & Hout & Hoth).
  - by apply set_column_wf.
  - unfold df0. cbn [set_column rows]. rewrite length_zip_with. lia.
  - unfold df0. rewrite set_column_columns.
    destruct (has_column df out) eqn:Hc; [by apply has_column_true|].
    apply elem_of_app. right. left.
  - intros c Hc. unfold df0. rewrite set_column_columns.
    destruct (has_column df out); [done|].
    rewrite elem_of_app, list_elem_of_singleton. split; [by intros [?|?]|by left].
  - unfold df0. by rewrite column_values_set_same.
  - intros c i Hc Hi. unfold df0.
    apply column_values_set_other; [done|done|done|].
    unfold column_values. by rewrite Hi.
  - exists res. by repeat split.
Qed.

Lemma coalesce_first_first_present_witness :
  exists res,
    coalesce_first codes_scattered ["iso_a"; "code"; "iso_b"] "code" = Ok res
    /\ column_values res "code" = Ok [Str "KEN"; Str "PER"; Null].
Proof.
  destruct (coalesce_first_first_present codes_scattered
              ["iso_a"; "code"; "iso_b"] "code")
    as (res & Hres & _ & Hout & _).
  - repeat constructor.
  - exists res. split; [exact Hres|]. rewrite Hout. reflexivity.
Defined.

Lemma to_numeric_idempotent parse c :
  to_numeric parse (to_numeric parse c) = to_numeric parse c.
Proof. destruct c as [| |s]; try done. simpl. by destruct (parse s). Qed.

Lemma ensure_numeric_loop parse cols :
  forall df,
    frame_wf df ->
    exists res,
      result_foldM (coerce_prevalence parse) df cols = Ok res
      /\ frame_wf res
      /\ columns res = columns df
      /\ forall c vs,
           column_values df c = Ok vs ->
           column_values res c
           = Ok (if bool_decide (c ∈ cols) then map (to_numeric parse) vs else vs).
Proof.
  induction cols as [|col cols IH]; intros df Hwf.
  - exists df. split; [done|]. split; [done|]. split; [done|].
    intros c vs Hc. by rewrite bool_decide_false by apply not_elem_of_nil.
  - cbn [result_foldM]. unfold coerce_prevalence at 1.
    destruct (has_column df col) eqn:Hcol.
    + assert (exists ws, column_values df col = Ok ws) as [ws Hws].
      { apply has_column_true, col_index_is_Some in Hcol as [i Hi].
        unfold column_values. rewrite Hi. by eexists. }
      rewrite Hws. cbn [mbind result_bind].
      assert (length (map (to_numeric parse) ws) = length (rows df)) as Hlen
        by (rewrite length_map; by eapply column_values_length).
      destruct (IH (set_column df col (map (to_numeric parse) ws)))
        as (res & Hres & Hwfres & Hcols & Hvals); [by apply set_column_wf|].
      exists res. split; [done|]. split; [done|]. split.
      { by rewrite Hcols, set_column_columns, Hcol. }
      intros c vs Hc. destruct (decide (c = col)) as [->|Hne].
      * rewrite Hws in Hc. injection Hc as <-.
        rewrite (Hvals col (map (to_numeric parse) ws))
          by (by apply column_values_set_same).
        rewrite (bool_decide_true (col ∈ col :: cols)) by left.
        f_equal. case_bool_decide; [|done].
        rewrite map_map. apply map_ext. intros x. apply to_numeric_idempotent.
      * rewrite (Hvals c vs) by (by apply column_values_set_other).
        assert (bool_decide (c ∈ col :: cols) = bool_decide (c ∈ cols)) as ->
          by (apply bool_decide_ext; rewrite elem_of_cons;
              split; [by intros [?|?]|by right]).
        done.
    + destruct (IH df Hwf) as (res & Hres & Hwfres & Hcols & Hvals).
      exists res. split; [done|]. split; [done|]. split; [done|].
      intros c vs Hc. rewrite (Hvals c vs Hc).
      assert (c <> col) as Hne.
      { intros ->. unfold column_values in Hc.
        destruct (col_index (columns df) col) eqn:Hi; [|done].
        apply col_index_elem_of, has_column_true in Hi. congruence. }
      assert (bool_decide (c ∈ col :: cols) = bool_decide (c ∈ cols)) as ->
        by (apply bool_decide_ext; rewrite elem_of_cons;
              split; [by intros [?|?]|by right]).
      done.
Qed.

(** X26. [ensure_numeric] never fails on a well-formed table and keeps
    its columns: a listed column has every text replaced by the number
    read in it, or by a missing value, and a column that is not listed
    is as it was. *)
Theorem ensure_numeric_coerces_listed_columns parse_number df cols :
  frame_wf df ->
  exists res,
    ensure_numeric parse_number df cols = Ok res
    /\ frame_wf res
    /\ columns res = columns df
    /\ forall c vs,
         column_values df c = Ok vs ->
         exists vs',
           column_values res c = Ok vs'
           /\ (c ∈ cols ->
               vs' = map (to_numeric parse_number) vs
               /\ Forall (fun v => is_str v = false) vs')
           /\ (c ∉ cols -> vs' = vs).
Proof.
  intros Hwf. unfold ensure_numeric.
  destruct (ensure_numeric_loop parse_number cols df Hwf)
    as (res & Hres & Hwfres & Hcols & Hvals).
  exists res. split; [done|]. split; [done|]. split; [done|].
  intros c vs Hc. rewrite (Hvals c vs Hc). eexists. split; [done|]. split.
  - intros Hin. rewrite (bool_decide_true _ Hin). split; [done|].
    apply Forall_forall. intros v Hv.
    apply list_elem_of_fmap in Hv as (v0 & -> & _).
    destruct v0 as [| |s]; try done. simpl. by destruct (parse_number s).
  - intros Hnot. by rewrite (bool_decide_false _ Hnot).
Qed.

Lemma ensure_numeric_coerces_listed_columns_witness :
  exists res,
    ensure_numeric parse_sample codes_scattered ["year"; "gdp"] = Ok res
    /\ column_values res "year" = Ok [Num (Q2Qc 2020); num 2021; Null]
    /\ column_values res "name" = Ok [Str "Kenya"; Str "Peru"; Str "Atlantis"].
Proof.
  destruct (ensure_numeric_coerces_listed_columns parse_sample codes_scattered
              ["year"; "gdp"]) as (res & Hres & _ & _ & Hvals).
  - repeat constructor.
  - exists res. split; [exact Hres|]. split.
    + destruct (Hvals "year" [Str "2020"; num 2021; Str "long ago"] eq_refl)
        as (vs' & -> & Hlisted & _).
      destruct Hlisted as [-> _]; [|reflexivity].
      apply (bool_decide_unpack _). vm_compute. exact I.
    + destruct (Hvals "name" [Str "Kenya"; Str "Peru"; Str "Atlantis"] eq_refl)
        as (vs' & -> & _ & Hother).
      rewrite Hother; [reflexivity|].
      apply (bool_decide_unpack _). vm_compute. exact I.
Defined.

Lemma maximum_spec y ys :
  maximum y ys ∈ y :: ys /\ forall y', y' ∈ y :: ys -> (y' <= maximum y ys)%Z.
Proof.
  revert y. induction ys as [|y2 ys IH]; intros y; cbn [maximum].
  - split; [left|]. intros y' Hy'. apply list_elem_of_singleton in Hy' as ->. lia.
  - destruct (IH y2) as [Hin Hmax]. split.
    + destruct (Z.max_spec y (maximum y2 ys)) as [[_ ->]|[_ ->]]; [by right|left].
    + intros y' Hy'. apply elem_of_cons in Hy' as [->|Hy']; [lia|].
      specialize (Hmax y' Hy'). lia.
Qed.

Lemma numeric_years_elem_of parse_number out_of_range cells y :
  y ∈ numeric_years parse_number out_of_range cells
  <-> exists q, Num q ∈ map (to_numeric parse_number) cells
                /\ y = astype_int out_of_range q.
Proof.
  unfold numeric_years. rewrite list_elem_of_omap. split.
  - intros (c & Hc & Hy). destruct (to_numeric parse_number c) as [|q|s] eqn:Hq;
      try done.
    injection Hy as <-. exists q. split; [|done].
    apply list_elem_of_fmap. by exists c.
  - intros (q & Hq & ->). apply list_elem_of_fmap in Hq as (c & Hq & Hc).
    exists c. split; [done|]. by rewrite <- Hq.
Qed.

(** X27. When [latest_year] returns a year, the table has a column
    [year], the year returned is the 64-bit integer that [astype(int)]
    makes of one of the numbers of that column (a cell that is a number
    or the text of one), and of no number of the column it makes a
    larger one.  For a number whose integer part fits in 64 bits that
    integer is the integer part; for any other it is what the platform
    gives.  [None] is returned when the table has no column [year] or
    that column has no number. *)
Theorem latest_year_is_the_maximum parse_number out_of_range df :
  (forall q, int64_range (truncate q) = true ->
             astype_int out_of_range q = truncate q)
  /\ match latest_year parse_number out_of_range df with
     | Some y =>
         exists i,
           col_index (columns df) "year" = Some i
           /\ (exists q,
                 Num q ∈ map (to_numeric parse_number)
                             (map (fun r => cell_at r i) (rows df))
                 /\ y = astype_int out_of_range q)
           /\ (forall q,
                 Num q ∈ map (to_numeric parse_number)
                             (map (fun r => cell_at r i) (rows df)) ->
                 (astype_int out_of_range q <= y)%Z)
     | None =>
         forall i q,
           col_index (columns df) "year" = Some i ->
           Num q ∉ map (to_numeric parse_number)
                       (map (fun r => cell_at r i) (rows df))
     end.
Proof.
  split; [intros q Hq; unfold astype_int; by rewrite Hq|].
  unfold latest_year. destruct (col_index (columns df) "year") as [i|]; [|done].
  destruct (numeric_years _ _ _) as [|y ys] eqn:Hys.
  - intros i' q [= <-] Hq.
    assert (astype_int out_of_range q ∈ @nil Z) as Hin.
    { rewrite <- Hys. apply numeric_years_elem_of. by exists q. }
    by apply elem_of_nil in Hin.
  - exists i. split; [done|].
    destruct (maximum_spec y ys) as [Hin Hmax]. rewrite <- Hys in Hin, Hmax. split.
    + by apply numeric_years_elem_of.
    + intros q Hq. apply Hmax. apply numeric_years_elem_of. by exists q.
Qed.

Lemma latest_year_is_the_maximum_witness :
  exists y,
    latest_year parse_sample (fun _ => (- 2 ^ 63)%Z) years_beyond_int64 = Some y
    /\ (2020 <= y)%Z.
Proof.
  pose proof (latest_year_is_the_maximum parse_sample (fun _ => (- 2 ^ 63)%Z)
                years_beyond_int64) as [_ H].
  destruct (latest_year parse_sample _ years_beyond_int64) as [y|].
  - destruct H as (i & Hi & _ & Hmax). exists y. split; [reflexivity|].
    vm_compute in Hi. injection Hi as <-.
    apply (Hmax (Q2Qc 2020)).
    apply (bool_decide_unpack _). vm_compute. exact I.
  - exfalso. apply (H 0%nat (Q2Qc 2020) eq_refl).
    apply (bool_decide_unpack _). vm_compute. exact I.
Defined.

(** A year beyond the 64-bit range: where the cast gives the least
    64-bit integer for it, the year returned is the other one. *)
Example latest_year_beyond_int64 :
  latest_year parse_sample (fun _ => (- 2 ^ 63)%Z) years_beyond_int64
  = Some 2020%Z.
Proof. reflexivity. Qed.

Example latest_year_codes_scattered :
  latest_year parse_sample (fun _ => 0%Z) codes_scattered = Some 2021%Z.
Proof. reflexivity. Qed.

Example latest_year_without_column :
  latest_year parse_sample (fun _ => 0%Z) one_pair = Some 2020%Z
  /\ latest_year parse_sample (fun _ => 0%Z) (Frame ["country"] [[Str "Kenya"]])
     = None.
Proof. split; reflexivity. Qed.

(* ================================================================== *)
(** ** cli.py: the external table of [join_external_cmd] *)

Lemma find_first_column e labels c :
  first_column e labels = Some c -> c ∈ labels /\ c ∈ columns e.
Proof.
  unfold first_column. intros H. apply find_some in H as [Hin Hhas].
  split; [by apply list_elem_of_In|by apply has_column_true].
Qed.

Lemma rename_one_label (c target x : string) :
  default x (({[c := target]} : gmap string string) !! x)
  = if bool_decide (x = c) then target else x.
Proof.
  case_bool_decide as Hx.
  - subst x. by rewrite lookup_singleton_eq.
  - rewrite lookup_singleton_ne; [done|congruence].
Qed.

Lemma rename_one_columns c target df :
  columns (rename_columns {[c := target]} df)
  = map (fun x => if bool_decide (x = c) then target else x) (columns df).
Proof.
  unfold rename_columns. cbn [columns]. apply map_ext. intros x.
  apply rename_one_label.
Qed.

(** X28. When the external table has no column [year] but one labelled
    [Year] or [YEAR], the year normalisation of [join_external_cmd] adds
    a column [year] at the end and then renames the capitalised column
    to [year] as well: the table it hands to the merge has two columns
    labelled [year], although the labels of the table read were
    distinct. *)
Theorem external_year_capitalised_label_twice parse_number e :
  NoDup (columns e) ->
  "year" ∉ columns e ->
  "Year" ∈ columns e \/ "YEAR" ∈ columns e ->
  exists c e',
    first_column e ["Year"; "YEAR"] = Some c
    /\ external_year parse_number e = Ok e'
    /\ columns e'
       = map (fun x => if bool_decide (x = c) then "year" else x) (columns e)
         ++ ["year"]
    /\ ~ NoDup (columns e').
Proof.
  intros Hnodup Hyear Hcap.
  assert (exists c, first_column e ["Year"; "YEAR"] = Some c) as [c Hc].
  { unfold first_column. cbn [List.find].
    destruct (has_column e "Year") eqn:H1; [by eexists|].
    destruct (has_column e "YEAR") eqn:H2; [by eexists|].
    exfalso. destruct Hcap as [H|H]; apply has_column_true in H; congruence. }
  destruct (find_first_column _ _ _ Hc) as [Hlabel Hin].
  assert (c <> "year") as Hne by (intros ->; done).
  destruct (col_index_is_Some _ _ Hin) as [i Hi].
  exists c. eexists. split; [done|].
  unfold external_year.
  assert (first_column e ["year"; "Year"; "YEAR"] = Some c) as ->.
  { unfold first_column in *. cbn [List.find] in *.
    destruct (has_column e "year") eqn:H0; [|done].
    apply has_column_true in H0. done. }
  unfold column_values. rewrite Hi. cbn [mbind result_bind].
  rewrite (bool_decide_false _ Hne). split; [done|].
  assert (col_index (columns e) "year" = None) as Hnone.
  { destruct (col_index (columns e) "year") eqn:H; [|done].
    by apply col_index_elem_of in H. }
  rewrite rename_one_columns. unfold set_column. cbn [columns]. rewrite Hnone.
  rewrite map_app. cbn [map]. rewrite (bool_decide_false ("year" = c)); [|congruence].
  split; [done|].
  intros Hdup. apply NoDup_app in Hdup as (_ & Hdisj & _).
  apply (Hdisj "year"); [|left].
  apply list_elem_of_fmap. exists c. by rewrite bool_decide_true.
Qed.

Lemma external_year_capitalised_label_twice_witness :
  exists e',
    external_year parse_sample external_capital_year = Ok e'
    /\ columns e' = ["iso_code"; "year"; "gdp"; "year"]
    /\ ~ NoDup (columns e').
Proof.
  destruct (external_year_capitalised_label_twice parse_sample external_capital_year)
    as (c & e' & Hc & He' & Hcols & Hdup).
  - apply (bool_decide_unpack _). vm_compute. exact I.
  - apply (bool_decide_unpack _). vm_compute. exact I.
  - left. apply (bool_decide_unpack _). vm_compute. exact I.
  - exists e'. split; [exact He'|]. split; [|exact Hdup].
    rewrite Hcols. injection Hc as <-. reflexivity.
Defined.

(** X29. When the external table has a column [year], the year
    normalisation of [join_external_cmd] keeps the labels and the other
    columns and replaces every text of that column by the number read in
    it, or by a missing value. *)
Theorem external_year_lower_label parse_number e :
  frame_wf e ->
  "year" ∈ columns e ->
  exists e' years,
    external_year parse_number e = Ok e'
    /\ frame_wf e'
    /\ columns e' = columns e
    /\ column_values e "year" = Ok years
    /\ column_values e' "year" = Ok (map (to_numeric parse_number) years)
    /\ forall c, c <> "year" -> column_values e' c = column_values e c.
Proof.
  intros Hwf Hin.
  destruct (col_index_is_Some _ _ Hin) as [i Hi].
  unfold external_year.
  assert (first_column e ["year"; "Year"; "YEAR"] = Some "year") as ->.
  { unfold first_column. cbn [List.find].
    by rewrite (proj2 (has_column_true e "year") Hin). }
  pose proof Hi as Hvals. unfold column_values at 1. rewrite Hi.
  cbn [mbind result_bind]. rewrite bool_decide_true; [|done].
  eexists. eexists. split; [done|].
  assert (length (map (to_numeric parse_number)
                      (map (fun r => cell_at r i) (rows e))) = length (rows e))
    as Hlen by (by rewrite !length_map).
  split; [by apply set_column_wf|].
  split; [unfold set_column; cbn [columns]; by rewrite Hi|].
  split; [unfold column_values; by rewrite Hi|].
  split; [by apply column_values_set_same|].
  intros c Hc. destruct (column_values e c) as [vs|err] eqn:Hcv.
  - by apply column_values_set_other.
  - unfold column_values in *. unfold set_column. cbn [columns]. rewrite Hi.
    destruct (col_index (columns e) c); done.
Qed.

Lemma external_year_lower_label_witness :
  exists e',
    external_year parse_sample external_lower_year = Ok e'
    /\ columns e' = ["country_iso3"; "year"; "gdp"]
    /\ column_values e' "year" = Ok [Num (Q2Qc 2020)]
    /\ column_values e' "gdp" = Ok [num 100].
Proof.
  destruct (external_year_lower_label parse_sample external_lower_year)
    as (e' & years & He' & _ & Hcols & Hyears & Hyear & Hother).
  - repeat constructor.
  - apply (bool_decide_unpack _). vm_compute. exact I.
  - exists e'. split; [exact He'|]. split; [by rewrite Hcols|]. split.
    + rewrite Hyear. injection Hyears as <-.
      apply (bool_decide_unpack _). vm_compute. exact I.
    + rewrite Hother; [|done]. apply (bool_decide_unpack _). vm_compute. exact I.
Defined.

(** X30. The code normalisation of [join_external_cmd] never touches
    the rows and keeps distinct labels distinct.  Its result has a
    column [country_iso3] exactly when the table had one or had one of
    the aliases [iso_code], [ISO3], [iso3], [Code]; a table that has
    [country_iso3] is returned as it is, and otherwise only the first
    alias present, in that order, is renamed. *)
Theorem external_country_code_aliases e :
  rows (external_country_code e) = rows e
  /\ ("country_iso3" ∈ columns (external_country_code e)
      <-> "country_iso3" ∈ columns e
          \/ exists c, c ∈ code_aliases /\ c ∈ columns e)
  /\ ("country_iso3" ∈ columns e -> external_country_code e = e)
  /\ ("country_iso3" ∉ columns e ->
      forall c, first_column e code_aliases = Some c ->
        columns (external_country_code e)
        = map (fun x => if bool_decide (x = c) then "country_iso3" else x)
              (columns e))
  /\ (NoDup (columns e) -> NoDup (columns (external_country_code e))).
Proof.
  unfold external_country_code. fold code_aliases.
  destruct (has_column e "country_iso3") eqn:Hhas.
  { apply has_column_true in Hhas.
    split; [done|]. split; [by split; [left|]|]. split; [done|].
    split; done. }
  assert ("country_iso3" ∉ columns e) as Hnot.
  { intros H. apply has_column_true in H. congruence. }
  destruct (first_column e code_aliases) as [c|] eqn:Hfirst.
  - destruct (find_first_column _ _ _ Hfirst) as [Halias Hin].
    split; [done|]. rewrite rename_one_columns.
    split; [|split; [done|split]].
    + split; [intros _; right; by exists c|]. intros _.
      apply list_elem_of_fmap. exists c. by rewrite bool_decide_true.
    + intros _ c' [= <-]. done.
    + intros Hnodup. apply NoDup_fmap_2_strong; [|done].
      intros x y Hx Hy. repeat case_bool_decide; congruence.
  - split; [done|]. split; [|split; [done|split; done]].
    split; [by left|]. intros [H|(c & Halias & Hin)]; [done|].
    exfalso. unfold first_column in Hfirst.
    apply list_elem_of_In in Halias.
    pose proof (find_none _ _ Hfirst c Halias) as Hfalse.
    apply has_column_true in Hin. congruence.
Qed.

Lemma external_country_code_aliases_witness :
  columns (external_country_code external_capital_year) = ["country_iso3"; "Year"; "gdp"]
  /\ NoDup (columns (external_country_code external_capital_year))
  /\ external_country_code external_lower_year = external_lower_year.
Proof.
  destruct (external_country_code_aliases external_capital_year)
    as (_ & _ & _ & Hrename & Hnodup).
  destruct (external_country_code_aliases external_lower_year)
    as (_ & _ & Hsame & _ & _).
  split; [|split].
  - rewrite (Hrename ltac:(apply (bool_decide_unpack _); vm_compute; exact I)
               "iso_code" eq_refl). reflexivity.
  - apply Hnodup. apply (bool_decide_unpack _). vm_compute. exact I.
  - apply Hsame. apply (bool_decide_unpack _). vm_compute. exact I.
Defined.

(* ================================================================== *)
(** * The resolver through [to_iso3], the gap name of the prevalence pair *)

(** ** [to_iso3]: what [astype(str)] does to the guard of [_map] *)

(** C7 (the code at a failing input). [_map] alone gives the missing
    value for a number, as it does for a blank text.  But [to_iso3]
    hands [_map] the elements of [astype(str)], where a number is a
    text, so that the guard of [_map] never sees it: a number is
    resolved as the name that its text is.  When the converter answers
    that text with a code, the code is the result and not the missing
    value; without a converter, a bundle that cannot be loaded makes the
    resolution raise. *)
Theorem to_iso3_resolves_number_as_text
    convert bundle (astype_str : cell -> cell) q t code :
  astype_str (Num q) = Str t ->
  blank t = false ->
  convert (str_strip t) = Ok (PyStr code) ->
  str_strip (str_lower code) ∉ ["not found"; "notfound"; ""] ->
  _map (Some convert) bundle (Num q) = Ok Null
  /\ to_iso3 (Some convert) bundle astype_str [Num q] = Ok [Str code]
  /\ (forall e,
        str_truthy (_normalize_key (str_strip t)) = true ->
        to_iso3 None (Raise e) astype_str [Num q] = Raise e).
Proof.
  intros Htext Ht Hconv Hmark. split; [by apply _map_names_nothing|].
  unfold to_iso3. cbn [result_mapM]. rewrite Htext. split.
  - assert (_map (Some convert) bundle (Str t) = Ok (Str code)) as ->; [|done].
    unfold _map, convert_guarded.
    rewrite str_truthy_strip, Ht, Hconv. cbn [negb mbind result_bind].
    cbn [first_of_sequence drop_not_found].
    rewrite (bool_decide_false _ Hmark). cbn [usable_code].
    assert (blank code = false) as Hcode.
    { rewrite <- blank_lower. destruct (blank (str_lower code)) eqn:Hb; [|done].
      exfalso. apply Hmark. rewrite (str_strip_blank _ Hb).
      right. right. left. }
    rewrite str_truthy_strip, Hcode. cbn [negb mbind result_bind].
    pose proof (blank_empty _ Hcode). by destruct code.
  - intros e Hkey.
    assert (_map None (Raise e) (Str t) = Raise e) as ->; [|done].
    unfold _map. cbn [mbind result_bind usable_code _fallback_lookup].
    rewrite str_truthy_strip, Ht. cbn [negb]. by rewrite Hkey.
Qed.

Lemma to_iso3_resolves_number_as_text_witness :
  _map (Some iso_numeric_convert) missing_bundle (num 4) = Ok Null
  /\ to_iso3 (Some iso_numeric_convert) missing_bundle astype_str_sample [num 4]
     = Ok [Str "AFG"]
  /\ to_iso3 None missing_bundle astype_str_sample [num 4]
     = Raise (Exn FileNotFoundError "_country_iso_fallback.json").
Proof.
  destruct (to_iso3_resolves_number_as_text iso_numeric_convert missing_bundle
              astype_str_sample (Q2Qc (inject_Z 4)) "4" "AFG")
    as (Hguard & Hcode & Hraise).
  - reflexivity.
  - reflexivity.
  - reflexivity.
  - apply (bool_decide_unpack _). vm_compute. exact I.
  - split; [exact Hguard|]. split; [exact Hcode|].
    apply (Hraise (Exn FileNotFoundError "_country_iso_fallback.json")).
    reflexivity.
Defined.

(** ** [gender_gap]: which columns share the gap name of the prevalence pair *)

Lemma list_ascii_of_string_app (s t : string) :
  list_ascii_of_string (s +:+ t) = list_ascii_of_string s ++ list_ascii_of_string t.
Proof. induction s as [|c s IH]; simpl; [done|]. by rewrite IH. Qed.

Lemma string_of_list_ascii_app (l l' : list ascii) :
  string_of_list_ascii (l ++ l') = string_of_list_ascii l +:+ string_of_list_ascii l'.
Proof. induction l as [|c l IH]; simpl; [done|]. by rewrite IH. Qed.

Lemma list_ascii_of_string_inj (s t : string) :
  list_ascii_of_string s = list_ascii_of_string t -> s = t.
Proof.
  intros H. rewrite <- (string_of_list_ascii_of_string s), H.
  apply string_of_list_ascii_of_string.
Qed.

Lemma string_app_inv_tail (a b s : string) : a +:+ s = b +:+ s -> a = b.
Proof.
  intros H. apply list_ascii_of_string_inj.
  apply (f_equal list_ascii_of_string) in H.
  rewrite !list_ascii_of_string_app in H. by apply app_inv_tail in H.
Qed.

Lemma string_app_assoc (a b c : string) : (a +:+ b) +:+ c = a +:+ b +:+ c.
Proof.
  induction a as [|x a IH]; [reflexivity|].
  change (String x ((a +:+ b) +:+ c) = String x (a +:+ b +:+ c)). by f_equal.
Qed.

Lemma substring_split (s : string) (m : nat) :
  (m <= String.length s)%nat ->
  s = String.substring 0 m s +:+ String.substring m (String.length s - m) s.
Proof.
  revert m. induction s as [|c s IH]; intros [|m] Hm; simpl in *; try done; try lia.
  - by rewrite substring_all.
  - change (String c s
            = String c (String.substring 0 m s
                        +:+ String.substring m (String.length s - m) s)).
    f_equal. apply IH. lia.
Qed.

Lemma str_endswith_split (suffix s : string) :
  str_endswith suffix s = true ->
  s = str_drop_last (String.length suffix) s +:+ suffix.
Proof.
  unfold str_endswith, str_drop_last. intros H.
  apply andb_prop in H as [Hle Heq].
  apply Nat.leb_le in Hle. apply bool_decide_eq_true in Heq.
  etrans; [apply (substring_split s (String.length s - String.length suffix)); lia|].
  f_equal.
  replace (String.length s - (String.length s - String.length suffix))%nat
    with (String.length suffix) by lia.
  exact Heq.
Qed.

Lemma lstrip_chars_split p l :
  exists h, l = h ++ lstrip_chars p l /\ forallb p h = true.
Proof.
  induction l as [|c l IH]; simpl; [by exists []|].
  destruct (p c) eqn:Hc; [|by exists []].
  destruct IH as (h & Hl & Hh). exists (c :: h). simpl. rewrite Hc.
  split; [by f_equal|done].
Qed.

Lemma rstrip_chars_split p l :
  exists t, l = rstrip_chars p l ++ t /\ forallb p t = true.
Proof.
  unfold rstrip_chars.
  destruct (lstrip_chars_split p (rev l)) as (h & Hl & Hh).
  exists (rev h). split.
  - apply (f_equal (@rev ascii)) in Hl.
    by rewrite rev_involutive, rev_app_distr in Hl.
  - rewrite forallb_forall in *. intros x Hx. apply Hh. by apply in_rev.
Qed.

Lemma rstrip_chars_app_replicate p l u k :
  p u = true -> rstrip_chars p (l ++ replicate k u) = rstrip_chars p l.
Proof.
  intros Hu. induction k as [|k IH]; [by rewrite app_nil_r|].
  rewrite replicate_S_end, app_assoc. unfold rstrip_chars in *.
  rewrite rev_unit. simpl. by rewrite Hu.
Qed.

Lemma forallb_replicate (u : ascii) (t : list ascii) :
  forallb (fun c => bool_decide (c = u)) t = true -> t = replicate (length t) u.
Proof.
  induction t as [|c t IH]; simpl; [done|].
  intros H. apply andb_prop in H as [Hc Ht].
  apply bool_decide_eq_true in Hc as ->. f_equal. by apply IH.
Qed.

(** The [*_male] columns whose gap is named [prevalence_gap_fm]: the
    base is [prevalence], followed by any number of underscores. *)
Lemma wide_gap_name_prevalence male_col :
  str_endswith "_male" male_col = true ->
  wide_gap_name male_col = "prevalence_gap_fm"
  <-> exists k, male_col = "prevalence" +:+ underscores k +:+ "_male".
Proof.
  intros Hmale. pose proof (str_endswith_split "_male" male_col Hmale) as Hcol.
  change (String.length "_male") with 5%nat in Hcol.
  unfold wide_gap_name. set (base := str_drop_last 5 male_col) in *.
  split.
  - intros Hname.
    apply (string_app_inv_tail _ "prevalence" "_gap_fm") in Hname.
    destruct (str_endswith "_" base) eqn:Hend.
    + unfold str_rstrip_underscore in Hname.
      destruct (rstrip_chars_split (fun c => bool_decide (c = "_"%char))
                  (list_ascii_of_string base)) as (t & Hbase & Ht).
      destruct (str_truthy _) eqn:Htruthy in Hname.
      * exists (length t). rewrite Hcol at 1. rewrite <- string_app_assoc. f_equal.
        apply list_ascii_of_string_inj. rewrite Hbase at 1.
        rewrite list_ascii_of_string_app. unfold underscores.
        rewrite list_ascii_of_string_of_list_ascii, <- (forallb_replicate _ _ Ht).
        f_equal. rewrite <- Hname. by rewrite list_ascii_of_string_of_list_ascii.
      * rewrite Hname in Hend. discriminate Hend.
    + exists 0%nat. rewrite Hcol at 1. f_equal.
      by destruct (str_truthy base).
  - intros [k Hk].
    assert (base = "prevalence" +:+ underscores k) as ->.
    { unfold base. rewrite Hk, <- string_app_assoc.
      apply (str_drop_last_app ("prevalence" +:+ underscores k) "_male"). }
    destruct k as [|k]; [reflexivity|].
    assert (str_rstrip_underscore ("prevalence" +:+ underscores (S k)) = "prevalence")
      as Hstrip.
    { unfold str_rstrip_underscore, underscores.
      rewrite list_ascii_of_string_app, list_ascii_of_string_of_list_ascii.
      by rewrite rstrip_chars_app_replicate. }
    assert (str_endswith "_" ("prevalence" +:+ underscores (S k)) = true) as ->.
    { unfold underscores. rewrite replicate_S_end, string_of_list_ascii_app.
      rewrite <- string_app_assoc. apply str_endswith_app. }
    by rewrite Hstrip.
Qed.

(** C10 (as the code has it). In a table with the columns
    [prevalence_male] and [prevalence_female] the wide pass names the
    gap of this pair [prevalence_gap_fm], which is not the name
    [prevalence_total_gap_fm] of the long pass.  The long pass never
    puts [prevalence_gap_fm] in [produced], so what it emitted cannot
    stop the pair.  The [*_male] columns with that gap name are those
    whose base is [prevalence] followed by underscores.  Reached with no
    such column before it that has its [*_female] sibling, the pair gets
    its gap table (female minus male, row by row); reached after one,
    the pair is skipped.  Whenever [gender_gap] returns, the result has
    a column [prevalence_gap_fm]. *)
Theorem gender_gap_prevalence_pair_not_blocked_by_long_pass df :
  frame_wf df ->
  has_column df "prevalence_male" = true ->
  has_column df "prevalence_female" = true ->
  wide_gap_name "prevalence_male" = "prevalence_gap_fm"
  /\ "prevalence_gap_fm" <> "prevalence_total" +:+ "_gap_fm"
  /\ (forall st, long_pass df = Ok st -> "prevalence_gap_fm" ∉ produced st)
  /\ (forall c, str_endswith "_male" c = true ->
        wide_gap_name c = "prevalence_gap_fm"
        <-> exists k, c = "prevalence" +:+ underscores k +:+ "_male")
  /\ (forall st0 st st' before after,
        long_pass df = Ok st0 ->
        male_cols df = before ++ "prevalence_male" :: after ->
        result_foldM (wide_step df) st0 before = Ok st ->
        wide_step df st "prevalence_male" = Ok st' ->
        (Forall (fun c => has_column df (female_sibling c) = true ->
                          wide_gap_name c <> "prevalence_gap_fm") before ->
         exists part females males gaps,
           st' = GapState (out st ++ [part]) ({["prevalence_gap_fm"]} ∪ produced st)
           /\ is_gap_table part "prevalence_gap_fm"
           /\ column_values df "prevalence_female" = Ok females
           /\ column_values df "prevalence_male" = Ok males
           /\ result_mapM (fun fm => cell_sub fm.1 fm.2) (zip females males) = Ok gaps
           /\ column_values part "prevalence_gap_fm" = Ok gaps)
        /\ (Exists (fun c => has_column df (female_sibling c) = true
                             /\ wide_gap_name c = "prevalence_gap_fm") before ->
            st' = st))
  /\ (forall res, gender_gap df = Ok res -> "prevalence_gap_fm" ∈ columns res).
Proof.
  intros Hwf Hmale Hfemale.
  split; [reflexivity|]. split; [discriminate|].
  split; [apply long_pass_never_produces_prevalence_gap|].
  split; [apply wide_gap_name_prevalence|]. split.
  - intros st0 st st' before after Hlong _ Hbefore Hstep. split.
    + intros Hnames.
      apply (wide_step_emits df st "prevalence_male" st' Hwf); [|done|done].
      change (wide_gap_name "prevalence_male") with "prevalence_gap_fm".
      intros Hin.
      destruct (wide_fold_produced_from df before _ _ _ Hbefore Hin)
        as [Hin0|(c & Hc & Hf & Hname)].
      * by apply (long_pass_never_produces_prevalence_gap df st0).
      * rewrite Forall_forall in Hnames. by apply (Hnames c Hc Hf).
    + intros Hearlier. apply Exists_exists in Hearlier as (c & Hc & Hf & Hname).
      pose proof (wide_fold_produces df before st0 st c Hbefore Hc Hf) as Hin.
      rewrite Hname in Hin. revert Hstep. unfold wide_step.
      change (str_drop_last 5 "prevalence_male" +:+ "_female")
        with "prevalence_female".
      rewrite Hfemale. cbn [negb].
      change (wide_gap_name "prevalence_male") with "prevalence_gap_fm".
      rewrite (bool_decide_true _ Hin). by intros [= <-].
  - intros res Hres.
    apply (gender_gap_has_produced_columns df res "prevalence_male"); [done| |done].
    unfold male_cols. apply list_elem_of_In, filter_In.
    split; [|reflexivity]. by apply list_elem_of_In, has_column_true.
Qed.

Lemma gender_gap_prevalence_pair_witness :
  (forall st, long_pass long_and_wide = Ok st -> "prevalence_gap_fm" ∉ produced st)
  /\ (exists st part,
        long_pass long_and_wide = Ok st
        /\ wide_step long_and_wide st "prevalence_male"
           = Ok (GapState (out st ++ [part]) ({["prevalence_gap_fm"]} ∪ produced st))
        /\ column_values part "prevalence_gap_fm" = Ok [num 6; num 6])
  /\ (forall res, gender_gap long_and_wide = Ok res ->
                  "prevalence_gap_fm" ∈ columns res).
Proof.
  destruct (gender_gap_prevalence_pair_not_blocked_by_long_pass long_and_wide)
    as (_ & _ & Hlong & _ & Hstep & Hres).
  - repeat constructor.
  - reflexivity.
  - reflexivity.
  - split; [exact Hlong|]. split; [|exact Hres].
    destruct (long_pass long_and_wide) as [st0|e] eqn:Hst0; [|discriminate Hst0].
    destruct (wide_step long_and_wide st0 "prevalence_male") as [st'|e] eqn:Hst';
      [|vm_compute in Hst0; injection Hst0 as <-; vm_compute in Hst'; discriminate Hst'].
    destruct (Hstep st0 st0 st' [] [] eq_refl eq_refl eq_refl Hst') as [Hemit _].
    destruct (Hemit (Forall_nil_2 _))
      as (part & females & males & gaps & -> & _ & Hf & Hm & Hgaps & Hpart).
    exists st0, part. split; [done|]. split; [done|].
    rewrite Hpart. f_equal.
    vm_compute in Hf. injection Hf as <-. vm_compute in Hm. injection Hm as <-.
    cbn [zip zip_with result_mapM fst snd cell_sub] in Hgaps.
    injection Hgaps as <-. apply (bool_decide_unpack _). vm_compute. exact I.
Defined.

(** C10 fails as stated: with the pair [prevalence__male] /
    [prevalence__female] before it, the canonical pair is reached when
    [prevalence_gap_fm] is already in [produced]; it gets no gap table,
    and the column [prevalence_gap_fm] of the result holds the gap of
    the other pair, 2 - 1, not 10 - 4. *)
Lemma gender_gap_prevalence_pair_suppressed :
  has_column two_prevalence_pairs "prevalence_male" = true
  /\ has_column two_prevalence_pairs "prevalence_female" = true
  /\ male_cols two_prevalence_pairs = ["prevalence__male"; "prevalence_male"]
  /\ wide_gap_name "prevalence__male" = "prevalence_gap_fm"
  /\ (exists parts, gap_parts two_prevalence_pairs = Ok parts /\ length parts = 1%nat)
  /\ gender_gap two_prevalence_pairs
     = Ok (Frame ["country"; "country_iso3"; "year"; "prevalence_gap_fm"]
                 [[Str "Kenya"; Str "KEN"; num 2020; num 1]]).
Proof.
  split; [reflexivity|]. split; [reflexivity|]. split; [reflexivity|].
  split; [reflexivity|].
  split; [eexists; split; [vm_compute; reflexivity|reflexivity]|].
  apply (bool_decide_unpack _). vm_compute. exact I.
Qed.
